(** * Pacemaker CTS audits (python/pacemaker/_cts/audits.py)

    A shallow embedding of the audit classes of Pacemaker's Cluster Test
    Suite, and the properties of the audits proved on it.

    The cluster manager handle [cm] is an external collaborator of the
    audits: its remote shell, its environment and its helper predicates are
    fields of the record [ClusterManager].  What the audits mutate (the
    expected status of the nodes, the preferred log kind) and what they emit
    (log lines, remote commands, log watches) lives in [cm_state]. *)

From Stdlib Require Import ZArith String Ascii List Bool Lia.
From stdpp Require Import base option gmap strings list.

Local Open Scope string_scope.
Local Open Scope list_scope.
Local Open Scope Z_scope.

(** ** Python primitives used by the audits *)

Module Py.

(** [str.isspace] on the ASCII range: TAB, LF, VT, FF, CR, FS, GS, RS, US
    and the space.  Strings are sequences of ASCII characters here. *)
Definition is_space (c : ascii) : bool :=
  let n := nat_of_ascii c in
  ((9 <=? n)%nat && (n <=? 13)%nat) || ((28 <=? n)%nat && (n <=? 32)%nat).

Fixpoint lstrip_chars (s : list ascii) : list ascii :=
  match s with
  | c :: s' => if is_space c then lstrip_chars s' else s
  | [] => []
  end.

Definition strip_chars (s : list ascii) : list ascii :=
  rev (lstrip_chars (rev (lstrip_chars s))).

(** [s.strip()] *)
Definition strip (s : string) : string :=
  string_of_list_ascii (strip_chars (list_ascii_of_string s)).

(** [s.split()]: the maximal runs of characters that are not white space.
    [cur] is the run being read, in reverse. *)
Fixpoint split_chars (cur : list ascii) (s : list ascii) : list string :=
  match s with
  | [] => match cur with
          | [] => []
          | _ => [string_of_list_ascii (rev cur)]
          end
  | c :: s' =>
      if is_space c then
        match cur with
        | [] => split_chars [] s'
        | _ => string_of_list_ascii (rev cur) :: split_chars [] s'
        end
      else split_chars (c :: cur) s'
  end.

Definition split (s : string) : list string :=
  split_chars [] (list_ascii_of_string s).

(** [s[:-1]] *)
Definition drop_last (s : string) : string :=
  String.substring 0 (String.length s - 1) s.

(** Truth value of a string, of a list and of an optional integer. *)
Definition truthy_str (s : string) : bool :=
  match s with EmptyString => false | _ => true end.

Definition truthy_list {A} (l : list A) : bool :=
  match l with [] => false | _ => true end.

Definition truthy_int (z : Z) : bool := negb (z =? 0).

Definition truthy_opt {A} (truthy : A → bool) (o : option A) : bool :=
  match o with Some a => truthy a | None => false end.

(** The white space that [int] skips around a literal: TAB, LF, VT, FF, CR
    and the space.  FS, GS, RS and US are white space for [str.strip] and
    [str.split], but [int] refuses them. *)
Definition is_blank (c : ascii) : bool :=
  let n := nat_of_ascii c in
  ((9 <=? n)%nat && (n <=? 13)%nat) || (n =? 32)%nat.

Fixpoint skip_blanks (s : list ascii) : list ascii :=
  match s with
  | c :: s' => if is_blank c then skip_blanks s' else s
  | [] => []
  end.

Definition unpad (s : list ascii) : list ascii :=
  rev (skip_blanks (rev (skip_blanks s))).

(** [int(s)] in base 10: white space around, an optional sign, decimal
    digits, single underscores between digits.  [None] stands for the
    ValueError of an invalid literal. *)
Definition digit_of (c : ascii) : option Z :=
  let n := Z.of_nat (nat_of_ascii c) in
  if (48 <=? n) && (n <=? 57) then Some (n - 48) else None.

Inductive lex := AtStart | AfterDigit | AfterUnderscore.

Fixpoint digits (acc : Z) (prev : lex) (s : list ascii) : option Z :=
  match s with
  | [] => match prev with AfterDigit => Some acc | _ => None end
  | c :: s' =>
      match digit_of c with
      | Some d => digits (10 * acc + d) AfterDigit s'
      | None =>
          if Ascii.eqb c "_"%char then
            match prev with
            | AfterDigit => digits acc AfterUnderscore s'
            | _ => None
            end
          else None
      end
  end.

Definition int (s : string) : option Z :=
  match unpad (list_ascii_of_string s) with
  | c :: s' =>
      if Ascii.eqb c "-"%char then Z.opp <$> digits 0 AtStart s'
      else if Ascii.eqb c "+"%char then digits 0 AtStart s'
      else digits 0 AtStart (c :: s')
  | [] => None
  end.

(** [re.search("^" + p, s)] for a literal [p]. *)
Definition starts_with (p s : string) : bool := String.prefix p s.

(** [re.search(p, s)] for a literal [p]: [p] occurs in [s]. *)
Fixpoint contains (p s : string) : bool :=
  String.prefix p s ||
  match s with
  | EmptyString => false
  | String _ s' => contains p s'
  end.

(** A value that is a string, an integer or a boolean, for the places
    where the source mixes them. *)
Inductive value :=
| VStr (s : string)
| VInt (z : Z)
| VBool (b : bool).

(** [a == b]: a string never equals a number; [True] is 1 and [False]
    is 0. *)
Definition eq (a b : value) : bool :=
  match a, b with
  | VStr s, VStr t => String.eqb s t
  | VInt x, VInt y => x =? y
  | VBool x, VBool y => Bool.eqb x y
  | VInt x, VBool y | VBool y, VInt x => x =? Z.b2z y
  | _, _ => false
  end.

Definition truthy (a : value) : bool :=
  match a with
  | VStr s => truthy_str s
  | VInt z => truthy_int z
  | VBool b => b
  end.

(** The double quote, as a string. *)
Definition dquote : string := String (ascii_of_nat 34) EmptyString.

End Py.

(** ** Exceptions, log lines and effects *)

(** The exceptions the audits can raise. *)
Inductive value_error :=
| InvalidLiteral (literal : string)          (* int() of a string that is no number *)
| DiskFull (node : string).                  (* ValueError(f"Disk full on {node}") *)

Inductive exn :=
| IndexError
| KeyError (key : string)
| ValueError (why : value_error)
| UnboundLocalError (name : string).

Inductive result (A : Type) :=
| Ok (a : A)
| Raise (e : exn).
Arguments Ok {A} a.
Arguments Raise {A} e.

(** pacemaker._cts.watcher.LogKind *)
Inductive LogKind := LOCAL_FILE | JOURNAL | REMOTE_FILE.

#[global] Instance LogKind_eq_dec : EqDecision LogKind.
Proof. solve_decision. Defined.

(** One constructor for each message the audits of this file hand to
    [cm.log] or [cm.debug]; the arguments are the values formatted into the
    message. *)
Inductive msg :=
(* LogAudit *)
| MLoggingTestMessage (suffix : string)
| MCannotExecute (cmd node : string)
| MCheckingFor (k : LogKind)
| MTestMessageNotFound (regex : string) (k : LogKind)
| MFoundTestMessage (k : LogKind)
(* DiskAudit *)
| MCannotDf (cmd node : string)
| MDfInvalid (dfout node used remain : string)
| MCritDisk (node : string) (used_percent remaining_mb : Z)
| MWarnDisk (remaining_mb : Z) (node : string)
(* FileAudit *)
| MCoreFile (tool node line : string)
| MStaleIPC (node line : string)
| MPs (node line : string)
| MSkipping (node : string)
(* PrimitiveAudit and the audits derived from it *)
| MNoNodesActive (name : string)
| MUnknownEntry (line : string)
| MResourceActive (id : string) (active : list string)
| MActiveWithoutQuorum (id : string) (active : list string)
| MNotManaged (id : string) (active : list string)
| MNonUniqueActive (id : string) (active : list string)
| MNonUniqueInactive (id : string)
| MActiveMultiple (id : string) (active : list string)
| MInactiveOrphan (id : string)
| MNotServedAnywhere (id : string)
| MNotServed (id : string) (inactive_nodes : list string)
| MChildActiveMore (child group : string) (nodes : list string)
| MChildStopped (child group : string)
| MChildWrongNode (child group node : string) (expected : option string)
| MChildActiveOn (child group node : string)
(* CIBAudit *)
| MAuditingCib (partition : string)
| MNoConfigurationFrom (node : string)
| MDiffFailed (node0_xml node_xml : string) (rc : Z)
| MCibDiff (node0 node line : string)
| MCibDiffIgnoring (node0 node line : string)
| MCouldNotRetrieve
| MCouldNotStore
| MNoPartitionsToAudit
(* PartitionAudit *)
| MAuditingPartition (partition : string)
| MAppeared (node : string)
| MNodeValues (node state epoch quorum : string)
| MDisappeared (node : string)
| MLowestEpochNotDetermined (partition : string)
| MDcOk (node : string)
| MIgnoredNoNodeEpoch (node : string)
| MIgnoredNoLowestEpoch (node : string)
| MDcNotOldest (node : string) (epoch : option Z) (lowest_epoch : option Z)
| MDcNotFound (allowed : list string) (node_list : list string)
| MManyDcs (dc_found : list string) (node_list : list string)
| MEpochState (epoch : option Z) (state : option string)
| MPartitionsDetected (n : nat)
| MPartitionLine (partition : string).

(** What an audit does to the world, in the order it does it. *)
Inductive event :=
| ELog (m : msg)                                        (* cm.log(f"...") *)
| EDebug (m : msg)                                      (* cm.debug(f"...") *)
| ERsh (node cmd : string)                              (* cm.rsh(node, cmd) *)
| ECopy (source target : string)                        (* cm.rsh.copy(source, target) *)
| EWaitForAllNodes (nodes : list string)                (* cm.ns.wait_for_all_nodes *)
| ESetWatch (kind : LogKind) (patterns : list string)   (* LogWatcher(...).set_watch() *)
| ELookForAll (kind : LogKind) (patterns : list string) (* watch.look_for_all() *)
| EClusterStable                                        (* cm.cluster_stable(double_check=True) *).

(** ** The cluster manager *)

(** The parts of the ClusterManager, of its environment and of the modules
    the audits import that the audits read.  They are defined outside this
    file and are parameters of the audits. *)
Record ClusterManager := {
  env_nodes : list string;                (* env["nodes"] *)
  env_have_systemd : bool;                (* env["have_systemd"] *)
  env_LogAuditDisabled : bool;            (* env["LogAuditDisabled"] *)
  env_warn_inactive : bool;               (* env["warn-inactive"] *)
  env_SyslogFacility : string;            (* env["SyslogFacility"] *)
  LOG_DIR : string;                       (* BuildOptions.LOG_DIR *)
  StatusCmd : string → string;            (* cm["StatusCmd"] % node *)
  EpochCmd : string;                      (* cm["EpochCmd"] *)
  QuorumCmd : string;                     (* cm["QuorumCmd"] *)
  CibQuery : string;                      (* cm["CibQuery"] *)
  rsh_run : string → string → Z * list string;  (* exit status and output lines of a command on a node *)
  rsh_copy : string → string → Z;         (* exit status of cm.rsh.copy *)
  is_node_dc : string → option string → bool;   (* cm.is_node_dc(node, status_line) *)
  resource_location : string → list string;     (* cm.resource_location(rid) *)
  has_quorum : bool;                      (* truth of cm.has_quorum(None) *)
  should_continue : bool;                 (* should_continue(env) *)
  uuid4 : nat → string;                   (* str(uuid.uuid4()), for the n-th call *)
  unmatched : LogKind → list string → list string;  (* watch.unmatched after look_for_all *)
  find_partitions : list string;          (* cm.find_partitions() *)
  partitions_expected : Z                 (* cm.partitions_expected *)
}.

(** What the audits change: the expected status of the nodes
    ([cm.expected_status]), the preferred log kind ([env["log_kind"]]), the
    number of tokens drawn so far, and the effects so far. *)
Record cm_state := {
  expected_status : gmap string string;
  log_kind : option LogKind;
  uuid_count : nat;
  trace : list event
}.

(** ** The monad of the audits: state, and exceptions that keep the state *)

Definition M (A : Type) : Type := cm_state → result A * cm_state.

Definition ret {A} (a : A) : M A := λ st, (Ok a, st).

Definition bind {A B} (c : M A) (k : A → M B) : M B :=
  λ st, match c st with
        | (Ok a, st') => k a st'
        | (Raise e, st') => (Raise e, st')
        end.

Definition raise {A} (e : exn) : M A := λ st, (Raise e, st).

Declare Scope audit_scope.
Notation "'let*' x ':=' c 'in' k" := (bind c (λ x, k))
  (at level 10, x pattern, c at level 200, k at level 200) : audit_scope.
Notation "c ';;' k" := (bind c (λ _, k))
  (at level 100, k at level 200, right associativity) : audit_scope.
Local Open Scope audit_scope.

Definition emit (e : event) : M unit :=
  λ st, (Ok tt, {| expected_status := expected_status st; log_kind := log_kind st;
                   uuid_count := uuid_count st; trace := trace st ++ [e] |}).

Definition log (m : msg) : M unit := emit (ELog m).
Definition debug (m : msg) : M unit := emit (EDebug m).

(** [cm.rsh(node, cmd)] *)
Definition rsh (cm : ClusterManager) (node cmd : string) : M (Z * list string) :=
  emit (ERsh node cmd) ;; ret (rsh_run cm node cmd).

(** [cm.rsh.copy(source, target)] *)
Definition copy (cm : ClusterManager) (source target : string) : M Z :=
  emit (ECopy source target) ;; ret (rsh_copy cm source target).

(** [cm.expected_status[node]] *)
Definition get_expected_status (node : string) : M string :=
  λ st, match expected_status st !! node with
        | Some s => (Ok s, st)
        | None => (Raise (KeyError node), st)
        end.

(** [cm.expected_status.get(node)] *)
Definition lookup_expected_status (node : string) : M (option string) :=
  λ st, (Ok (expected_status st !! node), st).

(** [cm.expected_status[node] = s] *)
Definition set_expected_status (node s : string) : M unit :=
  λ st, (Ok tt, {| expected_status := <[node := s]> (expected_status st);
                   log_kind := log_kind st; uuid_count := uuid_count st;
                   trace := trace st |}).

(** [env["log_kind"]] and [env["log_kind"] = k] *)
Definition get_log_kind : M (option LogKind) := λ st, (Ok (log_kind st), st).

Definition set_log_kind (k : LogKind) : M unit :=
  λ st, (Ok tt, {| expected_status := expected_status st; log_kind := Some k;
                   uuid_count := uuid_count st; trace := trace st |}).

(** [str(uuid.uuid4())] *)
Definition fresh_uuid (cm : ClusterManager) : M string :=
  λ st, (Ok (uuid4 cm (uuid_count st)),
         {| expected_status := expected_status st; log_kind := log_kind st;
            uuid_count := S (uuid_count st); trace := trace st |}).

(** [l[0]] *)
Definition first {A} (l : list A) : M A :=
  match l with
  | a :: _ => ret a
  | [] => raise IndexError
  end.

(** [d[k]] on a dictionary of the audit itself. *)
Definition dict_get {V} (d : gmap string V) (k : string) : M V :=
  match d !! k with
  | Some v => ret v
  | None => raise (KeyError k)
  end.

(** [for x in l: s = body(x, s)], with the variables the loop changes in [s]. *)
Fixpoint for_each {A S} (l : list A) (body : A → S → M S) (s : S) : M S :=
  match l with
  | [] => ret s
  | x :: l' => let* s' := body x s in for_each l' body s'
  end.

Definition when (b : bool) (c : M unit) : M unit := if b then c else ret tt.

(** [c], run from [st], returns a value and a state that satisfy [Q], or
    raises an exception in a state that satisfy [E]. *)
Definition ensures {A} (c : M A) (st : cm_state)
    (Q : A → cm_state → Prop) (E : exn → cm_state → Prop) : Prop :=
  match c st with
  | (Ok a, st') => Q a st'
  | (Raise e, st') => E e st'
  end.

(** [c], run from [st], raises no exception, and returns a value and a
    state that satisfy [Q]. *)
Definition returns {A} (c : M A) (st : cm_state) (Q : A → cm_state → Prop) : Prop :=
  ensures c st Q (λ _ _, False).

(** The trace of [st'] is the trace of [st] and more effects. *)
Definition extends (st st' : cm_state) : Prop :=
  ∃ evs, trace st' = trace st ++ evs.

(** The trace of [st'] is the trace of [st] and more effects, which all
    satisfy [P]. *)
Definition emits (P : event → Prop) (st st' : cm_state) : Prop :=
  ∃ evs, trace st' = trace st ++ evs ∧ Forall P evs.

(** ** ClusterAudit: what [audit_list] needs of an audit instance *)

Record ClusterAudit := {
  name : string;
  is_applicable : bool
}.

(** ** LogAudit *)

Module LogAudit.

Definition new (cm : ClusterManager) : ClusterAudit :=
  {| name := "LogAudit";
     is_applicable := if env_LogAuditDisabled cm then false else true |}.

(** A LogWatcher: its kind and the patterns it looks for. *)
Record LogWatcher := {
  kind : LogKind;
  regexes : list string
}.

Definition _create_watcher (cm : ClusterManager) (patterns : list string)
    (kind : LogKind) : M LogWatcher :=
  emit (ESetWatch kind patterns) ;;
  ret {| kind := kind; regexes := patterns |}.

(** [w.look_for_all(silent=True)], giving [w.unmatched]. *)
Definition look_for_all (cm : ClusterManager) (w : LogWatcher) : M (list string) :=
  emit (ELookForAll (kind w) (regexes w)) ;;
  ret (unmatched cm (kind w) (regexes w)).

(** Group 1 of [re.search("^([^.]+).*", node)]: the characters before the
    first dot. *)
Fixpoint until_dot (s : string) : string :=
  match s with
  | EmptyString => EmptyString
  | String c s' => if Ascii.eqb c "."%char then EmptyString else String c (until_dot s')
  end.

(** The regular expression matches when there is a character before the
    first dot. *)
Definition simple_name (node : string) : string :=
  match until_dot node with
  | EmptyString => node
  | simple => simple
  end.

Definition prefix : string := "Test message from".

Definition pattern_for (suffix node : string) : string :=
  simple_name node +:+ ".*" +:+ prefix +:+ " " +:+ node +:+ " " +:+ suffix.

Definition logger_cmd (cm : ClusterManager) (suffix node : string) : string :=
  "logger -p " +:+ env_SyslogFacility cm +:+ ".info " +:+ prefix +:+ " "
    +:+ node +:+ " " +:+ suffix.

(** [watch[k] = w] on a dictionary that keeps the order of insertion. *)
Fixpoint dict_set (watch : list (LogKind * LogWatcher)) (k : LogKind)
    (w : LogWatcher) : list (LogKind * LogWatcher) :=
  match watch with
  | [] => [(k, w)]
  | (k', w') :: watch' =>
      if decide (k = k') then (k, w) :: watch' else (k', w') :: dict_set watch' k w
  end.

(** The candidate kinds when no kind is preferred. *)
Definition kinds (cm : ClusterManager) : list LogKind :=
  [LOCAL_FILE] ++ (if env_have_systemd cm then [JOURNAL] else []) ++ [REMOTE_FILE].

(** The first loop: one pattern for each node. *)
Definition patterns_for (cm : ClusterManager) (suffix : string) : list string :=
  fold_left (λ patterns node, patterns ++ [pattern_for suffix node]) (env_nodes cm) [].

(** The loop that logs the test message from each node. *)
Definition send (cm : ClusterManager) (suffix node : string) (_ : unit) : M unit :=
  let cmd := logger_cmd cm suffix node in
  let* (rc, _) := rsh cm node cmd in
  when (negb (rc =? 0)) (log (MCannotExecute cmd node)).

(** The last loop, over the entries of [watch] in the order of their
    keys; it returns from the function at the first watch with nothing
    unmatched. *)
Fixpoint look (cm : ClusterManager) (watch_pref : option LogKind)
    (watch : list (LogKind * LogWatcher)) : M Py.value :=
  match watch with
  | [] => ret (Py.VBool false)
  | (k, w) :: watch' =>
      when (bool_decide (watch_pref = None)) (log (MCheckingFor k)) ;;
      let* unmatched := look_for_all cm w in
      if Py.truthy_list unmatched then
        for_each unmatched (λ regex _, log (MTestMessageNotFound regex (kind w))) tt ;;
        look cm watch_pref watch'
      else
        when (bool_decide (watch_pref = None))
          (log (MFoundTestMessage k) ;; set_log_kind k) ;;
        ret (Py.VInt 1)
  end.

Definition _test_logging (cm : ClusterManager) : M Py.value :=
  let* suffix := fresh_uuid cm in
  let patterns := patterns_for cm suffix in
  let* watch_pref := get_log_kind in
  let* watch :=
    match watch_pref with
    | None =>
        let* watch :=
          for_each (kinds cm)
            (λ k watch, let* w := _create_watcher cm patterns k in
                        ret (dict_set watch k w)) [] in
        log (MLoggingTestMessage suffix) ;;
        ret watch
    | Some pref =>
        let* w := _create_watcher cm patterns pref in
        ret (dict_set [] pref w)
    end in
  for_each (env_nodes cm) (send cm suffix) tt ;;
  look cm watch_pref watch.

End LogAudit.

(** ** DiskAudit *)

Module DiskAudit.

Definition new (cm : ClusterManager) : ClusterAudit :=
  {| name := "DiskspaceAudit"; is_applicable := true |}.

Definition dfcmd (cm : ClusterManager) : string :=
  "df -BM " +:+ LOG_DIR cm +:+ " | tail -1 | awk '{print $(NF-1)" +:+ Py.dquote
    +:+ " " +:+ Py.dquote +:+ "$(NF-2)}' | tr -d 'M%'".

(** The variables that live across the iterations of the loop: [result],
    and [used] and [remain], which are unbound until a probe has split
    into two fields. *)
Record locals := {
  result : bool;
  used : option string;
  remain : option string
}.

(** The handler of [except (ValueError, TypeError)]: its message reads
    [used] and [remain]. *)
Definition invalid (dfout node : string) (s : locals) : M locals :=
  match used s, remain s with
  | Some u, Some r => log (MDfInvalid dfout node u r) ;; ret s
  | None, _ => raise (UnboundLocalError "used")
  | Some _, None => raise (UnboundLocalError "remain")
  end.

(** The [else] of the [try]. *)
Definition classify (cm : ClusterManager) (node : string)
    (used_percent remaining_mb : Z) (s : locals) : M locals :=
  if (remaining_mb <? 10) || (95 <? used_percent) then
    log (MCritDisk node used_percent remaining_mb) ;;
    let s := {| result := false; used := used s; remain := remain s |} in
    if negb (should_continue cm) then raise (ValueError (DiskFull node))
    else ret s
  else if (remaining_mb <? 100) || (90 <? used_percent) then
    log (MWarnDisk remaining_mb node) ;; ret s
  else ret s.

Definition probe (cm : ClusterManager) (node : string) (s : locals) : M locals :=
  let* (_, dfout) := rsh cm node (dfcmd cm) in
  if negb (Py.truthy_list dfout) then
    log (MCannotDf (dfcmd cm) node) ;; ret s
  else
    let* line := first dfout in
    let dfout := Py.strip line in
    match Py.split dfout with
    | [u; r] =>
        let s := {| result := result s; used := Some u; remain := Some r |} in
        match Py.int u with
        | Some used_percent =>
            match Py.int r with
            | Some remaining_mb => classify cm node used_percent remaining_mb s
            | None => invalid dfout node s
            end
        | None => invalid dfout node s
        end
    | _ => invalid dfout node s
    end.

Definition __call__ (cm : ClusterManager) : M bool :=
  emit (EWaitForAllNodes (env_nodes cm)) ;;
  let* s := for_each (env_nodes cm) (probe cm)
              {| result := true; used := None; remain := None |} in
  ret (result s).

End DiskAudit.

(** ** FileAudit *)

Module FileAudit.

Definition new (cm : ClusterManager) : ClusterAudit :=
  {| name := "FileAudit"; is_applicable := true |}.

(** [self.known] is an argument and a result of the methods. *)
Definition _find_core_on_fs (cm : ClusterManager) (known : list string)
    (node path tool : string) : M (bool * list string) :=
  let* (_, lsout) := rsh cm node ("ls -al " +:+ path +:+ " | grep core.[0-9]") in
  for_each lsout
    (λ line '(found, known),
       let line := Py.strip line in
       if bool_decide (line ∈ known) then ret (found, known)
       else log (MCoreFile tool node line) ;; ret (true, known ++ [line]))
    (false, known).

(** The loop over the stale IPC files; it changes [result] and [clean]. *)
Definition stale (node line : string) (s : bool * bool) : M (bool * bool) :=
  log (MStaleIPC node line) ;; ret (false, true).

(** The part of the loop body for the stale IPC files of a node expected
    down; it changes [result]. *)
Definition stale_ipc (cm : ClusterManager) (node : string) (result : bool) : M bool :=
  let* status := lookup_expected_status node in
  if bool_decide (status = Some "down") then
    let* (_, lsout) := rsh cm node "ls -al /dev/shm | grep qb-" in
    let* (result, clean) := for_each lsout (stale node) (result, false) in
    (if clean then
       let* (_, lsout) := rsh cm node "ps axf | grep -e pacemaker -e corosync" in
       for_each lsout (λ line _, debug (MPs node line)) tt ;;
       rsh cm node "rm -rf /dev/shm/qb-*" ;; ret tt
     else ret tt) ;;
    ret result
  else
    debug (MSkipping node) ;; ret result.

Definition audit_node (cm : ClusterManager) (node : string)
    (s : bool * list string) : M (bool * list string) :=
  let '(result, known) := s in
  let* (found, known) :=
    _find_core_on_fs cm known node "/var/lib/pacemaker/cores/*" "Pacemaker" in
  let result := if found then false else result in
  let* (found, known) :=
    _find_core_on_fs cm known node "/var/lib/corosync" "Corosync" in
  let result := if found then false else result in
  let* result := stale_ipc cm node result in
  ret (result, known).

Definition __call__ (cm : ClusterManager) (known : list string) : M (bool * list string) :=
  emit (EWaitForAllNodes (env_nodes cm)) ;;
  for_each (env_nodes cm) (audit_node cm) (true, known).

End FileAudit.

(** ** AuditResource and AuditConstraint *)

(** [fields[i]] *)
Definition field (fields : list string) (i : nat) : M string :=
  match fields !! i with
  | Some f => ret f
  | None => raise IndexError
  end.

(** [int(s)] *)
Definition to_int (s : string) : M Z :=
  match Py.int s with
  | Some z => ret z
  | None => raise (ValueError (InvalidLiteral s))
  end.

(** ["NA"] stands for an absent value. *)
Definition not_NA (s : string) : option string :=
  if String.eqb s "NA" then None else Some s.

Module AuditResource.

Record t := {
  line : string;
  type : string;
  id : string;
  clone_id : string;
  parent : option string;
  rprovider : string;
  rclass : string;
  rtype : string;
  host : string;
  needs_quorum : string;
  flags : Z;
  flags_s : string
}.

Definition __init__ (line : string) : M t :=
  let fields := Py.split line in
  let* type := field fields 1 in
  let* id := field fields 2 in
  let* clone_id := field fields 3 in
  let* parent := field fields 4 in
  let* rprovider := field fields 5 in
  let* rclass := field fields 6 in
  let* rtype := field fields 7 in
  let* host := field fields 8 in
  let* needs_quorum := field fields 9 in
  let* flags := field fields 10 in
  let* flags := to_int flags in
  let* flags_s := field fields 11 in
  ret {| line := line; type := type; id := id; clone_id := clone_id;
         parent := not_NA parent; rprovider := rprovider; rclass := rclass;
         rtype := rtype; host := host; needs_quorum := needs_quorum;
         flags := flags; flags_s := flags_s |}.

Definition unique (r : t) : Z := Z.land (flags r) 0x20.
Definition orphan (r : t) : Z := Z.land (flags r) 0x01.
Definition managed (r : t) : Z := Z.land (flags r) 0x02.

End AuditResource.

Module AuditConstraint.

Record t := {
  line : string;
  type : string;
  id : string;
  rsc : string;
  target : string;
  score : string;
  rsc_role : option string;
  target_role : option string
}.

Definition __init__ (line : string) : M t :=
  let fields := Py.split line in
  let* type := field fields 1 in
  let* id := field fields 2 in
  let* rsc := field fields 3 in
  let* target := field fields 4 in
  let* score := field fields 5 in
  let* rsc_role := field fields 6 in
  let* target_role := field fields 7 in
  ret {| line := line; type := type; id := id; rsc := rsc; target := target;
         score := score; rsc_role := not_NA rsc_role;
         target_role := not_NA target_role |}.

End AuditConstraint.

(** ** PrimitiveAudit *)

Module PrimitiveAudit.

Definition new (cm : ClusterManager) : ClusterAudit :=
  {| name := "PrimitiveAudit"; is_applicable := false |}.

(** The attributes of the instance that [_setup] fills. *)
Record attrs := {
  _active_nodes : list string;
  _constraints : list AuditConstraint.t;
  _inactive_nodes : list string;
  _resources : list AuditResource.t;
  _target : option string
}.

Definition init : attrs :=
  {| _active_nodes := []; _constraints := []; _inactive_nodes := [];
     _resources := []; _target := None |}.

Definition _audit_resource (cm : ClusterManager) (self : attrs)
    (resource : AuditResource.t) (quorum : bool) : M bool :=
  let rid := AuditResource.id resource in
  let needs_quorum := AuditResource.needs_quorum resource in
  let rc := true in
  let active := resource_location cm rid in
  if (length active =? 1)%nat then
    if quorum then
      debug (MResourceActive rid active) ;; ret rc
    else if Py.eq (Py.VStr needs_quorum) (Py.VInt 1) then
      log (MActiveWithoutQuorum rid active) ;; ret false
    else ret rc
  else if negb (Py.truthy_int (AuditResource.managed resource)) then
    log (MNotManaged rid active) ;; ret rc
  else if negb (Py.truthy_int (AuditResource.unique resource)) then
    if (1 <? length active)%nat then
      debug (MNonUniqueActive rid active) ;; ret rc
    else
      debug (MNonUniqueInactive rid) ;; ret rc
  else if (1 <? length active)%nat then
    log (MActiveMultiple rid active) ;; ret false
  else if Py.truthy_int (AuditResource.orphan resource) then
    debug (MInactiveOrphan rid) ;; ret rc
  else if negb (Py.truthy_list (_inactive_nodes self)) then
    log (MNotServedAnywhere rid) ;; ret false
  else if env_warn_inactive cm then
    if quorum || negb (Py.truthy_str needs_quorum) then
      log (MNotServed rid (_inactive_nodes self)) ;; ret rc
    else
      debug (MNotServed rid (_inactive_nodes self)) ;; ret rc
  else if quorum || negb (Py.truthy_str needs_quorum) then
    debug (MNotServed rid (_inactive_nodes self)) ;; ret rc
  else ret rc.

(** The three loops of [_setup]. *)
Definition sort_node (node : string) (self : attrs) : M attrs :=
  let* status := get_expected_status node in
  if String.eqb status "up" then
    ret {| _active_nodes := _active_nodes self ++ [node];
           _constraints := _constraints self;
           _inactive_nodes := _inactive_nodes self;
           _resources := _resources self; _target := _target self |}
  else
    ret {| _active_nodes := _active_nodes self;
           _constraints := _constraints self;
           _inactive_nodes := _inactive_nodes self ++ [node];
           _resources := _resources self; _target := _target self |}.

Definition pick_target (node : string) (self : attrs) : M attrs :=
  match _target self with
  | None =>
      let* status := get_expected_status node in
      if String.eqb status "up" then
        ret {| _active_nodes := _active_nodes self;
               _constraints := _constraints self;
               _inactive_nodes := _inactive_nodes self;
               _resources := _resources self; _target := Some node |}
      else ret self
  | Some _ => ret self
  end.

Definition read_line (line : string) (self : attrs) : M attrs :=
  if Py.starts_with "Resource" line then
    let* r := AuditResource.__init__ line in
    ret {| _active_nodes := _active_nodes self;
           _constraints := _constraints self;
           _inactive_nodes := _inactive_nodes self;
           _resources := _resources self ++ [r]; _target := _target self |}
  else if Py.starts_with "Constraint" line then
    let* c := AuditConstraint.__init__ line in
    ret {| _active_nodes := _active_nodes self;
           _constraints := _constraints self ++ [c];
           _inactive_nodes := _inactive_nodes self;
           _resources := _resources self; _target := _target self |}
  else
    log (MUnknownEntry line) ;; ret self.

(** [_setup] gives the attributes of the instance when it returns.  When it
    raises, the instance keeps what was appended to it before: see
    [InPlace._setup]. *)
Definition _setup (cm : ClusterManager) (name : string) (self : attrs) : M (bool * attrs) :=
  let* self := for_each (env_nodes cm) sort_node self in
  let* self := for_each (env_nodes cm) pick_target self in
  match _target self with
  | Some target =>
      if Py.truthy_str target then
        let* (_, lines) := rsh cm target "crm_resource --list-cts" in
        let* self := for_each lines read_line self in
        ret (true, self)
      else
        debug (MNoNodesActive name) ;; ret (false, self)
  | None =>
      debug (MNoNodesActive name) ;; ret (false, self)
  end.

Definition __call__ (cm : ClusterManager) (self : attrs) : M (bool * attrs) :=
  let result := true in
  let* (ok, self) := _setup cm "PrimitiveAudit" self in
  if negb ok then ret (result, self)
  else
    let quorum := has_quorum cm in
    let* result :=
      for_each (_resources self)
        (λ resource result,
           if String.eqb (AuditResource.type resource) "primitive" then
             let* rc := _audit_resource cm self resource quorum in
             ret (if negb rc then false else result)
           else ret result)
        result in
    ret (result, self).

End PrimitiveAudit.

(** ** GroupAudit *)

Module GroupAudit.

(** [is_applicable] is the one of PrimitiveAudit. *)
Definition new (cm : ClusterManager) : ClusterAudit :=
  {| name := "GroupAudit";
     is_applicable := is_applicable (PrimitiveAudit.new cm) |}.

(** The variables the loop over the children changes. *)
Record locals := {
  result : bool;
  first_match : bool;
  group_location : option string
}.

(** The body of the loop over the children of [group], for a resource
    [child] whose parent is the group. *)
Definition audit_child (cm : ClusterManager) (group child : AuditResource.t)
    (s : locals) : M locals :=
  let gid := AuditResource.id group in
  let cid := AuditResource.id child in
  let nodes := resource_location cm cid in
  let group_location :=
    if first_match s && (0 <? length nodes)%nat then head nodes
    else group_location s in
  let first_match := false in
  if (1 <? length nodes)%nat then
    log (MChildActiveMore cid gid nodes) ;;
    ret {| result := false; first_match := first_match;
           group_location := group_location |}
  else if negb (Py.truthy_list nodes) then
    debug (MChildStopped cid gid) ;;
    ret {| result := result s; first_match := first_match;
           group_location := None |}
  else
    let* node := first nodes in
    if negb (bool_decide (Some node = group_location)) then
      log (MChildWrongNode cid gid node group_location) ;;
      ret {| result := false; first_match := first_match;
             group_location := group_location |}
    else
      debug (MChildActiveOn cid gid node) ;;
      ret {| result := result s; first_match := first_match;
             group_location := group_location |}.

Definition walk_child (cm : ClusterManager) (group child : AuditResource.t)
    (s : locals) : M locals :=
  if negb (bool_decide (AuditResource.parent child = Some (AuditResource.id group)))
  then ret s
  else audit_child cm group child s.

Definition audit_group (cm : ClusterManager) (resources : list AuditResource.t)
    (group : AuditResource.t) (result : bool) : M bool :=
  if negb (String.eqb (AuditResource.type group) "group") then ret result
  else
    let* s := for_each resources (walk_child cm group)
                {| result := result; first_match := true;
                   group_location := None |} in
    ret (GroupAudit.result s).

Definition __call__ (cm : ClusterManager) (self : PrimitiveAudit.attrs)
    : M (bool * PrimitiveAudit.attrs) :=
  let result := true in
  let* (ok, self) := PrimitiveAudit._setup cm "GroupAudit" self in
  if negb ok then ret (result, self)
  else
    let resources := PrimitiveAudit._resources self in
    let* result := for_each resources (audit_group cm resources) result in
    ret (result, self).

End GroupAudit.

(** ** CloneAudit, ColocationAudit and ControllerStateAudit *)

Module CloneAudit.

Definition new (cm : ClusterManager) : ClusterAudit :=
  {| name := "CloneAudit";
     is_applicable := is_applicable (PrimitiveAudit.new cm) |}.

End CloneAudit.

Module ColocationAudit.

Definition new (cm : ClusterManager) : ClusterAudit :=
  {| name := "ColocationAudit";
     is_applicable := is_applicable (PrimitiveAudit.new cm) |}.

End ColocationAudit.

Module ControllerStateAudit.

Definition new (cm : ClusterManager) : ClusterAudit :=
  {| name := "ControllerStateAudit"; is_applicable := false |}.

End ControllerStateAudit.

(** ** CIBAudit *)

Module CIBAudit.

Definition new (cm : ClusterManager) : ClusterAudit :=
  {| name := "CibAudit"; is_applicable := false |}.

Definition filename_of (node : string) : string :=
  "/tmp/ctsaudit." +:+ node +:+ ".xml".

(** [not target]: no target, or the empty string. *)
Definition target_or (target : option string) (node : string) : string :=
  match target with
  | Some t => if Py.truthy_str t then t else node
  | None => node
  end.

Definition _store_remote_cib (cm : ClusterManager) (node : string)
    (target : option string) : M (option string) :=
  let filename := filename_of node in
  let target := target_or target node in
  let* (rc, lines) := rsh cm node (CibQuery cm) in
  if negb (rc =? 0) then
    log MCouldNotRetrieve ;; ret None
  else
    rsh cm "localhost" ("rm -f " +:+ filename) ;;
    for_each lines
      (λ line _,
         rsh cm "localhost" ("echo '" +:+ Py.drop_last line +:+ "' >> " +:+ filename) ;;
         ret tt) tt ;;
    let* rc := copy cm filename ("root@" +:+ target +:+ ":" +:+ filename) in
    if negb (rc =? 0) then
      log MCouldNotStore ;; ret None
    else ret (Some filename).

(** The variables the loop over the hosts changes. *)
Record locals := {
  passed : bool;
  node0 : option string;
  node0_xml : option string
}.

(** The loop over the lines of the output of crm_diff. *)
Definition diff_line (node0 node line : string) (passed : bool) : M bool :=
  if negb (Py.contains "<diff/>" line) then
    debug (MCibDiff node0 node line) ;; ret false
  else
    debug (MCibDiffIgnoring node0 node line) ;; ret passed.

Definition audit_host (cm : ClusterManager) (node : string) (s : locals) : M locals :=
  let* node_xml := _store_remote_cib cm node (node0 s) in
  match node_xml, node0 s, node0_xml s with
  | None, _, _ =>
      log (MNoConfigurationFrom node) ;;
      ret {| passed := false; node0 := node0 s; node0_xml := node0_xml s |}
  | Some node_xml, None, _ =>
      ret {| passed := passed s; node0 := Some node; node0_xml := Some node_xml |}
  | Some _, Some n0, None =>
      log (MNoConfigurationFrom n0) ;;
      ret {| passed := false; node0 := node0 s; node0_xml := node0_xml s |}
  | Some node_xml, Some n0, Some n0_xml =>
      let* (rc, result) :=
        rsh cm n0 ("crm_diff -VV -cf --new " +:+ node_xml +:+ " --original " +:+ n0_xml) in
      let* passed :=
        if negb (rc =? 0) then
          log (MDiffFailed n0_xml node_xml rc) ;; ret false
        else ret (passed s) in
      let* passed := for_each result (diff_line n0 node) passed in
      ret {| passed := passed; node0 := node0 s; node0_xml := node0_xml s |}
  end.

Definition _audit_cib_contents (cm : ClusterManager) (hostlist : string) : M bool :=
  let partition_hosts := Py.split hostlist in
  let* s := for_each partition_hosts (audit_host cm)
              {| passed := true; node0 := None; node0_xml := None |} in
  ret (passed s).

Definition __call__ (cm : ClusterManager) : M bool :=
  let result := true in
  let ccm_partitions := find_partitions cm in
  if negb (Py.truthy_list ccm_partitions) then
    debug MNoPartitionsToAudit ;; ret result
  else
    for_each ccm_partitions
      (λ partition result,
         debug (MAuditingCib partition) ;;
         let* passed := _audit_cib_contents cm partition in
         ret (if Py.eq (Py.VBool passed) (Py.VInt 0) then false else result))
      result.

End CIBAudit.

(** ** PartitionAudit *)

Module PartitionAudit.

Definition new (cm : ClusterManager) : ClusterAudit :=
  {| name := "PartitionAudit"; is_applicable := false |}.

(** The dictionaries of the instance: [self._node_epoch],
    [self._node_state], [self._node_quorum].  An entry holds [None] or the
    value. *)
Record dicts := {
  _node_epoch : gmap string (option Z);
  _node_state : gmap string (option string);
  _node_quorum : gmap string (option string)
}.

(** The dictionaries of a new instance. *)
Definition init : dicts :=
  {| _node_epoch := ∅; _node_state := ∅; _node_quorum := ∅ |}.

Definition _trim_string (avalue : string) : option string :=
  if negb (Py.truthy_str avalue) then None
  else if (1 <? String.length avalue)%nat then Some (Py.drop_last avalue)
  else Some avalue.

Definition _trim2int (avalue : string) : M (option Z) :=
  match _trim_string avalue with
  | Some trimmed =>
      if Py.truthy_str trimmed then
        let* z := to_int trimmed in ret (Some z)
      else ret None
  | None => ret None
  end.

(** [not epoch] for an epoch that is [None] or an integer. *)
Definition no_epoch (epoch : option Z) : bool :=
  negb (Py.truthy_opt Py.truthy_int epoch).

(** [lowest_epoch is None or epoch < lowest_epoch], evaluated where
    [not epoch] has failed, so that [epoch] is an integer. *)
Definition lower (epoch lowest_epoch : option Z) : bool :=
  match lowest_epoch, epoch with
  | None, _ => true
  | Some l, Some e => e <? l
  | Some _, None => false
  end.

(** The body of the first loop of [_audit_partition]; the loop changes
    the dictionaries and [lowest_epoch]. *)
Definition collect (cm : ClusterManager) (node : string)
    (s : dicts * option Z) : M (dicts * option Z) :=
  let '(self, lowest_epoch) := s in
  let* status := get_expected_status node in
  when (negb (String.eqb status "up"))
    (log (MAppeared node) ;; set_expected_status node "up") ;;
  let* (_, out) := rsh cm node (StatusCmd cm node) in
  let* line := first out in
  let state := Py.strip line in
  let* (_, out) := rsh cm node (EpochCmd cm) in
  let* line := first out in
  let epoch := Py.strip line in
  let* (_, out) := rsh cm node (QuorumCmd cm) in
  let* line := first out in
  let quorum := Py.strip line in
  debug (MNodeValues node state epoch quorum) ;;
  let state := _trim_string state in
  let* epoch := _trim2int epoch in
  let quorum := _trim_string quorum in
  let self := {| _node_epoch := <[node := epoch]> (_node_epoch self);
                 _node_state := <[node := state]> (_node_state self);
                 _node_quorum := <[node := quorum]> (_node_quorum self) |} in
  if no_epoch epoch then
    log (MDisappeared node) ;; set_expected_status node "down" ;;
    ret (self, lowest_epoch)
  else if lower epoch lowest_epoch then ret (self, epoch)
  else ret (self, lowest_epoch).

(** The body of the second loop; the loop changes [passed] and
    [dc_found]. *)
Definition check_dc (cm : ClusterManager) (self : dicts)
    (lowest_epoch : option Z) (node : string)
    (s : bool * list string) : M (bool * list string) :=
  let '(passed, dc_found) := s in
  let* status := get_expected_status node in
  if negb (String.eqb status "up") then ret s
  else
    let* state := dict_get (_node_state self) node in
    if is_node_dc cm node state then
      let dc_found := dc_found ++ [node] in
      let* epoch := dict_get (_node_epoch self) node in
      if bool_decide (epoch = lowest_epoch) then
        debug (MDcOk node) ;; ret (passed, dc_found)
      else if no_epoch epoch then
        debug (MIgnoredNoNodeEpoch node) ;; ret (passed, dc_found)
      else if no_epoch lowest_epoch then
        debug (MIgnoredNoLowestEpoch node) ;; ret (passed, dc_found)
      else
        log (MDcNotOldest node epoch lowest_epoch) ;; ret (false, dc_found)
    else ret s.

(** The body of the last loop, which dumps the nodes that are up. *)
Definition dump (self : dicts) (node : string) (_ : unit) : M unit :=
  let* status := get_expected_status node in
  if String.eqb status "up" then
    let* epoch := dict_get (_node_epoch self) node in
    let* state := dict_get (_node_state self) node in
    log (MEpochState epoch state)
  else ret tt.

(** [_audit_partition] from the end of the first loop on. *)
Definition verdict (cm : ClusterManager) (partition : string)
    (node_list : list string) (self : dicts) (lowest_epoch : option Z) : M bool :=
  let dc_allowed_list : list string := [] in
  let* passed :=
    if no_epoch lowest_epoch then
      log (MLowestEpochNotDetermined partition) ;; ret false
    else ret true in
  let* (passed, dc_found) :=
    for_each node_list (check_dc cm self lowest_epoch) (passed, []) in
  let* passed :=
    if negb (Py.truthy_list dc_found) then
      log (MDcNotFound dc_allowed_list node_list) ;; ret passed
    else if (1 <? length dc_found)%nat then
      log (MManyDcs dc_found node_list) ;; ret false
    else ret passed in
  (if negb passed then for_each node_list (dump self) tt else ret tt) ;;
  ret passed.

Definition _audit_partition (cm : ClusterManager) (self : dicts)
    (partition : string) : M (bool * dicts) :=
  let lowest_epoch : option Z := None in
  let node_list := Py.split partition in
  debug (MAuditingPartition partition) ;;
  let* (self, lowest_epoch) :=
    for_each node_list (collect cm) (self, lowest_epoch) in
  let* passed := verdict cm partition node_list self lowest_epoch in
  ret (passed, self).

Definition __call__ (cm : ClusterManager) (self : dicts) : M (bool * dicts) :=
  let result := true in
  let ccm_partitions := find_partitions cm in
  if negb (Py.truthy_list ccm_partitions) then ret (result, self)
  else
    emit EClusterStable ;;
    let* result :=
      if negb (Z.of_nat (length ccm_partitions) =? partitions_expected cm) then
        log (MPartitionsDetected (length ccm_partitions)) ;;
        for_each ccm_partitions (λ partition _, log (MPartitionLine partition)) tt ;;
        ret false
      else ret result in
    for_each ccm_partitions
      (λ partition '(result, self),
         let* (passed, self) := _audit_partition cm self partition in
         ret (if Py.eq (Py.VBool passed) (Py.VInt 0) then false else result, self))
      (result, self).

End PartitionAudit.

(** ** audit_list *)

Definition audit_classes : list (ClusterManager → ClusterAudit) :=
  [DiskAudit.new; FileAudit.new; LogAudit.new; ControllerStateAudit.new;
   PartitionAudit.new; PrimitiveAudit.new; GroupAudit.new; CloneAudit.new;
   ColocationAudit.new; CIBAudit.new].

Definition audit_list (cm : ClusterManager) : list ClusterAudit :=
  fold_left
    (λ result auditclass,
       let a := auditclass cm in
       if is_applicable a then result ++ [a] else result)
    audit_classes [].

(** ** What a partition audit observes, for the statements about it

    The audit strips the first line of an answer and then drops the last
    character of what is left ([_trim_string]), so what it reads is not
    what the node reports: the [observed_] values are the values as the
    audit reads them, and [reported_epoch] is the epoch the node printed. *)

Module PartitionView.
Import PartitionAudit.

(** The first line of the output of a command on a node, stripped. *)
Definition answer (cm : ClusterManager) (node cmd : string) : option string :=
  Py.strip <$> head (rsh_run cm node cmd).2.

Definition observed_state (cm : ClusterManager) (node : string) : option string :=
  answer cm node (StatusCmd cm node) ≫= _trim_string.

Definition observed_quorum (cm : ClusterManager) (node : string) : option string :=
  answer cm node (QuorumCmd cm) ≫= _trim_string.

Definition trimmed_epoch (cm : ClusterManager) (node : string) : option string :=
  answer cm node (EpochCmd cm) ≫= _trim_string.

(** The epoch of a node as the audit reads it: the stripped answer without
    its last character when it has two characters or more, as a number (an
    answer 57 is read as 5, and an answer 7 as 7); [None] when that is no
    number. *)
Definition observed_epoch (cm : ClusterManager) (node : string) : option Z :=
  trimmed_epoch cm node ≫= Py.int.

(** The epoch the node reports: the stripped answer itself, as a number. *)
Definition reported_epoch (cm : ClusterManager) (node : string) : option Z :=
  answer cm node (EpochCmd cm) ≫= Py.int.

(** The three queries give a line each, and the epoch is empty or a
    number. *)
Definition answers (cm : ClusterManager) (node : string) : bool :=
  bool_decide (is_Some (answer cm node (StatusCmd cm node)))
  && bool_decide (is_Some (answer cm node (EpochCmd cm)))
  && bool_decide (is_Some (answer cm node (QuorumCmd cm)))
  && match trimmed_epoch cm node with
     | Some t => bool_decide (is_Some (Py.int t))
     | None => true
     end.

(** The audit read an epoch for the node: a number other than 0. *)
Definition has_epoch (cm : ClusterManager) (node : string) : bool :=
  negb (no_epoch (observed_epoch cm node)).

(** The nodes of the partition that are expected up after the first
    loop, and the leaders among them. *)
Definition up_nodes (cm : ClusterManager) (node_list : list string) : list string :=
  List.filter (has_epoch cm) node_list.

Definition leaders (cm : ClusterManager) (node_list : list string) : list string :=
  List.filter (λ node, is_node_dc cm node (observed_state cm node))
    (up_nodes cm node_list).

(** [m] is the minimum of the epochs as the audit reads them, over the nodes
    for which it read one. *)
Definition minimum_epoch (cm : ClusterManager) (node_list : list string) (m : Z) : Prop :=
  (∃ node, In node (up_nodes cm node_list) ∧ observed_epoch cm node = Some m)
  ∧ ∀ node e, In node (up_nodes cm node_list) → observed_epoch cm node = Some e → m ≤ e.

(** The partition can be audited from [st]: every node has an expected
    status and answers. *)
Definition auditable (cm : ClusterManager) (st : cm_state) (node_list : list string) : Prop :=
  ∀ node, In node node_list →
    is_Some (expected_status st !! node) ∧ answers cm node = true.

(** What the first loop does to the dictionaries, to [lowest_epoch] and to
    the expected status of a node that answers. *)
Definition seen (cm : ClusterManager) (node : string) (self : dicts) : dicts :=
  {| _node_epoch := <[node := observed_epoch cm node]> (_node_epoch self);
     _node_state := <[node := observed_state cm node]> (_node_state self);
     _node_quorum := <[node := observed_quorum cm node]> (_node_quorum self) |}.

Definition lowest_with (cm : ClusterManager) (node : string)
    (lowest_epoch : option Z) : option Z :=
  let epoch := observed_epoch cm node in
  if no_epoch epoch then lowest_epoch
  else if lower epoch lowest_epoch then epoch else lowest_epoch.

Definition status_after (cm : ClusterManager) (node : string) : string :=
  if has_epoch cm node then "up" else "down".

(** The state the first loop leaves for the nodes of [l]. *)
Definition collected (cm : ClusterManager) (self : dicts) (st : cm_state)
    (l : list string) : Prop :=
  ∀ node, In node l →
    expected_status st !! node = Some (status_after cm node)
    ∧ _node_state self !! node = Some (observed_state cm node)
    ∧ _node_epoch self !! node = Some (observed_epoch cm node).

(** The epoch read for the node is the lowest one. *)
Definition holds_lowest (cm : ClusterManager) (lowest : option Z) (node : string) : bool :=
  bool_decide (observed_epoch cm node = lowest).

(** The verdict of a run of [_audit_partition], or its exception. *)
Definition verdict_of (r : result (bool * dicts) * cm_state) : result bool :=
  match r.1 with
  | Ok (passed, _) => Ok passed
  | Raise e => Raise e
  end.

End PartitionView.


(** ** What a log audit does, for the statements about it *)

Module LogView.
Import LogAudit.

(** The watches armed, the messages sent and the kinds checked by a
    sequence of events, in their order. *)
Definition watches (evs : list event) : list (LogKind * list string) :=
  omap (λ e, match e with ESetWatch k patterns => Some (k, patterns) | _ => None end) evs.

Definition sent (evs : list event) : list (string * string) :=
  omap (λ e, match e with ERsh node cmd => Some (node, cmd) | _ => None end) evs.

Definition checks (evs : list event) : list LogKind :=
  omap (λ e, match e with ELookForAll k _ => Some k | _ => None end) evs.

(** All patterns are matched in the logs of kind [k]. *)
Definition matched (cm : ClusterManager) (patterns : list string) (k : LogKind) : bool :=
  negb (Py.truthy_list (unmatched cm k patterns)).

(** The kinds watched: the preferred one, or all candidates. *)
Definition candidates (cm : ClusterManager) (watch_pref : option LogKind) : list LogKind :=
  match watch_pref with
  | Some pref => [pref]
  | None => kinds cm
  end.

(** The first kind, in the order of [ks], where all patterns are matched. *)
Definition winner (cm : ClusterManager) (patterns : list string)
    (ks : list LogKind) : option LogKind :=
  List.find (matched cm patterns) ks.

(** The kinds up to the winner, with it. *)
Fixpoint up_to_winner (cm : ClusterManager) (patterns : list string)
    (ks : list LogKind) : list LogKind :=
  match ks with
  | [] => []
  | k :: ks' => k :: (if matched cm patterns k then [] else up_to_winner cm patterns ks')
  end.

(** The watch of each kind. *)
Definition watch_of (patterns : list string) (ks : list LogKind)
    : list (LogKind * LogWatcher) :=
  map (λ k, (k, {| kind := k; regexes := patterns |})) ks.

(** The effects of the three parts of [_test_logging]. *)
Definition arm_events (watch_pref : option LogKind) (suffix : string)
    (patterns : list string) (ks : list LogKind) : list event :=
  map (λ k, ESetWatch k patterns) ks
  ++ match watch_pref with
     | None => [ELog (MLoggingTestMessage suffix)]
     | Some _ => []
     end.

Definition send_events (cm : ClusterManager) (suffix : string)
    (nodes : list string) : list event :=
  flat_map
    (λ node,
       ERsh node (logger_cmd cm suffix node)
       :: if negb ((rsh_run cm node (logger_cmd cm suffix node)).1 =? 0)
          then [ELog (MCannotExecute (logger_cmd cm suffix node) node)]
          else [])
    nodes.

Fixpoint look_events (cm : ClusterManager) (watch_pref : option LogKind)
    (patterns : list string) (ks : list LogKind) : list event :=
  match ks with
  | [] => []
  | k :: ks' =>
      (if bool_decide (watch_pref = None) then [ELog (MCheckingFor k)] else [])
      ++ [ELookForAll k patterns]
      ++ (if matched cm patterns k then
            if bool_decide (watch_pref = None) then [ELog (MFoundTestMessage k)] else []
          else
            map (λ regex, ELog (MTestMessageNotFound regex k)) (unmatched cm k patterns)
            ++ look_events cm watch_pref patterns ks')
  end.

(** [c] returns [a] from [st] with the effects [evs], and leaves the
    preferred kind [k'] and the count [n'] of tokens drawn. *)
Definition runs {A} (c : M A) (st : cm_state) (a : A) (evs : list event)
    (k' : option LogKind) (n' : nat) : Prop :=
  c st = (Ok a, {| expected_status := expected_status st; log_kind := k';
                   uuid_count := n'; trace := trace st ++ evs |}).

End LogView.

(** ** What a group audit observes, for the statements about it *)

Module GroupView.
Import GroupAudit.

(** The children of a group, in the order of the listing. *)
Definition children (resources : list AuditResource.t) (group : AuditResource.t)
    : list AuditResource.t :=
  List.filter
    (λ child, bool_decide (AuditResource.parent child = Some (AuditResource.id group)))
    resources.

(** The nodes where each child is active. *)
Definition locations (cm : ClusterManager) (children : list AuditResource.t)
    : list (list string) :=
  map (λ child, resource_location cm (AuditResource.id child)) children.

Definition inactive (nodes : list string) : bool := negb (Py.truthy_list nodes).

(** The location the code expects of child [i]: none when an earlier child
    is inactive, and else the first node of the first child. *)
Definition expected_at (locs : list (list string)) (i : nat) : option string :=
  if existsb inactive (take i locs) then None else locs !! 0%nat ≫= head.

(** Child [i] makes the audit fail, as the code decides it. *)
Definition child_fails (locs : list (list string)) (i : nat) : bool :=
  match locs !! i with
  | Some nodes =>
      (1 <? length nodes)%nat
      || match nodes with
         | [node] => negb (bool_decide (expected_at locs i = Some node))
         | _ => false
         end
  | None => false
  end.

Definition group_passes (locs : list (list string)) : bool :=
  forallb (λ i, negb (child_fails locs i)) (seq 0 (length locs)).

(** The node of the nearest active child before child [i]. *)
Definition nearest_active (locs : list (list string)) (i : nat) : option string :=
  last (List.filter Py.truthy_list (take i locs)) ≫= head.

(** Child [i] makes the audit fail, as the specification words it: it is
    active on more than one node, or on a node other than the one of its
    nearest active predecessor. *)
Definition child_fails_as_specified (locs : list (list string)) (i : nat) : bool :=
  match locs !! i with
  | Some nodes =>
      (1 <? length nodes)%nat
      || match nodes, nearest_active locs i with
         | [node], Some node' => negb (String.eqb node node')
         | _, _ => false
         end
  | None => false
  end.

(** What the body of the loop does to the variables of the loop, for a
    child active on [nodes]. *)
Definition step (nodes : list string) (s : locals) : locals :=
  let location :=
    if first_match s && (0 <? length nodes)%nat then head nodes
    else group_location s in
  if (1 <? length nodes)%nat then
    {| result := false; first_match := false; group_location := location |}
  else
    match nodes with
    | [] => {| result := result s; first_match := false; group_location := None |}
    | node :: _ =>
        {| result := if bool_decide (Some node = location) then result s else false;
           first_match := false; group_location := location |}
    end.

(** What holds of the variables of the loop after the children at [pre],
    from a result [r0]. *)
Definition walked (r0 : bool) (pre : list (list string)) (s : locals) : Prop :=
  result s = r0 && group_passes pre
  ∧ (pre = [] → first_match s = true)
  ∧ (pre ≠ [] →
     first_match s = false
     ∧ group_location s
       = if existsb inactive pre then None else head pre ≫= head).

End GroupView.

(** ** What a file audit observes, for the statements about it *)

Module FileView.
Import FileAudit.

(** The paths searched for core files. *)
Definition core_paths : list string :=
  ["/var/lib/pacemaker/cores/*"; "/var/lib/corosync"].

(** The core files listed on a node under a path, as the audit reads
    them. *)
Definition core_lines (cm : ClusterManager) (node path : string) : list string :=
  map Py.strip (rsh_run cm node ("ls -al " +:+ path +:+ " | grep core.[0-9]")).2.

(** The stale IPC files listed on a node. *)
Definition stale_lines (cm : ClusterManager) (node : string) : list string :=
  (rsh_run cm node "ls -al /dev/shm | grep qb-").2.

(** The event reports a core file. *)
Definition is_core_report (e : event) : bool :=
  match e with
  | ELog (MCoreFile _ _ _) => true
  | _ => false
  end.

(** A core file the event reports is in [known]. *)
Definition reported_in (known : list string) (e : event) : Prop :=
  ∀ tool node line, e = ELog (MCoreFile tool node line) → In line known.

(** Every core file listed on the nodes of [nodes] is in [known]. *)
Definition covered (cm : ClusterManager) (nodes : list string) (known : list string) : Prop :=
  ∀ node path line,
    In node nodes → In path core_paths → In line (core_lines cm node path) →
    In line known.

(** A node expected down lists a stale IPC file. *)
Definition stale_on (cm : ClusterManager) (st : cm_state) (node : string) : bool :=
  bool_decide (expected_status st !! node = Some "down")
  && Py.truthy_list (stale_lines cm node).

(** No node expected down lists a stale IPC file. *)
Definition no_stale (cm : ClusterManager) (st : cm_state) (nodes : list string) : Prop :=
  ∀ node, In node nodes → expected_status st !! node = Some "down" →
    stale_lines cm node = [].

End FileView.

(** ** What a disk audit observes, for the statements about it *)

Module DiskView.
Import DiskAudit.

(** The fields of the first line of the probe of a node, when the probe
    gives output. *)
Definition fields (cm : ClusterManager) (node : string) : option (list string) :=
  match (rsh_run cm node (dfcmd cm)).2 with
  | [] => None
  | line :: _ => Some (Py.split (Py.strip line))
  end.

(** The parsed probe: the percentage used and the megabytes remaining. *)
Definition reading (cm : ClusterManager) (node : string) : option (Z * Z) :=
  match fields cm node with
  | Some [u; r] =>
      match Py.int u, Py.int r with
      | Some used_percent, Some remaining_mb => Some (used_percent, remaining_mb)
      | _, _ => None
      end
  | _ => None
  end.

Definition crit (cm : ClusterManager) (node : string) : bool :=
  match reading cm node with
  | Some (used_percent, remaining_mb) => (remaining_mb <? 10) || (95 <? used_percent)
  | None => false
  end.

Definition warn (cm : ClusterManager) (node : string) : bool :=
  match reading cm node with
  | Some (used_percent, remaining_mb) =>
      negb ((remaining_mb <? 10) || (95 <? used_percent))
      && ((remaining_mb <? 100) || (90 <? used_percent))
  | None => false
  end.

(** The probe gives no output, or a line of two fields. *)
Definition two_fields (cm : ClusterManager) (node : string) : bool :=
  match fields cm node with
  | None => true
  | Some [_; _] => true
  | Some _ => false
  end.

(** What one probe ensures when it returns, from a result [r0], and when
    it raises. *)
Definition probed (cm : ClusterManager) (node : string) (r0 : bool) (st : cm_state)
    (s' : locals) (st' : cm_state) : Prop :=
  result s' = r0 && negb (crit cm node)
  ∧ (crit cm node = true → should_continue cm = true)
  ∧ extends st st'
  ∧ (warn cm node = true →
     ∃ used_percent remaining_mb,
       reading cm node = Some (used_percent, remaining_mb)
       ∧ In (ELog (MWarnDisk remaining_mb node)) (trace st')).

Definition probe_raised (cm : ClusterManager) (node : string) (e : exn) : Prop :=
  (e = ValueError (DiskFull node) ∧ crit cm node = true ∧ should_continue cm = false)
  ∨ ((∃ name, e = UnboundLocalError name) ∧ two_fields cm node = false).

(** [used] and [remain] are bound. *)
Definition bound (s : locals) : Prop := is_Some (used s) ∧ is_Some (remain s).

End DiskView.

(** ** What a CIB audit observes, for the statements about it *)

Module CIBView.
Import CIBAudit.

(** [node] produces its configuration document: the query succeeds and
    the copy to the target succeeds.  [reference] is the reference node
    when there is one. *)
Definition produces (cm : ClusterManager) (node : string)
    (reference : option string) : bool :=
  ((rsh_run cm node (CibQuery cm)).1 =? 0)
  && (rsh_copy cm (filename_of node)
        ("root@" +:+ target_or reference node +:+ ":" +:+ filename_of node) =? 0).

(** Exit status and output of crm_diff, run on the reference node [node0]
    for the document of [node]. *)
Definition diff_of (cm : ClusterManager) (node0 node : string) : Z * list string :=
  rsh_run cm node0
    ("crm_diff -VV -cf --new " +:+ filename_of node +:+ " --original "
       +:+ filename_of node0).

(** Every line of the output has the marker of the empty diff. *)
Definition only_marker (lines : list string) : bool :=
  forallb (Py.contains "<diff/>") lines.

(** The partition is consistent as the code tests it: every node produces
    its document and every diff succeeds with only marker lines. *)
Definition consistent (cm : ClusterManager) (hosts : list string) : bool :=
  match hosts with
  | [] => true
  | node0 :: rest =>
      produces cm node0 None
      && forallb (λ node, produces cm node (Some node0)
                          && ((diff_of cm node0 node).1 =? 0)
                          && only_marker (diff_of cm node0 node).2) rest
  end.

(** The partition passes as the specification words it: every node
    produces its document and every diff has only marker lines. *)
Definition passes_as_specified (cm : ClusterManager) (hosts : list string) : bool :=
  match hosts with
  | [] => true
  | node0 :: rest =>
      produces cm node0 None
      && forallb (λ node, produces cm node (Some node0)
                          && only_marker (diff_of cm node0 node).2) rest
  end.

End CIBView.

(** ** Example clusters *)

Module Examples.

(** A line feed, which ends the lines a remote command gives. *)
Definition nl : string := String (ascii_of_nat 10) EmptyString.

(** A cluster manager with the given nodes and remote shell. *)
Definition cluster (nodes : list string)
    (run : string → string → Z * list string) : ClusterManager :=
  {| env_nodes := nodes; env_have_systemd := true; env_LogAuditDisabled := false;
     env_warn_inactive := false; env_SyslogFacility := "daemon";
     LOG_DIR := "/var/log/pacemaker";
     StatusCmd := λ node, "crmadmin -t 60 -S " +:+ node;
     EpochCmd := "crm_node -e";
     QuorumCmd := "crm_node -q";
     CibQuery := "cibadmin -Q";
     rsh_run := run;
     rsh_copy := λ _ _, 0;
     is_node_dc := λ _ status_line,
       match status_line with
       | Some line => Py.contains "S_IDLE" line
       | None => false
       end;
     resource_location := λ _, [];
     has_quorum := true;
     should_continue := true;
     uuid4 := λ _, "0c0f5e8a";
     unmatched := λ _ _, [];
     find_partitions := [];
     partitions_expected := 1 |}.

(** The expected status of the nodes, all other state empty. *)
Definition state (status : list (string * string)) : cm_state :=
  {| expected_status := list_to_map status; log_kind := None; uuid_count := 0;
     trace := [] |}.

(** The answers of three nodes to the queries of the partition audit: the
    epochs are given, and [dc] is the node whose controller is idle. *)
Definition answers_of (epochs : string → list string) (dc : string)
    (node cmd : string) : Z * list string :=
  if String.eqb cmd "crm_node -e" then (0, epochs node)
  else if String.eqb cmd "crm_node -q" then (0, ["1" +:+ nl])
  else if String.eqb node dc then (0, ["S_IDLE (ok)" +:+ nl])
  else (0, ["S_NOT_DC (ok)" +:+ nl]).

(** Epochs 5, 5 and 7. *)
Definition epochs_557 (node : string) : list string :=
  if String.eqb node "n3" then ["7" +:+ nl] else ["5" +:+ nl].

Definition three_up : cm_state :=
  state [("n1", "up"); ("n2", "up"); ("n3", "up")].

(** The leader is n1, at epoch 5. *)
Definition leader_at_5 : ClusterManager :=
  cluster ["n1"; "n2"; "n3"] (answers_of epochs_557 "n1").

(** The leader is n3, at epoch 7. *)
Definition leader_at_7 : ClusterManager :=
  cluster ["n1"; "n2"; "n3"] (answers_of epochs_557 "n3").

(** Epochs 50, 50 and 57, and the leader is n3, at epoch 57. *)
Definition epochs_50_50_57 (node : string) : list string :=
  if String.eqb node "n3" then ["57" +:+ nl] else ["50" +:+ nl].

Definition stale_leader : ClusterManager :=
  cluster ["n1"; "n2"; "n3"] (answers_of epochs_50_50_57 "n3").

(** n2 gives no output to the epoch query. *)
Definition silent_epoch : ClusterManager :=
  cluster ["n1"; "n2"; "n3"]
    (answers_of (λ node, if String.eqb node "n2" then [] else ["5" +:+ nl]) "n1").

(** n2 gives an epoch that is no number. *)
Definition garbled_epoch : ClusterManager :=
  cluster ["n1"; "n2"; "n3"]
    (answers_of (λ node, if String.eqb node "n2" then ["n/a" +:+ nl] else ["5" +:+ nl]) "n1").

(** n2 gives the epoch 0. *)
Definition zero_epoch : ClusterManager :=
  cluster ["n1"; "n2"; "n3"]
    (answers_of (λ node, if String.eqb node "n2" then ["0" +:+ nl] else ["5" +:+ nl]) "n1").

(** The cluster with other resource locations, and without quorum. *)
Definition with_locations (cm : ClusterManager) (locations : string → list string)
    (quorum : bool) : ClusterManager :=
  {| env_nodes := env_nodes cm; env_have_systemd := env_have_systemd cm;
     env_LogAuditDisabled := env_LogAuditDisabled cm;
     env_warn_inactive := env_warn_inactive cm;
     env_SyslogFacility := env_SyslogFacility cm; LOG_DIR := LOG_DIR cm;
     StatusCmd := StatusCmd cm; EpochCmd := EpochCmd cm; QuorumCmd := QuorumCmd cm;
     CibQuery := CibQuery cm; rsh_run := rsh_run cm; rsh_copy := rsh_copy cm;
     is_node_dc := is_node_dc cm; resource_location := locations;
     has_quorum := quorum; should_continue := should_continue cm;
     uuid4 := uuid4 cm; unmatched := unmatched cm;
     find_partitions := find_partitions cm;
     partitions_expected := partitions_expected cm |}.

(** The listing of crm_resource --list-cts on every node. *)
Definition listing (lines : list string) (node cmd : string) : Z * list string :=
  if String.eqb cmd "crm_resource --list-cts" then (0, lines) else (0, []).

(** A managed, unique primitive that needs quorum (flags 0x22). *)
Definition rsc1_line : string :=
  "Resource: primitive rsc1 rsc1 NA heartbeat ocf Dummy n1 1 34 0x0000000000000022" +:+ nl.

(** rsc1 is active on n1, in a cluster without quorum. *)
Definition active_without_quorum : ClusterManager :=
  with_locations (cluster ["n1"; "n2"; "n3"] (listing [rsc1_line]))
    (λ rid, if String.eqb rid "rsc1" then ["n1"] else []) false.

(** Every node gives its configuration, and crm_diff fails with status 1
    and no output. *)
Definition failing_diff : ClusterManager :=
  cluster ["n1"; "n2"]
    (λ node cmd,
       if String.eqb cmd "cibadmin -Q" then (0, ["<cib/>" +:+ nl])
       else if Py.starts_with "crm_diff" cmd then (1, [])
       else (0, [])).

(** The cluster where [should_continue] gives False. *)
Definition stopping (cm : ClusterManager) : ClusterManager :=
  {| env_nodes := env_nodes cm; env_have_systemd := env_have_systemd cm;
     env_LogAuditDisabled := env_LogAuditDisabled cm;
     env_warn_inactive := env_warn_inactive cm;
     env_SyslogFacility := env_SyslogFacility cm; LOG_DIR := LOG_DIR cm;
     StatusCmd := StatusCmd cm; EpochCmd := EpochCmd cm; QuorumCmd := QuorumCmd cm;
     CibQuery := CibQuery cm; rsh_run := rsh_run cm; rsh_copy := rsh_copy cm;
     is_node_dc := is_node_dc cm; resource_location := resource_location cm;
     has_quorum := has_quorum cm; should_continue := false;
     uuid4 := uuid4 cm; unmatched := unmatched cm;
     find_partitions := find_partitions cm;
     partitions_expected := partitions_expected cm |}.

(** The output of the df probe on every node. *)
Definition df_of (probes : string → list string) (node cmd : string) : Z * list string :=
  if Py.starts_with "df -BM" cmd then (0, probes node) else (0, []).

(** n1 has room, n2 is low (92% used, 500 MB left), n3 is full (97% used,
    5 MB left). *)
Definition disks (node : string) : list string :=
  if String.eqb node "n3" then ["97 5" +:+ nl]
  else if String.eqb node "n2" then ["92 500" +:+ nl]
  else ["40 5000" +:+ nl].

Definition disk_full : ClusterManager := cluster ["n1"; "n2"; "n3"] (df_of disks).

Definition disk_full_stop : ClusterManager := stopping disk_full.

(** The probe of n1 gives one field. *)
Definition df_garbled : ClusterManager :=
  cluster ["n1"; "n2"; "n3"] (df_of (λ _, ["df:" +:+ nl])).

(** n1 lists one core file of Pacemaker. *)
Definition core_on_n1 : ClusterManager :=
  cluster ["n1"; "n2"; "n3"]
    (λ node cmd,
       if String.eqb node "n1"
          && String.eqb cmd "ls -al /var/lib/pacemaker/cores/* | grep core.[0-9]"
       then (0, ["-rw------- 1 root root 4096 Jan  1 00:00 core.1234" +:+ nl])
       else (1, [])).

(** A group g1 with the children c1 and c2, all managed and unique. *)
Definition resource (type id : string) (parent : option string) : AuditResource.t :=
  {| AuditResource.line :=
       "Resource: " +:+ type +:+ " " +:+ id +:+ " " +:+ id +:+ " " +:+ default "NA" parent
         +:+ " heartbeat ocf Dummy NA 1 34 0x0000000000000022" +:+ nl;
     AuditResource.type := type; AuditResource.id := id;
     AuditResource.clone_id := id; AuditResource.parent := parent;
     AuditResource.rprovider := "heartbeat"; AuditResource.rclass := "ocf";
     AuditResource.rtype := "Dummy"; AuditResource.host := "NA";
     AuditResource.needs_quorum := "1"; AuditResource.flags := 34;
     AuditResource.flags_s := "0x0000000000000022" |}.

Definition g1 : AuditResource.t := resource "group" "g1" None.
Definition c1 : AuditResource.t := resource "primitive" "c1" (Some "g1").
Definition c2 : AuditResource.t := resource "primitive" "c2" (Some "g1").

(** c1 is inactive and c2 is active on n1. *)
Definition second_child_only : ClusterManager :=
  with_locations
    (cluster ["n1"; "n2"; "n3"]
       (listing [AuditResource.line g1; AuditResource.line c1; AuditResource.line c2]))
    (λ rid, if String.eqb rid "c2" then ["n1"] else []) true.

(** The test message is found in the journal and in no other log. *)
Definition only_journal : ClusterManager :=
  {| env_nodes := ["n1"; "n2.example.org"]; env_have_systemd := true;
     env_LogAuditDisabled := false; env_warn_inactive := false;
     env_SyslogFacility := "daemon"; LOG_DIR := "/var/log/pacemaker";
     StatusCmd := λ node, "crmadmin -t 60 -S " +:+ node;
     EpochCmd := "crm_node -e"; QuorumCmd := "crm_node -q";
     CibQuery := "cibadmin -Q";
     rsh_run := λ _ _, (0, []); rsh_copy := λ _ _, 0;
     is_node_dc := λ _ _, false; resource_location := λ _, [];
     has_quorum := true; should_continue := true;
     uuid4 := λ n, if (n =? 0)%nat then "0c0f5e8a" else "7d1b2c3e";
     unmatched := λ k patterns, if decide (k = JOURNAL) then [] else patterns;
     find_partitions := []; partitions_expected := 1 |}.

End Examples.

(** ** Computations that only add to the trace *)

(** [c] keeps the effects there are, whether it returns or raises, and all
    the effects it adds satisfy [P]. *)
Definition says {A} (P : event → Prop) (c : M A) : Prop :=
  ∀ st, ensures c st (λ _ st', emits P st st') (λ _ st', emits P st st').

(** ** What the epoch parser reads, for the statements about it *)

Module EpochView.

(** The string is made of decimal digits. *)
Definition all_digits (s : string) : bool :=
  forallb (λ c, bool_decide (is_Some (Py.digit_of c))) (list_ascii_of_string s).

Definition digit_list (l : list ascii) : Prop :=
  Forall (λ c, is_Some (Py.digit_of c)) l.

(** The number that the digits of [l] write after the number [acc]. *)
Definition decimal (acc : Z) (l : list ascii) : Z :=
  fold_left (λ a c, 10 * a + default 0 (Py.digit_of c)) l acc.

End EpochView.

(** ** What a line of [crm_resource --list-cts] holds, for the statements
    about it *)

Module ResourceView.

(** The flags of the line: field 10, when it is a number. *)
Definition flags_of (fields : list string) : option Z :=
  fields !! 10%nat ≫= Py.int.

(** The line has the twelve fields of a resource, and its flags are a
    number. *)
Definition well_formed (line : string) : bool :=
  (12 <=? length (Py.split line))%nat
  && bool_decide (is_Some (flags_of (Py.split line))).

(** The exception for a line that is not well formed. *)
Definition rejected (line : string) : exn :=
  match Py.split line !! 10%nat with
  | Some f =>
      match Py.int f with
      | Some _ => IndexError
      | None => ValueError (InvalidLiteral f)
      end
  | None => IndexError
  end.

(** Bit [n] of the flags of a resource. *)
Definition bit (r : AuditResource.t) (n : Z) : bool :=
  Z.testbit (AuditResource.flags r) n.

(** The resource that a well-formed line describes. *)
Definition parsed (line : string) : AuditResource.t :=
  let fields := Py.split line in
  let at_ i := default EmptyString (fields !! i) in
  {| AuditResource.line := line;
     AuditResource.type := at_ 1%nat;
     AuditResource.id := at_ 2%nat;
     AuditResource.clone_id := at_ 3%nat;
     AuditResource.parent := not_NA (at_ 4%nat);
     AuditResource.rprovider := at_ 5%nat;
     AuditResource.rclass := at_ 6%nat;
     AuditResource.rtype := at_ 7%nat;
     AuditResource.host := at_ 8%nat;
     AuditResource.needs_quorum := at_ 9%nat;
     AuditResource.flags := default 0 (flags_of fields);
     AuditResource.flags_s := at_ 11%nat |}.

(** The constraint that a line of eight fields or more describes. *)
Definition parsed_constraint (line : string) : AuditConstraint.t :=
  let fields := Py.split line in
  let at_ i := default EmptyString (fields !! i) in
  {| AuditConstraint.line := line;
     AuditConstraint.type := at_ 1%nat;
     AuditConstraint.id := at_ 2%nat;
     AuditConstraint.rsc := at_ 3%nat;
     AuditConstraint.target := at_ 4%nat;
     AuditConstraint.score := at_ 5%nat;
     AuditConstraint.rsc_role := not_NA (at_ 6%nat);
     AuditConstraint.target_role := not_NA (at_ 7%nat) |}.

(** The line has the eight fields of a constraint. *)
Definition well_formed_constraint (line : string) : bool :=
  (8 <=? length (Py.split line))%nat.

End ResourceView.

(** ** What [_setup] finds, for the statements about it *)

Module SetupView.
Import PrimitiveAudit.

(** The node is expected up. *)
Definition up (st : cm_state) (node : string) : bool :=
  bool_decide (expected_status st !! node = Some "up").

(** Every node has an expected status. *)
Definition known (st : cm_state) (nodes : list string) : Prop :=
  ∀ node, In node nodes → is_Some (expected_status st !! node).

(** The negation of [not self._target]. *)
Definition usable (target : option string) : bool :=
  Py.truthy_opt Py.truthy_str target.

(** The node [_setup] reads the listing from: the target, unless there
    is none or it is the empty string. *)
Definition reads (target : option string) : option string :=
  match target with
  | Some t => if Py.truthy_str t then Some t else None
  | None => None
  end.

(** The target after the second loop. *)
Definition target_after (st : cm_state) (nodes : list string)
    (target : option string) : option string :=
  match target with
  | Some t => Some t
  | None => head (List.filter (up st) nodes)
  end.

(** The lines of the listing that describe a resource, and those that
    describe a constraint. *)
Definition resource_lines (lines : list string) : list string :=
  List.filter (Py.starts_with "Resource") lines.

Definition constraint_lines (lines : list string) : list string :=
  List.filter
    (λ line, negb (Py.starts_with "Resource" line) && Py.starts_with "Constraint" line)
    lines.

Definition unknown_lines (lines : list string) : list string :=
  List.filter
    (λ line, negb (Py.starts_with "Resource" line)
             && negb (Py.starts_with "Constraint" line))
    lines.

(** The listing of the resources, as the node [target] gives it. *)
Definition listing_of (cm : ClusterManager) (target : string) : list string :=
  (rsh_run cm target "crm_resource --list-cts").2.

(** The line of the listing makes [_setup] raise [e]: it starts as a
    resource or as a constraint and has too few fields, or flags that are no
    number. *)
Definition malformed (line : string) (e : exn) : Prop :=
  (Py.starts_with "Resource" line = true
   ∧ ResourceView.well_formed line = false ∧ e = ResourceView.rejected line)
  ∨ (Py.starts_with "Resource" line = false
     ∧ Py.starts_with "Constraint" line = true
     ∧ ResourceView.well_formed_constraint line = false ∧ e = IndexError).

(** The effects of [_setup] on a listing read from [target]. *)
Definition read_events (cm : ClusterManager) (target : string) : list event :=
  ERsh target "crm_resource --list-cts"
  :: map (λ line, ELog (MUnknownEntry line)) (unknown_lines (listing_of cm target)).

(** What [_setup] gives from [self] and [st] when it returns. *)
Definition set_up (cm : ClusterManager) (name : string) (self : attrs)
    (st : cm_state) (r : bool * attrs) (st' : cm_state) : Prop :=
  _active_nodes r.2 = _active_nodes self ++ List.filter (up st) (env_nodes cm)
  ∧ _inactive_nodes r.2
    = _inactive_nodes self ++ List.filter (λ node, negb (up st node)) (env_nodes cm)
  ∧ _target r.2 = target_after st (env_nodes cm) (_target self)
  ∧ r.1 = usable (_target r.2)
  ∧ expected_status st' = expected_status st
  ∧ match reads (_target r.2) with
    | Some t =>
        _resources r.2
        = _resources self ++ map ResourceView.parsed (resource_lines (listing_of cm t))
        ∧ _constraints r.2
          = _constraints self
            ++ map ResourceView.parsed_constraint (constraint_lines (listing_of cm t))
        ∧ trace st' = trace st ++ read_events cm t
    | None =>
        _resources r.2 = _resources self
        ∧ _constraints r.2 = _constraints self
        ∧ trace st' = trace st ++ [EDebug (MNoNodesActive name)]
    end.

(** What holds when [_setup] raises [e]: a line of the listing is
    malformed. *)
Definition stopped (cm : ClusterManager) (self : attrs) (st : cm_state)
    (e : exn) (st' : cm_state) : Prop :=
  ∃ t line,
    reads (target_after st (env_nodes cm) (_target self)) = Some t
    ∧ In line (listing_of cm t) ∧ malformed line e
    ∧ expected_status st' = expected_status st
    ∧ extends st st'.

End SetupView.

(** ** [_setup] on the instance it updates in place

    [PrimitiveAudit._setup] gives the attributes of the instance when it
    returns.  The instance itself is updated in place: what a loop has
    appended to it is still there when a later step raises.  Here the
    instance is carried next to the state of the cluster manager, through
    a raise too. *)

Module InPlace.
Import PrimitiveAudit.

Definition I (A : Type) : Type := attrs → cm_state → result A * attrs * cm_state.

Definition iret {A} (a : A) : I A := λ self st, (Ok a, self, st).

Definition ibind {A B} (c : I A) (k : A → I B) : I B :=
  λ self st,
    match c self st with
    | (Ok a, self', st') => k a self' st'
    | (Raise e, self', st') => (Raise e, self', st')
    end.

Declare Scope instance_scope.
Notation "'let*' x ':=' c 'in' k" := (ibind c (λ x, k))
  (at level 10, x pattern, c at level 200, k at level 200) : instance_scope.
Notation "c ';;' k" := (ibind c (λ _, k))
  (at level 100, k at level 200, right associativity) : instance_scope.

(** A statement that updates the instance, or raises before it does. *)
Definition update (c : attrs → M attrs) : I unit :=
  λ self st,
    match c self st with
    | (Ok self', st') => (Ok tt, self', st')
    | (Raise e, st') => (Raise e, self, st')
    end.

(** A call of the cluster manager, which leaves the instance alone. *)
Definition call {A} (c : M A) : I A :=
  λ self st, let (r, st') := c st in (r, self, st').

(** The value of an attribute. *)
Definition read {A} (attribute : attrs → A) : I A :=
  λ self st, (Ok (attribute self), self, st).

Fixpoint ifor_each {A} (l : list A) (body : A → I unit) : I unit :=
  match l with
  | [] => iret tt
  | x :: l' => ibind (body x) (λ _, ifor_each l' body)
  end.

Local Open Scope instance_scope.

Definition _setup (cm : ClusterManager) (name : string) : I bool :=
  ifor_each (env_nodes cm) (λ node, update (sort_node node)) ;;
  ifor_each (env_nodes cm) (λ node, update (pick_target node)) ;;
  let* target := read _target in
  match target with
  | Some target =>
      if Py.truthy_str target then
        let* (_, lines) := call (rsh cm target "crm_resource --list-cts") in
        ifor_each lines (λ line, update (read_line line)) ;;
        iret true
      else
        call (debug (MNoNodesActive name)) ;; iret false
  | None =>
      call (debug (MNoNodesActive name)) ;; iret false
  end.

End InPlace.

(** ** What the audit of a primitive decides, for the statements about it *)

Module PrimitiveView.
Import PrimitiveAudit ResourceView.

(** The resource makes the audit fail: it is managed and unique, and it is
    active on more than one node, or on none while it is no orphan and no
    node is inactive. *)
Definition fails (cm : ClusterManager) (self : attrs) (r : AuditResource.t) : bool :=
  let n := length (resource_location cm (AuditResource.id r)) in
  bit r 1 && bit r 5
  && ((1 <? n)%nat
      || ((n =? 0)%nat && negb (bit r 0) && negb (Py.truthy_list (_inactive_nodes self)))).

(** The event is a line of the log or of the debug log. *)
Definition is_line (e : event) : bool :=
  match e with
  | ELog _ | EDebug _ => true
  | _ => false
  end.

End PrimitiveView.

(** ** What the audits of the resources decide, for the statements about
    them *)

Module CallView.
Import PrimitiveAudit.

(** Every primitive that the instance holds passes. *)
Definition primitives_pass (cm : ClusterManager) (self : attrs) : bool :=
  forallb
    (λ r, negb (String.eqb (AuditResource.type r) "primitive")
          || negb (PrimitiveView.fails cm self r))
    (_resources self).

(** Every group that the instance holds passes. *)
Definition groups_pass (cm : ClusterManager) (self : attrs) : bool :=
  forallb
    (λ g, negb (String.eqb (AuditResource.type g) "group")
          || GroupView.group_passes
               (GroupView.locations cm (GroupView.children (_resources self) g)))
    (_resources self).

(** Every partition is consistent. *)
Definition cibs_pass (cm : ClusterManager) : bool :=
  forallb (λ partition, CIBView.consistent cm (Py.split partition))
    (find_partitions cm).

(** What PartitionAudit does first when the partitions are not as many
    as expected: it waits for the cluster to be stable, and logs the number
    of the partitions and every partition. *)
Definition count_report (cm : ClusterManager) : list event :=
  EClusterStable
  :: ELog (MPartitionsDetected (length (find_partitions cm)))
  :: map (λ partition, ELog (MPartitionLine partition)) (find_partitions cm).

(** The partitions whose audit was begun, in the order of the effects. *)
Definition audited (evs : list event) : list string :=
  omap (λ e, match e with
             | EDebug (MAuditingPartition partition) => Some partition
             | _ => None
             end) evs.

End CallView.

(** ** What a file audit removes, for the statements about it *)

Module CleanupView.

(** The command that removes the IPC files. *)
Definition cleanup : string := "rm -rf /dev/shm/qb-*".

(** The event removes the IPC files of a node. *)
Definition is_cleanup (e : event) : bool :=
  match e with
  | ERsh _ cmd => String.eqb cmd cleanup
  | _ => false
  end.

(** The nodes whose IPC files a sequence of events removes, in order. *)
Definition cleaned (evs : list event) : list string :=
  omap (λ e, match e with
             | ERsh node cmd => if String.eqb cmd cleanup then Some node else None
             | _ => None
             end) evs.

(** From [st] to [st'] the IPC files of the nodes of [nodes] are removed,
    in this order, and of no other node. *)
Definition cleans (st st' : cm_state) (nodes : list string) : Prop :=
  ∃ evs, trace st' = trace st ++ evs ∧ cleaned evs = nodes.

(** Every core file that a node lists under a path is in [known]. *)
Definition path_known (cm : ClusterManager) (known : list string)
    (node path : string) : bool :=
  forallb (λ line, bool_decide (line ∈ known)) (FileView.core_lines cm node path).

Definition node_known (cm : ClusterManager) (known : list string) (node : string) : bool :=
  forallb (path_known cm known node) FileView.core_paths.

(** Every core file that the nodes list is in [known]. *)
Definition all_known (cm : ClusterManager) (nodes known : list string) : bool :=
  forallb (node_known cm known) nodes.

(** No node expected down lists a stale IPC file. *)
Definition none_stale (cm : ClusterManager) (st : cm_state) (nodes : list string) : bool :=
  forallb (λ node, negb (FileView.stale_on cm st node)) nodes.

End CleanupView.

(** ** The audits that write other lines, wait, or probe the nodes *)

(** The lines of ControllerStateAudit, ColocationAudit and CloneAudit, and
    of the restart of the logs; the arguments are the values formatted into
    the line. *)
Inductive audit_line :=
(* LogAudit *)
| LRestartingLogging (nodes : list string)
| LCannotStopJournald (node : string)
| LCannotStartJournald (node : string)
| LCannotRestart (syslogd node : string)
| LLoggingUnrecoverable
(* CloneAudit *)
| LCheckingChild (child clone : string)
(* ColocationAudit *)
| LColocationNotRunning (id rsc : string)
| LColocationNotIn (id rsc node : string) (target : list string)
| LColocationIn (id rsc node : string) (target : list string)
(* ControllerStateAudit *)
| LNotStable (unstable : nat) (upcount : Z) (unstable_list : list string)
| LUpAreDown (up_are_down : Z) (nodes : nat)
| LDownAreUp (down_are_up : Z) (nodes : nat).

Inductive effect :=
| Log (m : audit_line)              (* cm.log(f"...") *)
| Debug (m : audit_line)            (* cm.debug(f"...") *)
| Sleep (seconds : Z)         (* time.sleep(seconds) *).

(** More of the cluster manager and of its environment, for these
    audits. *)
Record Probes := {
  test_node_cm : string → Z;        (* cm.test_node_cm(node) *)
  upcount : Z;                      (* cm.upcount() *)
  env_syslogd : option string       (* env["syslogd"], when the key is there *)
}.

(** The state of the cluster manager, and the other effects so far, each
    with the number of effects of the cluster manager before it. *)
Record world := {
  cluster_state : cm_state;
  effects : list (nat * effect)
}.

Definition W (A : Type) : Type := world → result A * world.

Definition wret {A} (a : A) : W A := λ w, (Ok a, w).

Definition wbind {A B} (c : W A) (k : A → W B) : W B :=
  λ w, match c w with
       | (Ok a, w') => k a w'
       | (Raise e, w') => (Raise e, w')
       end.

Declare Scope world_scope.
Notation "'let*' x ':=' c 'in' k" := (wbind c (λ x, k))
  (at level 10, x pattern, c at level 200, k at level 200) : world_scope.
Notation "c ';;' k" := (wbind c (λ _, k))
  (at level 100, k at level 200, right associativity) : world_scope.

(** A computation of the audits above, in the world. *)
Definition lift {A} (c : M A) : W A :=
  λ w, let (r, st) := c (cluster_state w) in
       (r, {| cluster_state := st; effects := effects w |}).

Definition tell (e : effect) : W unit :=
  λ w, (Ok tt,
        {| cluster_state := cluster_state w;
           effects := effects w ++ [(length (trace (cluster_state w)), e)] |}).

Definition wlog (m : audit_line) : W unit := tell (Log m).
Definition wdebug (m : audit_line) : W unit := tell (Debug m).
Definition sleep (seconds : Z) : W unit := tell (Sleep seconds).

Fixpoint wfor_each {A S} (l : list A) (body : A → S → W S) (s : S) : W S :=
  match l with
  | [] => wret s
  | x :: l' => wbind (body x s) (λ s', wfor_each l' body s')
  end.

(** [c], run from [w], returns a value and a world that satisfy [Q], or
    raises an exception in a world that satisfy [E]. *)
Definition wensures {A} (c : W A) (w : world)
    (Q : A → world → Prop) (E : exn → world → Prop) : Prop :=
  match c w with
  | (Ok a, w') => Q a w'
  | (Raise e, w') => E e w'
  end.

(** The world after the effects [evs], written when the cluster manager
    had [n] effects of its own. *)
Definition after (w : world) (evs : list effect) : world :=
  {| cluster_state := cluster_state w;
     effects := effects w ++ map (λ e, (length (trace (cluster_state w)), e)) evs |}.

(** The other effects, in their order. *)
Definition said (w : world) : list effect := map snd (effects w).

(** The seconds slept, in their order. *)
Definition slept (evs : list effect) : list Z :=
  omap (λ e, match e with Sleep seconds => Some seconds | _ => None end) evs.

(** The sleeps, in their order: the seconds slept, and the number of
    effects of the cluster manager before the sleep. *)
Definition naps (w : world) : list (nat * Z) :=
  omap (λ '(before, e),
          match e with Sleep seconds => Some (before, seconds) | _ => None end)
    (effects w).

(** ** LogAudit: the restart of the logs and the retries *)

Module LogRetry.
Local Open Scope world_scope.

(** The body of the loop of [_restart_cluster_logging]. *)
Definition restart_node (cm : ClusterManager) (pr : Probes) (node : string)
    (_ : unit) : W unit :=
  (if env_have_systemd cm then
     let* (rc, _) := lift (rsh cm node "systemctl stop systemd-journald.socket") in
     (if negb (rc =? 0) then wlog (LCannotStopJournald node) else wret tt) ;;
     let* (rc, _) := lift (rsh cm node "systemctl start systemd-journald.service") in
     if negb (rc =? 0) then wlog (LCannotStartJournald node) else wret tt
   else wret tt) ;;
  match env_syslogd pr with
  | Some syslogd =>
      let* (rc, _) := lift (rsh cm node ("service " +:+ syslogd +:+ " restart")) in
      if negb (rc =? 0) then wlog (LCannotRestart syslogd node) else wret tt
  | None => wret tt
  end.

(** [nodes] is [None] or a list; [not nodes] holds for both [None] and the
    empty list. *)
Definition _restart_cluster_logging (cm : ClusterManager) (pr : Probes)
    (nodes : option (list string)) : W unit :=
  let nodes :=
    match nodes with
    | Some (node :: nodes) => node :: nodes
    | _ => env_nodes cm
    end in
  wdebug (LRestartingLogging nodes) ;;
  wfor_each nodes (restart_node cm pr) tt.

Definition max_attempts : Z := 3.

(** The loop of [__call__]: [while attempt <= max_attempts and not
    self._test_logging()].  It gives [attempt] when the loop ends, and
    [None] when [fuel] iterations do not end it. *)
Fixpoint attempts (fuel : nat) (cm : ClusterManager) (pr : Probes)
    (attempt : Z) : W (option Z) :=
  match fuel with
  | O => wret None
  | S fuel =>
      if attempt <=? max_attempts then
        let* found := lift (LogAudit._test_logging cm) in
        if negb (Py.truthy found) then
          let attempt := attempt + 1 in
          _restart_cluster_logging cm pr None ;;
          sleep (60 * attempt) ;;
          attempts fuel cm pr attempt
        else wret (Some attempt)
      else wret (Some attempt)
  end.

Definition __call__ (fuel : nat) (cm : ClusterManager) (pr : Probes) : W (option bool) :=
  let attempt := 0 in
  lift (emit (EWaitForAllNodes (env_nodes cm))) ;;
  let* attempt := attempts fuel cm pr attempt in
  match attempt with
  | Some attempt =>
      if max_attempts <? attempt then
        wlog LLoggingUnrecoverable ;; wret (Some false)
      else wret (Some true)
  | None => wret None
  end.

End LogRetry.

(** What the retries of LogAudit do, for the statements about them. *)
Module RetryView.

(** The world after a remote command. *)
Definition ran (w : world) (node cmd : string) : world :=
  {| cluster_state :=
       {| expected_status := expected_status (cluster_state w);
          log_kind := log_kind (cluster_state w);
          uuid_count := uuid_count (cluster_state w);
          trace := trace (cluster_state w) ++ [ERsh node cmd] |};
     effects := effects w |}.

(** The commands that restart the logs of the nodes. *)
Definition restart_commands (cm : ClusterManager) (pr : Probes)
    (nodes : list string) : list (string * string) :=
  flat_map
    (λ node,
       (if env_have_systemd cm then
          [(node, "systemctl stop systemd-journald.socket");
           (node, "systemctl start systemd-journald.service")]
        else [])
       ++ match env_syslogd pr with
          | Some syslogd => [(node, "service " +:+ syslogd +:+ " restart")]
          | None => []
          end)
    nodes.

(** The remote commands [cmds], as effects. *)
Definition remote (cmds : list (string * string)) : list event :=
  map (λ '(node, cmd), ERsh node cmd) cmds.

(** From [w] to [w'] the commands of [cmds] are run, nothing else is done
    to the cluster, and no time is slept. *)
Definition restarted (w w' : world) (cmds : list (string * string)) : Prop :=
  expected_status (cluster_state w') = expected_status (cluster_state w)
  ∧ log_kind (cluster_state w') = log_kind (cluster_state w)
  ∧ uuid_count (cluster_state w') = uuid_count (cluster_state w)
  ∧ trace (cluster_state w') = trace (cluster_state w) ++ remote cmds
  ∧ naps w' = naps w.

(** The test that draws the token [n] finds its message, when [pref] is
    the preferred kind. *)
Definition found (cm : ClusterManager) (pref : option LogKind) (n : nat) : bool :=
  bool_decide
    (is_Some (LogView.winner cm (LogAudit.patterns_for cm (uuid4 cm n))
                (LogView.candidates cm pref))).

(** Of [tries] tests from the token [n] on, the number that fail before
    the first that finds its message. *)
Fixpoint failures (cm : ClusterManager) (pref : option LogKind) (n tries : nat) : nat :=
  match tries with
  | O => O
  | S tries => if found cm pref n then O else S (failures cm pref (S n) tries)
  end.

(** The effects of the test that draws the token [n], when [pref] is the
    preferred kind: the watches, the messages sent to the nodes, and the
    checks of the logs. *)
Definition test_events (cm : ClusterManager) (pref : option LogKind) (n : nat)
    : list event :=
  let suffix := uuid4 cm n in
  let patterns := LogAudit.patterns_for cm suffix in
  let ks := LogView.candidates cm pref in
  LogView.arm_events pref suffix patterns ks
  ++ LogView.send_events cm suffix (env_nodes cm)
  ++ LogView.look_events cm pref patterns ks.

(** The effects of a round: the test that draws the token [n], and the
    restart of the logs of all nodes. *)
Definition round_events (cm : ClusterManager) (pr : Probes)
    (pref : option LogKind) (n : nat) : list event :=
  test_events cm pref n ++ remote (restart_commands cm pr (env_nodes cm)).

(** The effects of [k] rounds, from the token [n] on. *)
Fixpoint rounds (cm : ClusterManager) (pr : Probes) (pref : option LogKind)
    (n k : nat) : list event :=
  match k with
  | O => []
  | S k => round_events cm pr pref n ++ rounds cm pr pref (S n) k
  end.

End RetryView.

(** ** CloneAudit *)

Module CloneCall.
Local Open Scope world_scope.

Definition __call__ (cm : ClusterManager) (self : PrimitiveAudit.attrs)
    : W (bool * PrimitiveAudit.attrs) :=
  let result := true in
  let* (ok, self) := lift (PrimitiveAudit._setup cm "CloneAudit" self) in
  if negb ok then wret (result, self)
  else
    wfor_each (PrimitiveAudit._resources self)
      (λ clone _,
         if negb (String.eqb (AuditResource.type clone) "clone") then wret tt
         else
           wfor_each (PrimitiveAudit._resources self)
             (λ child _,
                if bool_decide (AuditResource.parent child = Some (AuditResource.id clone))
                   && String.eqb (AuditResource.type child) "primitive"
                then wdebug (LCheckingChild (AuditResource.id child)
                               (AuditResource.id clone))
                else wret tt)
             tt)
      tt ;;
    wret (result, self).

End CloneCall.

(** What CloneAudit writes, for the statements about it. *)
Module CloneView.

(** The primitives whose parent is [clone]. *)
Definition children_of (resources : list AuditResource.t) (clone : AuditResource.t)
    : list AuditResource.t :=
  List.filter
    (λ child,
       bool_decide (AuditResource.parent child = Some (AuditResource.id clone))
       && String.eqb (AuditResource.type child) "primitive")
    resources.

(** The debug lines for the clones of [clones]. *)
Definition checked (resources clones : list AuditResource.t) : list effect :=
  flat_map
    (λ clone,
       if String.eqb (AuditResource.type clone) "clone" then
         map (λ child, Debug (LCheckingChild (AuditResource.id child)
                                (AuditResource.id clone)))
           (children_of resources clone)
       else [])
    clones.

End CloneView.

(** ** ColocationAudit *)

Module ColocationCall.
Local Open Scope world_scope.

(** [self._target] where [_crm_location] reads it: [_setup] has given a
    node then, and the empty string stands for [None]. *)
Definition target_of (self : PrimitiveAudit.attrs) : string :=
  default EmptyString (PrimitiveAudit._target self).

Definition _crm_location (cm : ClusterManager) (self : PrimitiveAudit.attrs)
    (resource : string) : M (list string) :=
  bind (rsh cm (target_of self)
          ("crm_resource --locate -r " +:+ resource +:+ " -Q"))
    (λ '(rc, lines),
       let hosts : list string := [] in
       if rc =? 0 then
         for_each lines
           (λ line hosts,
              let fields := Py.split line in
              bind (field fields 0) (λ f, ret (hosts ++ [f])))
           hosts
       else ret hosts).

(** The loop over the nodes where the source runs. *)
Definition check_node (coloc : AuditConstraint.t) (target : list string)
    (node : string) (result : bool) : W bool :=
  if negb (bool_decide (node ∈ target)) then
    wlog (LColocationNotIn (AuditConstraint.id coloc) (AuditConstraint.rsc coloc)
            node target) ;;
    wret false
  else
    wdebug (LColocationIn (AuditConstraint.id coloc) (AuditConstraint.rsc coloc)
              node target) ;;
    wret result.

Definition check_constraint (cm : ClusterManager) (self : PrimitiveAudit.attrs)
    (coloc : AuditConstraint.t) (result : bool) : W bool :=
  if negb (String.eqb (AuditConstraint.type coloc) "rsc_colocation") then wret result
  else
    let* source := lift (_crm_location cm self (AuditConstraint.rsc coloc)) in
    let* target := lift (_crm_location cm self (AuditConstraint.target coloc)) in
    if negb (Py.truthy_list source) then
      wdebug (LColocationNotRunning (AuditConstraint.id coloc)
                (AuditConstraint.rsc coloc)) ;;
      wret result
    else wfor_each source (check_node coloc target) result.

Definition __call__ (cm : ClusterManager) (self : PrimitiveAudit.attrs)
    : W (bool * PrimitiveAudit.attrs) :=
  let result := true in
  let* (ok, self) := lift (PrimitiveAudit._setup cm "ColocationAudit" self) in
  if negb ok then wret (result, self)
  else
    let* result :=
      wfor_each (PrimitiveAudit._constraints self) (check_constraint cm self) result in
    wret (result, self).

End ColocationCall.

(** What ColocationAudit finds, for the statements about it. *)
Module ColocationView.

Definition locate_cmd (resource : string) : string :=
  "crm_resource --locate -r " +:+ resource +:+ " -Q".

(** The first field of every line; there is none when a line is blank. *)
Definition hosts_of (lines : list string) : option (list string) :=
  mapM (λ line, head (Py.split line)) lines.

(** The nodes where [resource] runs, as [target] tells. *)
Definition located (cm : ClusterManager) (target resource : string)
    : option (list string) :=
  let '(rc, lines) := rsh_run cm target (locate_cmd resource) in
  if rc =? 0 then hosts_of lines else Some [].

(** The constraint holds: every node where its resource runs is a node
    where its target runs. *)
Definition colocated (cm : ClusterManager) (target : string)
    (coloc : AuditConstraint.t) : option bool :=
  if negb (String.eqb (AuditConstraint.type coloc) "rsc_colocation") then Some true
  else
    source ← located cm target (AuditConstraint.rsc coloc);
    nodes ← located cm target (AuditConstraint.target coloc);
    Some (forallb (λ node, bool_decide (node ∈ nodes)) source).

(** Every constraint holds; there is no verdict when a line of a listing
    is blank. *)
Definition verdict (cm : ClusterManager) (target : string)
    (constraints : list AuditConstraint.t) : option bool :=
  forallb id <$> mapM (colocated cm target) constraints.

End ColocationView.

(** ** ControllerStateAudit *)

Module ControllerCall.
Local Open Scope world_scope.

(** The variables the loop over the nodes changes. *)
Record locals := {
  up_are_down : Z;
  down_are_up : Z;
  unstable_list : list string
}.

Definition check_node (pr : Probes) (node : string) (s : locals) : W locals :=
  let* should_be := lift (get_expected_status node) in
  let rc := test_node_cm pr node in
  if 0 <? rc then
    let s :=
      if String.eqb should_be "down" then
        {| up_are_down := up_are_down s; down_are_up := down_are_up s + 1;
           unstable_list := unstable_list s |}
      else s in
    if rc =? 1 then
      wret {| up_are_down := up_are_down s; down_are_up := down_are_up s;
              unstable_list := unstable_list s ++ [node] |}
    else wret s
  else if String.eqb should_be "up" then
    wret {| up_are_down := up_are_down s + 1; down_are_up := down_are_up s;
            unstable_list := unstable_list s |}
  else wret s.

Definition __call__ (cm : ClusterManager) (pr : Probes) : W bool :=
  let result := true in
  let* s := wfor_each (env_nodes cm) (check_node pr)
              {| up_are_down := 0; down_are_up := 0; unstable_list := [] |} in
  let* result :=
    if (0 <? length (unstable_list s))%nat then
      wlog (LNotStable (length (unstable_list s)) (upcount pr) (unstable_list s)) ;;
      wret false
    else wret result in
  let* result :=
    if 0 <? up_are_down s then
      wlog (LUpAreDown (up_are_down s) (length (env_nodes cm))) ;; wret false
    else wret result in
  let* result :=
    if 0 <? down_are_up s then
      wlog (LDownAreUp (down_are_up s) (length (env_nodes cm))) ;; wret false
    else wret result in
  wret result.

End ControllerCall.

(** What ControllerStateAudit finds, for the statements about it. *)
Module ControllerView.

Definition expected (st : cm_state) (node s : string) : bool :=
  bool_decide (expected_status st !! node = Some s).

(** The node is as expected: its controller is not starting up or
    shutting down (1), and it runs (above 0) unless the node is expected down,
    and does not run unless the node is expected up. *)
Definition node_ok (pr : Probes) (st : cm_state) (node : string) : bool :=
  let rc := test_node_cm pr node in
  if 0 <? rc then negb (rc =? 1) && negb (expected st node "down")
  else negb (expected st node "up").

Definition unstable (pr : Probes) (nodes : list string) : list string :=
  List.filter (λ node, test_node_cm pr node =? 1) nodes.

Definition up_but_down (pr : Probes) (st : cm_state) (nodes : list string) : list string :=
  List.filter (λ node, negb (0 <? test_node_cm pr node) && expected st node "up") nodes.

Definition down_but_up (pr : Probes) (st : cm_state) (nodes : list string) : list string :=
  List.filter (λ node, (0 <? test_node_cm pr node) && expected st node "down") nodes.

(** The lines of the audit. *)
Definition report (cm : ClusterManager) (pr : Probes) (st : cm_state) : list effect :=
  let nodes := env_nodes cm in
  (if (0 <? length (unstable pr nodes))%nat then
     [Log (LNotStable (length (unstable pr nodes)) (upcount pr) (unstable pr nodes))]
   else [])
  ++ (if (0 <? length (up_but_down pr st nodes))%nat then
        [Log (LUpAreDown (Z.of_nat (length (up_but_down pr st nodes))) (length nodes))]
      else [])
  ++ (if (0 <? length (down_but_up pr st nodes))%nat then
        [Log (LDownAreUp (Z.of_nat (length (down_but_up pr st nodes))) (length nodes))]
      else []).

End ControllerView.

(** ** ResourceRecover (tests/resourcerecover.py): the choice of the
    resource *)

Module ResourceRecover.

(** The attributes that [_choose_resource] sets. *)
Record attrs := {
  _rid : option string;
  _rid_alt : option string
}.

(** [random_gen.choice(l)], where [pick] is the number the generator
    draws. *)
Definition choice (pick : nat) (l : list string) : M string :=
  first (drop (pick mod length l) l).

(** The loop over the lines, which returns from the function at the first
    resource whose id is [self._rid]. *)
Fixpoint scan (rid : string) (lines : list string) (self : attrs)
    : M (option AuditResource.t * attrs) :=
  match lines with
  | [] => ret (None, self)
  | line :: lines' =>
      if String.prefix "Resource: " line then
        let* rsc := AuditResource.__init__ line in
        if String.eqb (AuditResource.id rsc) rid then
          ret (Some rsc,
               {| _rid := Some (AuditResource.clone_id rsc); _rid_alt := _rid_alt self |})
        else scan rid lines' self
      else scan rid lines' self
  end.

Definition _choose_resource (cm : ClusterManager) (pick : nat) (node : string)
    (resourcelist : list string) (self : attrs)
    : M (option AuditResource.t * attrs) :=
  let* rid := choice pick resourcelist in
  let self := {| _rid := Some rid; _rid_alt := Some rid |} in
  let* (_, lines) := rsh cm node "crm_resource -c" in
  scan rid lines self.

End ResourceRecover.

(** What [_choose_resource] finds, for the statements about it. *)
Module RecoverView.
Import ResourceRecover.

(** The lines that describe a resource, in the listing of [node]. *)
Definition described (cm : ClusterManager) (node : string) : list string :=
  List.filter (String.prefix "Resource: ") (rsh_run cm node "crm_resource -c").2.

(** The line describes a resource other than [rid]. *)
Definition other (rid line : string) : Prop :=
  ResourceView.well_formed line = true
  ∧ AuditResource.id (ResourceView.parsed line) ≠ rid.

(** What [_choose_resource] gives for the resource [rid] that it draws. *)
Definition chosen (cm : ClusterManager) (node rid : string)
    (r : option AuditResource.t * attrs) : Prop :=
  _rid_alt r.2 = Some rid
  ∧ match r.1 with
    | Some rsc =>
        AuditResource.id rsc = rid
        ∧ _rid r.2 = Some (AuditResource.clone_id rsc)
        ∧ ∃ pre line post,
            described cm node = pre ++ line :: post
            ∧ Forall (other rid) pre
            ∧ ResourceView.well_formed line = true
            ∧ rsc = ResourceView.parsed line
    | None => _rid r.2 = Some rid ∧ Forall (other rid) (described cm node)
    end.

(** A line before the resource [rid] is malformed, and [e] is its
    exception. *)
Definition broken (cm : ClusterManager) (node rid : string) (e : exn) : Prop :=
  ∃ pre line post,
    described cm node = pre ++ line :: post
    ∧ Forall (other rid) pre
    ∧ ResourceView.well_formed line = false
    ∧ e = ResourceView.rejected line.

End RecoverView.

(** ** More clusters, for the examples *)

Module Scenarios.
Import Examples.

(** n1 is expected down, n2 and n3 up. *)
Definition n1_down : cm_state :=
  state [("n1", "down"); ("n2", "up"); ("n3", "up")].

(** n3 has no expected status. *)
Definition n3_unknown : cm_state :=
  state [("n1", "up"); ("n2", "up")].

(** The world with the cluster in the state [st], before any other
    effect. *)
Definition world_of (st : cm_state) : world :=
  {| cluster_state := st; effects := [] |}.

(** The controller of n1 runs, the one of n2 is starting up, and the one of
    n3 does not run; the syslog daemon is rsyslog. *)
Definition probes : Probes :=
  {| test_node_cm := λ node,
       if String.eqb node "n1" then 2 else if String.eqb node "n2" then 1 else 0;
     upcount := 2;
     env_syslogd := Some "rsyslog" |}.

(** The cluster with the partitions [partitions], where [expected] are
    expected. *)
Definition with_partitions (cm : ClusterManager) (partitions : list string)
    (expected : Z) : ClusterManager :=
  {| env_nodes := env_nodes cm; env_have_systemd := env_have_systemd cm;
     env_LogAuditDisabled := env_LogAuditDisabled cm;
     env_warn_inactive := env_warn_inactive cm;
     env_SyslogFacility := env_SyslogFacility cm; LOG_DIR := LOG_DIR cm;
     StatusCmd := StatusCmd cm; EpochCmd := EpochCmd cm; QuorumCmd := QuorumCmd cm;
     CibQuery := CibQuery cm; rsh_run := rsh_run cm; rsh_copy := rsh_copy cm;
     is_node_dc := is_node_dc cm; resource_location := resource_location cm;
     has_quorum := has_quorum cm; should_continue := should_continue cm;
     uuid4 := uuid4 cm; unmatched := unmatched cm;
     find_partitions := partitions;
     partitions_expected := expected |}.

(** Two partitions where one is expected. *)
Definition split_brain : ClusterManager :=
  with_partitions leader_at_5 ["n1 n2"; "n3"] 1.

(** Three partitions of one node where one partition is expected; n2 gives
    no output to the epoch query. *)
Definition silent_partition : ClusterManager :=
  with_partitions silent_epoch ["n1"; "n2"; "n3"] 1.

(** No test message is ever found. *)
Definition deaf : ClusterManager :=
  {| env_nodes := ["n1"; "n2"]; env_have_systemd := true;
     env_LogAuditDisabled := false; env_warn_inactive := false;
     env_SyslogFacility := "daemon"; LOG_DIR := "/var/log/pacemaker";
     StatusCmd := λ node, "crmadmin -t 60 -S " +:+ node;
     EpochCmd := "crm_node -e"; QuorumCmd := "crm_node -q";
     CibQuery := "cibadmin -Q";
     rsh_run := λ _ _, (0, []); rsh_copy := λ _ _, 0;
     is_node_dc := λ _ _, false; resource_location := λ _, [];
     has_quorum := true; should_continue := true;
     uuid4 := λ _, "0c0f5e8a";
     unmatched := λ _ patterns, patterns;
     find_partitions := []; partitions_expected := 1 |}.

(** A colocation of rsc1 with rsc2: rsc1 runs on n1 and n2, rsc2 on n1
    alone. *)
Definition coloc_line : string :=
  "Constraint: rsc_colocation col1 rsc1 rsc2 INFINITY NA NA" +:+ nl.

Definition apart : ClusterManager :=
  cluster ["n1"; "n2"; "n3"]
    (λ node cmd,
       if String.eqb cmd "crm_resource --list-cts" then (0, [rsc1_line; coloc_line])
       else if String.eqb cmd "crm_resource --locate -r rsc1 -Q" then
         (0, ["n1" +:+ nl; "n2" +:+ nl])
       else if String.eqb cmd "crm_resource --locate -r rsc2 -Q" then (0, ["n1" +:+ nl])
       else (0, [])).

(** n1 and n3 are expected down and list a stale IPC file each; n2 is
    expected up and lists one too. *)
Definition n1_n3_down : cm_state :=
  state [("n1", "down"); ("n2", "up"); ("n3", "down")].

Definition stale_everywhere : ClusterManager :=
  cluster ["n1"; "n2"; "n3"]
    (λ node cmd,
       if String.eqb cmd "ls -al /dev/shm | grep qb-" then
         (0, ["-rw------- 1 root root 8 Jan  1 00:00 qb-1234-event" +:+ nl])
       else (1, [])).

(** The listing of [crm_resource -c]: a clone instance of rsc2 before
    rsc1. *)
Definition rsc2_line : string :=
  "Resource: primitive rsc2 rsc2:0 cl2 heartbeat ocf Dummy n1 1 34 0x0000000000000022"
    +:+ nl.

Definition two_resources : ClusterManager :=
  cluster ["n1"; "n2"; "n3"]
    (λ node cmd,
       if String.eqb cmd "crm_resource -c" then (0, [rsc2_line; rsc1_line])
       else (0, [])).

End Scenarios.
(** * Properties *)

(** ** The Python primitives on examples *)

Example strip_example : Py.strip "  57 " = "57".
Proof. reflexivity. Qed.

Example split_example : Py.split "  n1 n2   n3 " = ["n1"; "n2"; "n3"].
Proof. reflexivity. Qed.

Example int_examples :
  Py.int " -1_000 " = Some (-1000) ∧ Py.int "+7" = Some 7 ∧ Py.int "n/" = None
  ∧ Py.int "1__0" = None ∧ Py.int "" = None ∧ Py.int "- 1" = None.
Proof. repeat split; reflexivity. Qed.

(** A unit separator is white space for [strip], and no part of a number
    for [int]. *)
Example int_control_character :
  let s := String (ascii_of_nat 31) "5" in Py.strip s = "5" ∧ Py.int s = None.
Proof. split; reflexivity. Qed.

Example contains_example :
  Py.contains "<diff/>" "  <diff/> " = true ∧ Py.contains "<diff/>" "<diff>" = false.
Proof. split; reflexivity. Qed.

(** The trimming of PartitionAudit drops the last character of a stripped
    answer of more than one character. *)
Example trim_examples :
  PartitionAudit._trim_string "S_IDLE" = Some "S_IDL"
  ∧ PartitionAudit._trim_string "5" = Some "5"
  ∧ PartitionAudit._trim_string "" = None.
Proof. repeat split; reflexivity. Qed.

(** ** The monad *)

Lemma bind_ok {A B} (c : M A) (k : A → M B) st a st' :
  c st = (Ok a, st') → bind c k st = k a st'.
Proof. intros H. unfold bind. by rewrite H. Qed.

Ltac solve_extends := eexists; simpl; rewrite <- ?app_assoc; reflexivity.

Lemma extends_refl st : extends st st.
Proof. exists []. by rewrite app_nil_r. Qed.

Lemma extends_trans st1 st2 st3 : extends st1 st2 → extends st2 st3 → extends st1 st3.
Proof. intros [e1 H1] [e2 H2]. exists (e1 ++ e2). by rewrite H2, H1, app_assoc. Qed.

Lemma extends_In st st' e : extends st st' → In e (trace st) → In e (trace st').
Proof. intros [evs ->] H. apply in_or_app. by left. Qed.

Lemma returns_ex {A} (c : M A) st Q :
  returns c st Q ↔ ∃ a st', c st = (Ok a, st') ∧ Q a st'.
Proof.
  unfold returns, ensures. split.
  - destruct (c st) as [[a|e] st']; [eauto | done].
  - intros (a & st' & -> & H). done.
Qed.

Lemma ensures_ret {A} (a : A) st (Q : A → cm_state → Prop) E :
  Q a st → ensures (ret a) st Q E.
Proof. done. Qed.

Lemma ensures_raise {A} e st (Q : A → cm_state → Prop) (E : exn → cm_state → Prop) :
  E e st → ensures (raise e) st Q E.
Proof. done. Qed.

Lemma ensures_bind {A B} (c : M A) (k : A → M B) st Q E :
  ensures c st (λ a st', ensures (k a) st' Q E) E → ensures (bind c k) st Q E.
Proof.
  unfold ensures, bind. by destruct (c st) as [[a|e] st'].
Qed.

Lemma ensures_mono {A} (c : M A) st (Q Q' : A → cm_state → Prop)
    (E E' : exn → cm_state → Prop) :
  ensures c st Q E → (∀ a st', Q a st' → Q' a st') → (∀ e st', E e st' → E' e st') →
  ensures c st Q' E'.
Proof.
  unfold ensures. destruct (c st) as [[a|e] st']; eauto.
Qed.

Lemma returns_ret {A} (a : A) st (Q : A → cm_state → Prop) :
  Q a st → returns (ret a) st Q.
Proof. done. Qed.

Lemma returns_bind {A B} (c : M A) (k : A → M B) st Q :
  returns c st (λ a st', returns (k a) st' Q) → returns (bind c k) st Q.
Proof. apply ensures_bind. Qed.

Lemma returns_mono {A} (c : M A) st (Q Q' : A → cm_state → Prop) :
  returns c st Q → (∀ a st', Q a st' → Q' a st') → returns c st Q'.
Proof. intros H HQ. eapply ensures_mono; eauto. Qed.

Lemma returns_emit e st (Q : unit → cm_state → Prop) :
  (∀ st', expected_status st' = expected_status st → log_kind st' = log_kind st →
          uuid_count st' = uuid_count st → trace st' = trace st ++ [e] → Q tt st') →
  returns (emit e) st Q.
Proof. intros H. by apply H. Qed.

Lemma ensures_for_each {A S} (I : list A → S → cm_state → Prop) E
    (body : A → S → M S) l s st :
  I l s st →
  (∀ x l' s st, I (x :: l') s st → ensures (body x s) st (I l') E) →
  ensures (for_each l body s) st (I []) E.
Proof.
  intros HI Hbody. revert s st HI.
  induction l as [|x l IH]; intros s st HI; simpl.
  - by apply ensures_ret.
  - apply ensures_bind. eapply ensures_mono; [by apply Hbody| |done].
    intros s' st' HI'. by apply IH.
Qed.

Lemma emits_refl P st : emits P st st.
Proof. exists []. by rewrite app_nil_r. Qed.

Lemma emits_trans P st1 st2 st3 : emits P st1 st2 → emits P st2 st3 → emits P st1 st3.
Proof.
  intros (e1 & H1 & F1) (e2 & H2 & F2). exists (e1 ++ e2).
  split; [by rewrite H2, H1, app_assoc | by apply Forall_app].
Qed.

Lemma emits_mono (P P' : event → Prop) st st' :
  (∀ e, P e → P' e) → emits P st st' → emits P' st st'.
Proof. intros HP (evs & H & F). exists evs. split; [done|]. by eapply Forall_impl. Qed.

Lemma emits_emit (P : event → Prop) e st : P e → emits P st (emit e st).2.
Proof. intros H. exists [e]. split; [done|]. by apply Forall_singleton. Qed.

Lemma returns_emit_emits (P : event → Prop) e st (Q : unit → cm_state → Prop) :
  P e →
  (∀ st', expected_status st' = expected_status st → emits P st st' → Q tt st') →
  returns (emit e) st Q.
Proof. intros HP H. apply H; [done|by apply emits_emit]. Qed.

Lemma returns_lookup node st (Q : option string → cm_state → Prop) :
  Q (expected_status st !! node) st → returns (lookup_expected_status node) st Q.
Proof. done. Qed.

Lemma returns_rsh_emits (P : event → Prop) cm node cmd st
    (Q : Z * list string → cm_state → Prop) :
  P (ERsh node cmd) →
  (∀ st', expected_status st' = expected_status st → emits P st st' →
          Q (rsh_run cm node cmd) st') →
  returns (rsh cm node cmd) st Q.
Proof.
  intros HP H. unfold rsh. apply returns_bind.
  apply (returns_emit_emits P); [done|]. intros st' Es Hem. by apply H.
Qed.

(** ** PartitionAudit *)

Module PartitionProofs.
Import PartitionAudit PartitionView.



Lemma trim2int_run v st :
  match _trim_string v with
  | Some t => bool_decide (is_Some (Py.int t))
  | None => true
  end = true →
  _trim2int v st = (Ok (_trim_string v ≫= Py.int), st).
Proof.
  unfold _trim2int. destruct (_trim_string v) as [t|]; [|done].
  intros [z Hz]%bool_decide_eq_true. simpl.
  destruct (Py.truthy_str t) eqn:Et.
  - unfold to_int, bind. by rewrite Hz.
  - destruct t; [|done]. done.
Qed.

Lemma collect_returns cm node self lowest st :
  is_Some (expected_status st !! node) → answers cm node = true →
  returns (collect cm node (self, lowest)) st (λ r st',
    r = (seen cm node self, lowest_with cm node lowest)
    ∧ expected_status st' = <[node := status_after cm node]> (expected_status st)
    ∧ extends st st'
    ∧ (has_epoch cm node = false → In (ELog (MDisappeared node)) (trace st'))).
Proof.
  intros [s Hs] Hans. unfold answers in Hans.
  repeat (apply andb_prop in Hans as [Hans ?]).
  repeat match goal with H : bool_decide _ = true |- _ => apply bool_decide_eq_true in H end.
  unfold seen, lowest_with, status_after, has_epoch, observed_epoch, observed_state,
    observed_quorum, trimmed_epoch in *.
  unfold answer in *.
  destruct (rsh_run cm node (StatusCmd cm node)) as [rc1 [|l1 out1]] eqn:E1;
    [by destruct Hans|].
  destruct (rsh_run cm node (EpochCmd cm)) as [rc2 [|l2 out2]] eqn:E2;
    [by destruct H1|].
  destruct (rsh_run cm node (QuorumCmd cm)) as [rc3 [|l3 out3]] eqn:E3;
    [by destruct H0|].
  simpl in *.
  unfold returns, ensures, collect, bind, get_expected_status, rsh, when, log, debug, emit, ret,
    first, set_expected_status, bind.
  rewrite Hs, E1, E2, E3. simpl.
  destruct (negb (s =? "up")%string) eqn:Eup; simpl;
    rewrite trim2int_run by done; simpl;
    destruct (no_epoch (_trim_string (Py.strip l2) ≫= Py.int)) eqn:Ene; simpl;
    try destruct (lower _ lowest); simpl;
    (split; [done|]); (split; [|split; [solve_extends|]]);
    rewrite ?insert_insert_eq; try done;
    try (intros _; apply in_or_app; right; by left).
  all: apply negb_false_iff, String.eqb_eq in Eup as ->.
  all: by rewrite insert_id.
Qed.

Lemma auditable_cons cm st node l :
  auditable cm st (node :: l) →
  is_Some (expected_status st !! node) ∧ answers cm node = true ∧ auditable cm st l.
Proof.
  intros H. destruct (H node) as [? ?]; [by left|].
  split; [done|]. split; [done|]. intros n Hn. apply H. by right.
Qed.

Lemma auditable_insert cm st st' node s l :
  expected_status st' = <[node := s]> (expected_status st) →
  auditable cm st l → auditable cm st' l.
Proof.
  intros E H n Hn. destruct (H n Hn) as [Hs ?]. split; [|done].
  rewrite E. destruct (decide (node = n)) as [->|Hne].
  - rewrite lookup_insert_eq. by eexists.
  - by rewrite lookup_insert_ne.
Qed.

(** The first loop. *)
Lemma collect_loop cm l self lowest st :
  auditable cm st l →
  returns (for_each l (collect cm) (self, lowest)) st (λ r st',
    r = (fold_left (λ d node, seen cm node d) l self,
         fold_left (λ lo node, lowest_with cm node lo) l lowest)
    ∧ expected_status st'
      = fold_left (λ m node, <[node := status_after cm node]> m) l (expected_status st)
    ∧ extends st st').
Proof.
  revert self lowest st. induction l as [|node l IH]; intros self lowest st Ha; simpl.
  - apply returns_ret. repeat split; try done. apply extends_refl.
  - apply auditable_cons in Ha as (Hs & Hans & Ha).
    apply returns_bind. eapply returns_mono; [by apply collect_returns|].
    intros r st' (-> & Es & Hext & _). simpl.
    eapply returns_mono; [apply IH; by eapply auditable_insert|].
    intros r st'' (-> & Es' & Hext'). rewrite Es', Es.
    repeat split; try done. by eapply extends_trans.
Qed.

(** *** What the first loop leaves *)

Lemma fold_insert_In {V} (f : string → V) l (m : gmap string V) k :
  In k l → fold_left (λ m node, <[node := f node]> m) l m !! k = Some (f k).
Proof.
  revert m. induction l as [|x l IH]; intros m; [done|]. simpl.
  destruct (in_dec String.string_dec k l) as [Hin|Hnin]; [intros _; by apply IH|].
  intros [->|?]; [|done].
  clear IH. revert m. induction l as [|y l IH]; intros m; simpl.
  - by rewrite lookup_insert_eq.
  - destruct (decide (y = k)) as [->|Hne]; [exfalso; apply Hnin; by left|].
    rewrite insert_insert_ne by done. apply IH. intros ?. apply Hnin. by right.
Qed.

Lemma seen_fold_epoch cm l self :
  _node_epoch (fold_left (λ d node, seen cm node d) l self)
  = fold_left (λ m node, <[node := observed_epoch cm node]> m) l (_node_epoch self).
Proof. revert self. induction l; intros; simpl; [done|]. by rewrite IHl. Qed.

Lemma seen_fold_state cm l self :
  _node_state (fold_left (λ d node, seen cm node d) l self)
  = fold_left (λ m node, <[node := observed_state cm node]> m) l (_node_state self).
Proof. revert self. induction l; intros; simpl; [done|]. by rewrite IHl. Qed.

Lemma has_epoch_Some cm node :
  has_epoch cm node = true ↔ ∃ e, observed_epoch cm node = Some e ∧ e ≠ 0.
Proof.
  unfold has_epoch, no_epoch, Py.truthy_opt, Py.truthy_int.
  destruct (observed_epoch cm node) as [e|]; simpl.
  - rewrite negb_involutive, negb_true_iff, Z.eqb_neq. split; [eauto|].
    by intros (? & [= <-] & ?).
  - split; [done|]. by intros (? & ? & ?).
Qed.

Lemma In_up_nodes cm l node :
  In node (up_nodes cm l) ↔ In node l ∧ has_epoch cm node = true.
Proof. apply filter_In. Qed.

Lemma lowest_with_up cm node lo e :
  observed_epoch cm node = Some e → e ≠ 0 →
  lowest_with cm node lo = if lower (Some e) lo then Some e else lo.
Proof.
  intros He Hne. unfold lowest_with. rewrite He.
  unfold no_epoch, Py.truthy_opt, Py.truthy_int.
  by apply Z.eqb_neq in Hne as ->.
Qed.

Lemma lowest_with_down cm node lo :
  has_epoch cm node = false → lowest_with cm node lo = lo.
Proof.
  unfold has_epoch, lowest_with. intros H%negb_false_iff. by rewrite H.
Qed.

Lemma up_nodes_none cm l :
  (∀ node, In node l → has_epoch cm node = false) → up_nodes cm l = [].
Proof.
  unfold up_nodes. induction l as [|n l IH]; intros H; [done|]. simpl.
  rewrite H by (by left). apply IH. intros. apply H. by right.
Qed.

(** The lowest epoch after the loop, started from [lo]. *)
Lemma lowest_fold cm l lo :
  (∀ x, lo = Some x → x ≠ 0) →
  let r := fold_left (λ lo node, lowest_with cm node lo) l lo in
  (r = None ↔ lo = None ∧ up_nodes cm l = [])
  ∧ ∀ m, r = Some m →
      m ≠ 0
      ∧ (lo = Some m ∨ ∃ node, In node (up_nodes cm l) ∧ observed_epoch cm node = Some m)
      ∧ (∀ x, lo = Some x → m ≤ x)
      ∧ (∀ node e, In node (up_nodes cm l) → observed_epoch cm node = Some e → m ≤ e).
Proof.
  revert lo. induction l as [|node l IH]; intros lo Hlo; simpl.
  - split; [split; [done|by intros [? _]]|]. intros m ->. split; [by apply Hlo|].
    split; [by left|]. split; [by intros x [= ->]|]. by intros ? ? [].
  - unfold up_nodes in *. simpl.
    destruct (has_epoch cm node) eqn:Eh; simpl.
    + apply has_epoch_Some in Eh as (e & Ee & Hne).
      rewrite (lowest_with_up _ _ _ e) by done.
      destruct (lower (Some e) lo) eqn:El.
      * destruct (IH (Some e)) as [IH1 IH2]; [by intros x [= <-]|].
        split; [split; [intros H%IH1; by destruct H | by intros [_ ?]]|].
        intros m Hm. destruct (IH2 m Hm) as (? & Hor & Hle & Hall).
        split; [done|]. split.
        { right. destruct Hor as [[= <-]|(n & ? & ?)]; [exists node|exists n];
            split; try done; [by left | by right]. }
        split.
        { intros x ->. simpl in El. apply Z.ltb_lt in El. specialize (Hle e eq_refl). lia. }
        intros n e' [<-|Hin] He'; [|by eapply Hall].
        rewrite Ee in He'. injection He' as <-. by apply Hle.
      * destruct lo as [x|]; [|done]. simpl in El. apply Z.ltb_ge in El.
        destruct (IH (Some x)) as [IH1 IH2]; [done|].
        split; [split; [intros H%IH1; by destruct H | by intros [? _]]|].
        intros m Hm. destruct (IH2 m Hm) as (? & Hor & Hle & Hall).
        split; [done|]. split.
        { destruct Hor as [?|(n & ? & ?)]; [by left|]. right. exists n. split; [by right|done]. }
        split; [done|].
        intros n e' [<-|Hin] He'; [|by eapply Hall].
        rewrite Ee in He'. injection He' as <-. specialize (Hle x eq_refl). lia.
    + rewrite lowest_with_down by done. by apply IH.
Qed.

(** *** The second loop and the verdict *)

Lemma collected_cons cm self st node l :
  collected cm self st (node :: l) →
  collected cm self st [node] ∧ collected cm self st l.
Proof.
  intros H. split; intros n Hn; apply H; [destruct Hn as [->|[]]; by left | by right].
Qed.

Lemma collected_status cm self st st' l :
  expected_status st' = expected_status st →
  collected cm self st l → collected cm self st' l.
Proof. intros E H n Hn. rewrite E. by apply H. Qed.

Lemma status_after_up cm node :
  (status_after cm node =? "up")%string = has_epoch cm node.
Proof. unfold status_after. by destruct (has_epoch cm node). Qed.

Lemma check_dc_returns cm self lowest node passed dc_found st :
  collected cm self st [node] →
  (has_epoch cm node = true → no_epoch lowest = false) →
  returns (check_dc cm self lowest node (passed, dc_found)) st (λ r st',
    r = (if has_epoch cm node && is_node_dc cm node (observed_state cm node)
         then (passed && holds_lowest cm lowest node, dc_found ++ [node])
         else (passed, dc_found))
    ∧ expected_status st' = expected_status st ∧ extends st st').
Proof.
  intros Hc Hlow. destruct (Hc node) as (Hs & Hst & Hep); [by left|].
  unfold returns, ensures, check_dc, bind, get_expected_status, dict_get. rewrite Hs.
  rewrite status_after_up.
  destruct (has_epoch cm node) eqn:Eh; simpl;
    [|split; [done|split; [done|apply extends_refl]]].
  rewrite Hst. simpl.
  destruct (is_node_dc cm node (observed_state cm node)); simpl;
    [|split; [done|split; [done|apply extends_refl]]].
  rewrite Hep. simpl. unfold holds_lowest.
  destruct (bool_decide (observed_epoch cm node = lowest)); simpl.
  { rewrite andb_true_r. split; [done|split; [done|solve_extends]]. }
  unfold has_epoch in Eh. apply negb_true_iff in Eh. rewrite Eh.
  rewrite Hlow by done. simpl. rewrite andb_false_r.
  split; [done|split; [done|solve_extends]].
Qed.

Lemma check_dc_loop cm self lowest l passed dc_found st :
  collected cm self st l →
  (∀ node, In node l → has_epoch cm node = true → no_epoch lowest = false) →
  returns (for_each l (check_dc cm self lowest) (passed, dc_found)) st (λ r st',
    r = (passed && forallb (holds_lowest cm lowest) (leaders cm l),
         dc_found ++ leaders cm l)
    ∧ expected_status st' = expected_status st ∧ extends st st').
Proof.
  revert passed dc_found st.
  induction l as [|node l IH]; intros passed dc_found st Hc Hlow; simpl.
  - apply returns_ret. rewrite andb_true_r, app_nil_r.
    split; [done|split; [done|apply extends_refl]].
  - apply collected_cons in Hc as [Hc1 Hc].
    apply returns_bind. eapply returns_mono.
    { apply check_dc_returns; [done|]. apply Hlow. by left. }
    intros r st' (-> & Es & Hext).
    unfold leaders, up_nodes. simpl.
    destruct (has_epoch cm node) eqn:Eh; simpl;
      [destruct (is_node_dc cm node (observed_state cm node)) eqn:Edc; simpl|].
    all: eapply returns_mono;
      [apply IH; [by eapply collected_status | intros; eapply Hlow; [by right|done]]|].
    all: intros r st'' (-> & Es' & Hext'); unfold leaders, up_nodes.
    all: split; [|split; [congruence | by eapply extends_trans]].
    + by rewrite <- app_assoc, andb_assoc.
    + done.
    + done.
Qed.

Lemma dump_loop cm self l st :
  collected cm self st l →
  returns (for_each l (dump self) tt) st (λ _ st',
    expected_status st' = expected_status st ∧ extends st st').
Proof.
  revert st. induction l as [|node l IH]; intros st Hc; simpl.
  - apply returns_ret. split; [done|apply extends_refl].
  - apply collected_cons in Hc as [Hc1 Hc].
    destruct (Hc1 node) as (Hs & Hst & Hep); [by left|].
    apply returns_bind.
    assert (returns (dump self node tt) st (λ _ st',
              expected_status st' = expected_status st ∧ extends st st')) as Hd.
    { unfold returns, ensures, dump, bind, get_expected_status, dict_get. rewrite Hs.
      destruct (status_after cm node =? "up")%string; simpl;
        [|split; [done|apply extends_refl]].
      rewrite Hep, Hst. simpl. split; [done|solve_extends]. }
    eapply returns_mono; [exact Hd|].
    intros [] st' [Es Hext].
    eapply returns_mono; [apply IH; by eapply collected_status|].
    intros _ st'' [Es' Hext']. split; [congruence | by eapply extends_trans].
Qed.

Lemma verdict_returns cm partition l self lowest st :
  collected cm self st l →
  (∀ node, In node l → has_epoch cm node = true → no_epoch lowest = false) →
  returns (verdict cm partition l self lowest) st (λ passed st',
    passed = negb (no_epoch lowest)
             && forallb (holds_lowest cm lowest) (leaders cm l)
             && (length (leaders cm l) <=? 1)%nat
    ∧ extends st st'
    ∧ (leaders cm l = [] → In (ELog (MDcNotFound [] l)) (trace st'))
    ∧ (no_epoch lowest = true →
       In (ELog (MLowestEpochNotDetermined partition)) (trace st'))).
Proof.
  intros Hc Hlow. unfold verdict.
  apply returns_bind.
  set (Q := λ (p : bool) (st' : cm_state),
         p = negb (no_epoch lowest) ∧ expected_status st' = expected_status st
         ∧ extends st st'
         ∧ (no_epoch lowest = true →
            In (ELog (MLowestEpochNotDetermined partition)) (trace st'))).
  assert (returns (if no_epoch lowest
                   then log (MLowestEpochNotDetermined partition);; ret false
                   else ret true) st Q) as H1.
  { unfold Q. destruct (no_epoch lowest); simpl.
    - unfold returns, ensures, bind, log, emit, ret. simpl.
      split; [done|split; [done|split; [solve_extends|]]].
      intros _. apply in_or_app. right. by left.
    - apply returns_ret. split; [done|split; [done|split; [apply extends_refl|done]]]. }
  eapply returns_mono; [exact H1|]. clear H1. unfold Q. clear Q.
  intros p st1 (-> & Es1 & Hext1 & Hlog1).
  apply returns_bind. eapply returns_mono.
  { apply check_dc_loop; [by eapply collected_status|done]. }
  intros r st2 (-> & Es2 & Hext2). simpl.
  apply returns_bind.
  set (p := negb (no_epoch lowest) && forallb (holds_lowest cm lowest) (leaders cm l)).
  set (Q := λ (q : bool) (st' : cm_state),
         q = p && (length (leaders cm l) <=? 1)%nat
         ∧ expected_status st' = expected_status st2 ∧ extends st2 st'
         ∧ (leaders cm l = [] → In (ELog (MDcNotFound [] l)) (trace st'))).
  assert (returns
            (if negb (Py.truthy_list (leaders cm l))
             then log (MDcNotFound [] l);; ret p
             else if (1 <? length (leaders cm l))%nat
                  then log (MManyDcs (leaders cm l) l);; ret false
                  else ret p) st2 Q) as H2.
  { unfold Q. destruct (leaders cm l) as [|d [|d' ds]]; simpl.
    - unfold returns, ensures, bind, log, emit, ret. simpl. rewrite andb_true_r.
      split; [done|split; [done|split; [solve_extends|]]].
      intros _. apply in_or_app. right. by left.
    - apply returns_ret. rewrite andb_true_r.
      split; [done|split; [done|split; [apply extends_refl|done]]].
    - unfold returns, ensures, bind, log, emit, ret. simpl. rewrite andb_false_r.
      split; [done|split; [done|split; [solve_extends|done]]]. }
  eapply returns_mono; [exact H2|]. clear H2. unfold Q. clear Q.
  intros q st3 (-> & Es3 & Hext3 & Hlog3).
  assert (extends st st3) as Hext by eauto using extends_trans.
  apply returns_bind.
  assert (returns (if negb (p && (length (leaders cm l) <=? 1)%nat)
                   then for_each l (dump self) tt else ret tt) st3
            (λ _ st', extends st3 st')) as H3.
  { destruct (negb (p && _)).
    - eapply returns_mono; [apply (dump_loop cm)|by intros ? ? [_ ?]].
      eapply collected_status; [|exact Hc]. congruence.
    - apply returns_ret, extends_refl. }
  eapply returns_mono; [exact H3|]. clear H3.
  intros u st4 Hext4. apply returns_ret.
  split; [done|]. split; [by eapply extends_trans|].
  simpl in Hext4. split; intros.
  - eapply extends_In; [exact Hext4|]. by apply Hlog3.
  - eapply extends_In; [|by apply Hlog1]. eauto using extends_trans.
Qed.

Lemma collected_fold cm l self st :
  collected cm (fold_left (λ d node, seen cm node d) l self)
    {| expected_status :=
         fold_left (λ m node, <[node := status_after cm node]> m) l (expected_status st);
       log_kind := log_kind st; uuid_count := uuid_count st; trace := trace st |} l.
Proof.
  intros node Hin. simpl. rewrite seen_fold_state, seen_fold_epoch.
  by rewrite !fold_insert_In.
Qed.

(** The leader rule of the audit, on the epochs as the audit reads them
    ([observed_epoch], the answers without their last character): in a
    partition whose nodes all answer, among the nodes expected up after the
    first loop (those for which an epoch was read), more than one leader
    fails the audit; with exactly one leader the audit fails exactly when
    the epoch read for the leader differs from the minimum of the epochs
    read; with no leader the absence is logged, and the audit fails only if
    no epoch was read.  On epochs of one digit these are the epochs
    reported; on longer ones they are not. *)
Theorem audit_partition_leader cm self st partition :
  let node_list := Py.split partition in
  auditable cm st node_list →
  ∃ passed self' st',
    _audit_partition cm self partition st = (Ok (passed, self'), st')
    ∧ ((1 < length (leaders cm node_list))%nat → passed = false)
    ∧ (∀ leader, leaders cm node_list = [leader] →
         ∃ m, minimum_epoch cm node_list m
              ∧ (passed = false ↔ observed_epoch cm leader ≠ Some m))
    ∧ (leaders cm node_list = [] →
         In (ELog (MDcNotFound [] node_list)) (trace st')
         ∧ (passed = false ↔ up_nodes cm node_list = [])).
Proof.
  intros node_list Ha.
  cut (returns (_audit_partition cm self partition) st (λ r st',
         ((1 < length (leaders cm node_list))%nat → r.1 = false)
         ∧ (∀ leader, leaders cm node_list = [leader] →
              ∃ m, minimum_epoch cm node_list m
                   ∧ (r.1 = false ↔ observed_epoch cm leader ≠ Some m))
         ∧ (leaders cm node_list = [] →
              In (ELog (MDcNotFound [] node_list)) (trace st')
              ∧ (r.1 = false ↔ up_nodes cm node_list = [])))).
  { intros ([passed self'] & st' & E & H)%returns_ex. by exists passed, self', st'. }
  unfold _audit_partition. fold node_list.
  apply returns_bind. apply returns_emit. intros st1 Es1 _ _ _.
  apply returns_bind. eapply returns_mono.
  { apply collect_loop. intros n Hn. rewrite Es1. by apply Ha. }
  intros r st2 (-> & Es2 & _). simpl.
  set (lowest := fold_left (λ lo node, lowest_with cm node lo) node_list None).
  destruct (lowest_fold cm node_list None) as [Hnone Hsome]; [done|]. fold lowest in Hnone, Hsome.
  apply returns_bind. eapply returns_mono.
  { apply verdict_returns.
    - intros n Hn. destruct (collected_fold cm node_list self st1 n Hn) as (? & ? & ?).
      simpl in *. rewrite Es2. done.
    - intros n Hn Hup. destruct lowest as [m|] eqn:El.
      + destruct (Hsome m eq_refl) as (Hm & _).
        unfold no_epoch, Py.truthy_opt, Py.truthy_int. by apply Z.eqb_neq in Hm as ->.
      + destruct Hnone as [Hnone _]. destruct (Hnone eq_refl) as [_ Hemp].
        assert (In n (up_nodes cm node_list)) as Hin by by apply In_up_nodes.
        rewrite Hemp in Hin. destruct Hin. }
  intros passed st3 (-> & _ & Hdc & _). apply returns_ret. simpl.
  split; [|split].
  - intros Hlen. apply Nat.leb_gt in Hlen. rewrite Hlen. by rewrite andb_false_r.
  - intros leader Hl. rewrite Hl. simpl. rewrite !andb_true_r.
    assert (In leader (up_nodes cm node_list)) as Hin.
    { assert (In leader (leaders cm node_list)) as H by (rewrite Hl; by left).
      unfold leaders in H. by apply filter_In in H as [? _]. }
    destruct lowest as [m|] eqn:El.
    + destruct (Hsome m eq_refl) as (Hm & [?|Hex] & _ & Hmin); [done|].
      exists m. split; [by split|].
      unfold no_epoch, Py.truthy_opt, Py.truthy_int. apply Z.eqb_neq in Hm as ->. simpl.
      unfold holds_lowest. rewrite bool_decide_eq_false. done.
    + destruct Hnone as [Hnone _]. destruct (Hnone eq_refl) as [_ Hemp].
      rewrite Hemp in Hin. destruct Hin.
  - intros Hl. split; [by apply Hdc|]. rewrite Hl. simpl. rewrite !andb_true_r.
    destruct lowest as [m|] eqn:El.
    + destruct (Hsome m eq_refl) as (Hm & [?|(n & Hin & _)] & _); [done|].
      unfold no_epoch, Py.truthy_opt, Py.truthy_int. apply Z.eqb_neq in Hm as ->. simpl.
      split; [done|]. intros Hemp. rewrite Hemp in Hin. destruct Hin.
    + destruct Hnone as [Hnone _]. destruct (Hnone eq_refl) as [_ Hemp]. done.
Qed.


(** *** An epoch of 0 *)

Lemma check_dc_keeps cm self lowest node passed dc_found st :
  ensures (check_dc cm self lowest node (passed, dc_found)) st
    (λ r st', extends st st' ∧ (passed = false → r.1 = false))
    (λ _ st', extends st st').
Proof.
  unfold ensures, check_dc, bind, get_expected_status, dict_get.
  destruct (expected_status st !! node) as [s|]; simpl; [|apply extends_refl].
  destruct (negb (s =? "up")%string); simpl; [split; [apply extends_refl|done]|].
  destruct (_node_state self !! node) as [state|]; simpl; [|apply extends_refl].
  destruct (is_node_dc cm node state); simpl; [|split; [apply extends_refl|done]].
  destruct (_node_epoch self !! node) as [epoch|]; simpl; [|apply extends_refl].
  destruct (bool_decide (epoch = lowest)); simpl; [split; [solve_extends|done]|].
  destruct (no_epoch epoch); simpl; [split; [solve_extends|done]|].
  destruct (no_epoch lowest); simpl; split; try solve_extends; done.
Qed.

Lemma dump_keeps self node st :
  ensures (dump self node tt) st (λ _ st', extends st st') (λ _ st', extends st st').
Proof.
  unfold ensures, dump, bind, get_expected_status, dict_get.
  destruct (expected_status st !! node) as [s|]; simpl; [|apply extends_refl].
  destruct (s =? "up")%string; simpl; [|apply extends_refl].
  destruct (_node_epoch self !! node) as [epoch|]; simpl; [|apply extends_refl].
  destruct (_node_state self !! node) as [state|]; simpl; [|apply extends_refl].
  solve_extends.
Qed.

Lemma verdict_zero cm partition node_list self st :
  ensures (verdict cm partition node_list self (Some 0)) st
    (λ passed st', passed = false
       ∧ In (ELog (MLowestEpochNotDetermined partition)) (trace st'))
    (λ _ st', In (ELog (MLowestEpochNotDetermined partition)) (trace st')).
Proof.
  unfold verdict. simpl.
  apply ensures_bind. unfold ensures at 1. simpl.
  set (st1 := {| expected_status := expected_status st; log_kind := log_kind st;
                 uuid_count := uuid_count st;
                 trace := trace st ++ [ELog (MLowestEpochNotDetermined partition)] |}).
  assert (In (ELog (MLowestEpochNotDetermined partition)) (trace st1)) as Hlog.
  { simpl. apply in_or_app. right. by left. }
  apply ensures_bind.
  eapply ensures_mono.
  { apply (ensures_for_each
             (λ _ (s : bool * list string) st', extends st1 st' ∧ s.1 = false)
             (λ _ st', extends st1 st')).
    - split; [apply extends_refl|done].
    - intros x l' [p dc] st' [Hext Hp]. simpl in Hp. subst p.
      eapply ensures_mono; [apply check_dc_keeps| |].
      + intros r st'' [Hext' Hr]. split; [by eapply extends_trans|by apply Hr].
      + intros e st'' Hext'. by eapply extends_trans. }
  2: { intros e st' Hext. eapply extends_In; [exact Hext|exact Hlog]. }
  intros [p dc] st2 [Hext2 Hp]. simpl in Hp. subst p.
  apply ensures_bind.
  assert (ensures
            (if negb (Py.truthy_list dc) then log (MDcNotFound [] node_list);; ret false
             else if (1 <? length dc)%nat then log (MManyDcs dc node_list);; ret false
                  else ret false) st2
            (λ q st', q = false ∧ extends st1 st') (λ _ st', extends st1 st')) as H.
  { destruct (negb (Py.truthy_list dc)); [|destruct (1 <? length dc)%nat];
      unfold ensures, bind, log, emit, ret; simpl; (split; [done|]);
      try done; (eapply extends_trans; [exact Hext2|solve_extends]). }
  eapply ensures_mono; [exact H| |].
  2: { intros e st' Hext. eapply extends_In; [exact Hext|exact Hlog]. }
  clear H. intros q st3 [-> Hext3]. simpl.
  apply ensures_bind. eapply ensures_mono.
  { apply (ensures_for_each (λ _ (_ : unit) st', extends st1 st') (λ _ st', extends st1 st')).
    - exact Hext3.
    - intros x l' [] st' Hext. eapply ensures_mono; [apply dump_keeps| |];
        intros; by eapply extends_trans. }
  - intros [] st4 Hext4. apply ensures_ret. split; [done|eapply extends_In; [exact Hext4|exact Hlog]].
  - intros e st' Hext. eapply extends_In; [exact Hext|exact Hlog].
Qed.

(** C10: a node whose epoch parses to 0 is handled as one without epoch:
    the first loop logs that it disappeared, sets its expected status to
    "down" and leaves [lowest_epoch] as it was, so the node is not among
    those the minimum is taken over; a lowest epoch of 0 makes the audit
    log that the lowest epoch was not determined and fail; and so does a
    partition where every epoch is 0 or missing. *)
Theorem zero_epoch_is_no_epoch cm node self lowest_epoch st :
  is_Some (expected_status st !! node) → answers cm node = true →
  observed_epoch cm node = Some 0 →
  (∃ self' st',
     collect cm node (self, lowest_epoch) st = (Ok (self', lowest_epoch), st')
     ∧ expected_status st' !! node = Some "down"
     ∧ In (ELog (MDisappeared node)) (trace st'))
  ∧ ¬ In node (up_nodes cm [node])
  ∧ (∀ partition node_list self st,
       ∃ r st', verdict cm partition node_list self (Some 0) st = (r, st')
         ∧ In (ELog (MLowestEpochNotDetermined partition)) (trace st')
         ∧ ∀ passed, r = Ok passed → passed = false)
  ∧ ∀ partition self st,
      auditable cm st (Py.split partition) →
      (∀ node, In node (Py.split partition) →
         observed_epoch cm node = Some 0 ∨ observed_epoch cm node = None) →
      ∃ self' st',
        _audit_partition cm self partition st = (Ok (false, self'), st')
        ∧ In (ELog (MLowestEpochNotDetermined partition)) (trace st').
Proof.
  intros Hs Hans He.
  assert (has_epoch cm node = false) as Hno by (unfold has_epoch; by rewrite He).
  split; [|split; [|split]].
  - pose proof (collect_returns cm node self lowest_epoch st Hs Hans) as H.
    apply returns_ex in H as ([self' lo] & st' & E & [= -> ->] & Es & _ & Hlog).
    exists (seen cm node self), st'. rewrite lowest_with_down in E by done.
    split; [done|]. split; [|by apply Hlog].
    rewrite Es. unfold status_after. rewrite Hno. by rewrite lookup_insert_eq.
  - rewrite In_up_nodes. rewrite Hno. by intros [_ ?].
  - clear. intros partition node_list self st.
    pose proof (verdict_zero cm partition node_list self st) as H.
    unfold ensures in H.
    destruct (verdict cm partition node_list self (Some 0) st) as [r st'].
    exists r, st'. split; [done|]. destruct r as [p|e].
    + destruct H as [-> H]. split; [done|]. by intros ? [= <-].
    + split; [done|]. by intros ? [=].
  - clear. intros partition self st Ha Hall.
    assert (∀ n, In n (Py.split partition) → has_epoch cm n = false) as Hdown.
    { intros n Hn. unfold has_epoch. by destruct (Hall n Hn) as [-> | ->]. }
    cut (returns (_audit_partition cm self partition) st (λ r st',
           r.1 = false ∧ In (ELog (MLowestEpochNotDetermined partition)) (trace st'))).
    { intros ([passed self'] & st' & E & Hp & Hlog)%returns_ex. simpl in Hp. subst.
      by exists self', st'. }
    unfold _audit_partition.
    apply returns_bind. apply returns_emit. intros st1 Es1 _ _ _.
    apply returns_bind. eapply returns_mono.
    { apply collect_loop. intros n Hn. rewrite Es1. by apply Ha. }
    intros r st2 (-> & Es2 & _). simpl.
    assert (fold_left (λ lo n, lowest_with cm n lo) (Py.split partition) None = None) as ->.
    { apply (lowest_fold cm (Py.split partition) None); [done|]. split; [done|].
      by apply up_nodes_none. }
    apply returns_bind. eapply returns_mono.
    { apply verdict_returns.
      - intros n Hn.
        destruct (collected_fold cm (Py.split partition) self st1 n Hn) as (? & ? & ?).
        simpl in *. rewrite Es2. done.
      - intros n Hn Hup. rewrite Hdown in Hup by done. done. }
    intros passed st3 (-> & _ & _ & Hlog). apply returns_ret. simpl.
    split; [done|]. by apply Hlog.
Qed.

End PartitionProofs.

(** ** Runs of the partition audit on the example clusters *)

Module PartitionRuns.
Import PartitionAudit PartitionView Examples.

Example leader_at_5_passes :
  verdict_of (_audit_partition leader_at_5 init "n1 n2 n3" three_up) = Ok true.
Proof. vm_compute. reflexivity. Qed.

Example leader_at_7_fails :
  verdict_of (_audit_partition leader_at_7 init "n1 n2 n3" three_up) = Ok false.
Proof. vm_compute. reflexivity. Qed.

Example silent_epoch_raises :
  verdict_of (_audit_partition silent_epoch init "n1 n2 n3" three_up) = Raise IndexError.
Proof. vm_compute. reflexivity. Qed.

Example garbled_epoch_raises :
  verdict_of (_audit_partition garbled_epoch init "n1 n2 n3" three_up)
  = Raise (ValueError (InvalidLiteral "n/")).
Proof. vm_compute. reflexivity. Qed.

Ltac auditable_by_computation :=
  intros node Hin; vm_compute in Hin;
  repeat (destruct Hin as [<-|Hin]; [split; [by eexists | by vm_compute]|]);
  destruct Hin.

(** The leader rule on the cluster with epochs 5, 5 and 7 and the leader
    at 5. *)
Lemma audit_partition_leader_witness :
  auditable leader_at_5 three_up (Py.split "n1 n2 n3")
  ∧ ∃ passed self' st',
      _audit_partition leader_at_5 init "n1 n2 n3" three_up = (Ok (passed, self'), st')
      ∧ ((1 < length (leaders leader_at_5 (Py.split "n1 n2 n3")))%nat → passed = false)
      ∧ (∀ leader, leaders leader_at_5 (Py.split "n1 n2 n3") = [leader] →
           ∃ m, minimum_epoch leader_at_5 (Py.split "n1 n2 n3") m
                ∧ (passed = false ↔ observed_epoch leader_at_5 leader ≠ Some m))
      ∧ (leaders leader_at_5 (Py.split "n1 n2 n3") = [] →
           In (ELog (MDcNotFound [] (Py.split "n1 n2 n3"))) (trace st')
           ∧ (passed = false ↔ up_nodes leader_at_5 (Py.split "n1 n2 n3") = [])).
Proof.
  assert (auditable leader_at_5 three_up (Py.split "n1 n2 n3")) as H
    by auditable_by_computation.
  split; [exact H|].
  exact (PartitionProofs.audit_partition_leader leader_at_5 init three_up "n1 n2 n3" H).
Defined.

(** The zero epoch theorem on the cluster where n2 gives the epoch 0. *)
Lemma zero_epoch_is_no_epoch_witness :
  (∃ self' st',
     collect zero_epoch "n2" (init, Some 5) three_up = (Ok (self', Some 5), st')
     ∧ expected_status st' !! "n2" = Some "down"
     ∧ In (ELog (MDisappeared "n2")) (trace st'))
  ∧ ¬ In "n2" (up_nodes zero_epoch ["n2"])
  ∧ (∀ partition node_list self st,
       ∃ r st', verdict zero_epoch partition node_list self (Some 0) st = (r, st')
         ∧ In (ELog (MLowestEpochNotDetermined partition)) (trace st')
         ∧ ∀ passed, r = Ok passed → passed = false)
  ∧ ∀ partition self st,
      auditable zero_epoch st (Py.split partition) →
      (∀ node, In node (Py.split partition) →
         observed_epoch zero_epoch node = Some 0 ∨ observed_epoch zero_epoch node = None) →
      ∃ self' st',
        _audit_partition zero_epoch self partition st = (Ok (false, self'), st')
        ∧ In (ELog (MLowestEpochNotDetermined partition)) (trace st').
Proof.
  apply (PartitionProofs.zero_epoch_is_no_epoch zero_epoch "n2" init (Some 5) three_up).
  - by eexists.
  - by vm_compute.
  - by vm_compute.
Defined.

(** C1: the nodes report the epochs 50, 50 and 57 and n3, at 57, is the sole
    leader: the leader's epoch is above the minimum, 50, and the audit
    passes all the same.  It reads every epoch without its last digit, as
    5, finds the leader at the lowest epoch, logs no stale leader and
    returns True.  With the epochs 5, 5 and 7 the same leader fails the
    audit. *)
Theorem stale_leader_passes :
  Py.split "n1 n2 n3" = ["n1"; "n2"; "n3"]
  ∧ map (reported_epoch stale_leader) ["n1"; "n2"; "n3"] = [Some 50; Some 50; Some 57]
  ∧ leaders stale_leader ["n1"; "n2"; "n3"] = ["n3"]
  ∧ map (observed_epoch stale_leader) ["n1"; "n2"; "n3"] = [Some 5; Some 5; Some 5]
  ∧ verdict_of (_audit_partition stale_leader init "n1 n2 n3" three_up) = Ok true
  ∧ (∀ epoch lowest,
       ¬ In (ELog (MDcNotOldest "n3" epoch lowest))
           (trace (_audit_partition stale_leader init "n1 n2 n3" three_up).2))
  ∧ map (reported_epoch leader_at_7) ["n1"; "n2"; "n3"] = [Some 5; Some 5; Some 7]
  ∧ leaders leader_at_7 ["n1"; "n2"; "n3"] = ["n3"]
  ∧ verdict_of (_audit_partition leader_at_7 init "n1 n2 n3" three_up) = Ok false.
Proof.
  repeat split; try (vm_compute; reflexivity).
  intros epoch lowest H. vm_compute in H.
  repeat (destruct H as [H|H]; [discriminate H|]). exact H.
Qed.

(** C4: [_audit_partition] raises where a query gives no output (IndexError
    from [out[0]]), where the epoch is no number (ValueError from [int]),
    and where a node of the partition has no expected status (KeyError). *)
Theorem audit_partition_raises :
  verdict_of (_audit_partition silent_epoch init "n1 n2 n3" three_up) = Raise IndexError
  ∧ verdict_of (_audit_partition garbled_epoch init "n1 n2 n3" three_up)
    = Raise (ValueError (InvalidLiteral "n/"))
  ∧ verdict_of (_audit_partition leader_at_5 init "n1 n2 n3"
                  (state [("n1", "up"); ("n2", "up")]))
    = Raise (KeyError "n3").
Proof. repeat split; vm_compute; reflexivity. Qed.

(** Only n2 answers, with the epoch 0: the lowest epoch is not determined. *)
Example zero_epoch_alone :
  ∃ self' st',
    _audit_partition zero_epoch init "n2" three_up = (Ok (false, self'), st')
    ∧ In (ELog (MLowestEpochNotDetermined "n2")) (trace st')
    ∧ expected_status st' !! "n2" = Some "down".
Proof.
  eexists _, _. split; [vm_compute; reflexivity|]. split; [|by vm_compute].
  simpl. auto 10.
Qed.

End PartitionRuns.

(** ** audit_list *)

Lemma audit_list_filter cm (classes : list (ClusterManager → ClusterAudit)) result :
  fold_left
    (λ result auditclass,
       let a := auditclass cm in
       if is_applicable a then result ++ [a] else result)
    classes result
  = result ++ List.filter is_applicable (map (λ auditclass, auditclass cm) classes).
Proof.
  revert result. induction classes as [|c classes IH]; intros result; simpl.
  - by rewrite app_nil_r.
  - rewrite IH. destruct (is_applicable (c cm)); [|done]. by rewrite <- app_assoc.
Qed.

(** C8: for every cluster manager the primitive, group, clone, colocation,
    controller state, CIB and partition audits are not applicable and are
    not in [audit_list]; [audit_list] is the catalog filtered by
    [is_applicable], in the order of the catalog. *)
Theorem audit_list_applicable cm :
  (∀ auditclass,
     In auditclass [PrimitiveAudit.new; GroupAudit.new; CloneAudit.new;
                    ColocationAudit.new; ControllerStateAudit.new; CIBAudit.new;
                    PartitionAudit.new] →
     is_applicable (auditclass cm) = false ∧ ¬ In (auditclass cm) (audit_list cm))
  ∧ audit_list cm
    = List.filter is_applicable (map (λ auditclass, auditclass cm) audit_classes)
  ∧ map name (audit_list cm)
    = "DiskspaceAudit" :: "FileAudit"
        :: (if env_LogAuditDisabled cm then [] else ["LogAudit"]).
Proof.
  assert (audit_list cm
          = List.filter is_applicable (map (λ auditclass, auditclass cm) audit_classes))
    as E by apply audit_list_filter.
  split; [|split; [exact E|]].
  - intros auditclass Hin.
    assert (is_applicable (auditclass cm) = false) as Hno.
    { simpl in Hin. repeat (destruct Hin as [<-|Hin]; [done|]). destruct Hin. }
    split; [done|]. rewrite E. intros [_ Hyes]%filter_In. congruence.
  - rewrite E. simpl. by destruct (env_LogAuditDisabled cm).
Qed.

(** ** PrimitiveAudit *)

Module PrimitiveProofs.
Import PrimitiveAudit Examples.

(** The quorum test compares the field, a string, with the integer 1. *)
Lemma needs_quorum_never_1 (needs_quorum : string) :
  Py.eq (Py.VStr needs_quorum) (Py.VInt 1) = false.
Proof. done. Qed.

(** A resource with exactly one active location passes, with or without
    quorum. *)
Lemma one_location_passes cm self resource quorum st :
  length (resource_location cm (AuditResource.id resource)) = 1%nat →
  ∃ st', _audit_resource cm self resource quorum st = (Ok true, st').
Proof.
  intros H. unfold _audit_resource. rewrite H. simpl.
  destruct quorum; simpl; eauto.
Qed.

(** A managed resource active on more than one node fails exactly when it
    is unique. *)
Lemma many_locations cm self resource quorum st :
  (1 < length (resource_location cm (AuditResource.id resource)))%nat →
  Py.truthy_int (AuditResource.managed resource) = true →
  ∃ st', _audit_resource cm self resource quorum st
         = (Ok (negb (Py.truthy_int (AuditResource.unique resource))), st').
Proof.
  intros H Hm. unfold _audit_resource.
  assert ((length (resource_location cm (AuditResource.id resource)) =? 1)%nat = false)
    as -> by (apply Nat.eqb_neq; lia).
  rewrite Hm. simpl. apply Nat.ltb_lt in H. rewrite H.
  destruct (Py.truthy_int (AuditResource.unique resource)); simpl; eauto.
Qed.

(** C2: rsc1 is managed, needs quorum and is active on one node of a
    cluster without quorum, and the audit of the resource and the whole
    PrimitiveAudit return True. *)
Theorem active_without_quorum_passes :
  (∃ self' st' rsc1,
     _setup active_without_quorum "PrimitiveAudit" init three_up = (Ok (true, self'), st')
     ∧ _resources self' = [rsc1]
     ∧ AuditResource.type rsc1 = "primitive"
     ∧ AuditResource.needs_quorum rsc1 = "1"
     ∧ Py.truthy_int (AuditResource.managed rsc1) = true
     ∧ resource_location active_without_quorum (AuditResource.id rsc1) = ["n1"]
     ∧ has_quorum active_without_quorum = false
     ∧ (_audit_resource active_without_quorum self' rsc1 false st').1 = Ok true)
  ∧ ∃ self' st', __call__ active_without_quorum init three_up = (Ok (true, self'), st').
Proof.
  split.
  - eexists _, _, _. split; [vm_compute; reflexivity|]. by vm_compute.
  - eexists _, _. vm_compute. reflexivity.
Qed.

End PrimitiveProofs.

(** ** CIBAudit *)

Module CIBProofs.
Import CIBAudit CIBView Examples.

Lemma store_remote_cib_returns cm node target st :
  returns (_store_remote_cib cm node target) st (λ r _,
    r = if produces cm node target then Some (filename_of node) else None).
Proof.
  unfold _store_remote_cib, produces.
  apply returns_bind. unfold rsh at 1. apply returns_bind, returns_emit.
  intros st1 _ _ _ _. apply returns_ret.
  destruct (rsh_run cm node (CibQuery cm)) as [rc lines]. simpl.
  destruct (rc =? 0); simpl; [|by apply returns_bind, returns_emit].
  apply returns_bind. unfold rsh at 1. apply returns_bind, returns_emit.
  intros st2 _ _ _ _. apply returns_ret.
  apply returns_bind.
  eapply returns_mono.
  { apply (ensures_for_each (λ _ _ _, True)); [done|].
    intros line l' [] st' _. apply returns_bind. unfold rsh.
    by apply returns_bind, returns_emit. }
  intros [] st3 _. apply returns_bind. unfold copy.
  apply returns_bind, returns_emit. intros st4 _ _ _ _. apply returns_ret.
  destruct (rsh_copy cm _ _ =? 0); simpl; [done|].
  by apply returns_bind, returns_emit.
Qed.

Lemma diff_lines_returns node0 node lines passed st :
  returns (for_each lines (diff_line node0 node) passed) st (λ r _,
    r = passed && only_marker lines).
Proof.
  revert passed st. induction lines as [|line lines IH]; intros passed st; simpl.
  - apply returns_ret. by rewrite andb_true_r.
  - apply returns_bind. unfold diff_line.
    destruct (Py.contains "<diff/>" line); simpl.
    + apply returns_bind, returns_emit. intros st' _ _ _ _. apply returns_ret.
      eapply returns_mono; [apply IH|]. by intros r _ ->.
    + apply returns_bind, returns_emit. intros st' _ _ _ _. apply returns_ret.
      eapply returns_mono; [apply IH|]. intros r _ ->. by rewrite andb_false_r.
Qed.

(** Once the audit has failed, the remaining hosts leave it failed. *)
Lemma audit_hosts_failed cm hosts s st :
  passed s = false →
  returns (for_each hosts (audit_host cm) s) st (λ s' _, passed s' = false).
Proof.
  revert s st. induction hosts as [|node hosts IH]; intros s st Hp; simpl.
  - by apply returns_ret.
  - apply returns_bind. unfold audit_host. apply returns_bind.
    eapply returns_mono; [apply store_remote_cib_returns|].
    intros r st1 ->.
    destruct (produces cm node (node0 s)); simpl.
    + destruct (node0 s) as [n0|] eqn:E0; [destruct (node0_xml s) as [x0|] eqn:E1|].
      * apply returns_bind. unfold rsh. apply returns_bind, returns_emit.
        intros st2 _ _ _ _. apply returns_ret.
        destruct (rsh_run cm n0 _) as [rc lines]. simpl.
        apply returns_bind.
        assert (returns (if negb (rc =? 0)
                         then log (MDiffFailed x0 (filename_of node) rc);; ret false
                         else ret (passed s)) st2 (λ p _, p = false)) as H.
        { destruct (negb (rc =? 0)); [by apply returns_bind, returns_emit|done]. }
        eapply returns_mono; [exact H|]. intros p st3 ->.
        apply returns_bind. eapply returns_mono; [apply diff_lines_returns|].
        intros p st4 ->. simpl. apply returns_ret. by apply IH.
      * apply returns_bind, returns_emit. intros st2 _ _ _ _. apply returns_ret.
        by apply IH.
      * apply returns_ret. by apply IH.
    + apply returns_bind, returns_emit. intros st2 _ _ _ _. apply returns_ret.
      by apply IH.
Qed.

(** The hosts after the reference node. *)
Lemma audit_hosts_after cm n0 hosts p st :
  returns (for_each hosts (audit_host cm)
             {| passed := p; node0 := Some n0; node0_xml := Some (filename_of n0) |}) st
    (λ s' _, passed s'
             = p && forallb (λ node, produces cm node (Some n0)
                                     && ((diff_of cm n0 node).1 =? 0)
                                     && only_marker (diff_of cm n0 node).2) hosts).
Proof.
  revert p st. induction hosts as [|node hosts IH]; intros p st; simpl.
  - apply returns_ret. simpl. by rewrite andb_true_r.
  - apply returns_bind. unfold audit_host. apply returns_bind.
    eapply returns_mono; [apply store_remote_cib_returns|].
    intros r st1 ->. simpl.
    destruct (produces cm node (Some n0)); simpl.
    + apply returns_bind. unfold rsh. apply returns_bind, returns_emit.
      intros st2 _ _ _ _. apply returns_ret. unfold diff_of.
      destruct (rsh_run cm n0 _) as [rc lines]. simpl.
      apply returns_bind.
      assert (returns (if negb (rc =? 0)
                       then log (MDiffFailed (filename_of n0) (filename_of node) rc);;
                            ret false
                       else ret p) st2 (λ q _, q = p && (rc =? 0))) as H.
      { destruct (rc =? 0); simpl.
        - apply returns_ret. by rewrite andb_true_r.
        - apply returns_bind, returns_emit. intros. apply returns_ret.
          by rewrite andb_false_r. }
      eapply returns_mono; [exact H|]. intros q st3 ->.
      apply returns_bind. eapply returns_mono; [apply diff_lines_returns|].
      intros q st4 ->. apply returns_ret.
      eapply returns_mono; [apply IH|]. intros s' _ ->. by rewrite !andb_assoc.
    + apply returns_bind, returns_emit. intros st2 _ _ _ _. apply returns_ret.
      eapply returns_mono; [apply IH|]. intros s' _ ->. by rewrite andb_false_r.
Qed.

Lemma audit_cib_contents_returns cm hostlist st :
  returns (_audit_cib_contents cm hostlist) st (λ r _,
    r = consistent cm (Py.split hostlist)).
Proof.
  unfold _audit_cib_contents. apply returns_bind.
  destruct (Py.split hostlist) as [|n0 hosts]; simpl; [by apply returns_ret|].
  apply returns_bind. unfold audit_host at 1. apply returns_bind.
  eapply returns_mono; [apply store_remote_cib_returns|].
  intros r st1 ->. simpl.
  destruct (produces cm n0 None); simpl.
  - apply returns_ret. eapply returns_mono; [apply audit_hosts_after|].
    intros s' st2 E. by apply returns_ret.
  - apply returns_bind, returns_emit. intros st2 _ _ _ _. apply returns_ret.
    eapply returns_mono; [by apply audit_hosts_failed|].
    intros s' st3 E. by apply returns_ret.
Qed.

(** C5, amended: the audit of a partition returns, and it returns True
    exactly when every node produces its configuration document and, for
    every node after the reference node, crm_diff exits with status 0 and
    every line of its output has the marker <diff/>. *)
Theorem cib_partition_passes cm hostlist st :
  ∃ passed st',
    _audit_cib_contents cm hostlist st = (Ok passed, st')
    ∧ (passed = true ↔
       match Py.split hostlist with
       | [] => True
       | node0 :: rest =>
           produces cm node0 None = true
           ∧ ∀ node, In node rest →
               produces cm node (Some node0) = true
               ∧ (diff_of cm node0 node).1 = 0
               ∧ ∀ line, In line (diff_of cm node0 node).2 →
                   Py.contains "<diff/>" line = true
       end).
Proof.
  pose proof (audit_cib_contents_returns cm hostlist st) as H.
  apply returns_ex in H as (passed & st' & E & ->).
  exists (consistent cm (Py.split hostlist)), st'. split; [done|].
  unfold consistent, only_marker. destruct (Py.split hostlist) as [|n0 rest]; [done|].
  rewrite andb_true_iff, forallb_forall. split.
  - intros [H0 H]. split; [done|]. intros node Hin.
    apply H in Hin. rewrite !andb_true_iff, forallb_forall, Z.eqb_eq in Hin.
    by destruct Hin as [[? ?] ?].
  - intros [H0 H]. split; [done|]. intros node Hin.
    apply H in Hin as (? & ? & ?).
    rewrite !andb_true_iff, forallb_forall, Z.eqb_eq. done.
Qed.

(** Without the exit status the rule fails: both nodes produce their
    documents and the output of crm_diff has no line without the marker,
    but crm_diff exits with status 1 and the audit returns False. *)
Lemma cib_failing_diff_counterexample :
  passes_as_specified failing_diff (Py.split "n1 n2") = true
  ∧ (_audit_cib_contents failing_diff "n1 n2" (state [])).1 = Ok false.
Proof. split; vm_compute; reflexivity. Qed.

End CIBProofs.

(** ** DiskAudit *)

Module DiskProofs.
Import DiskAudit DiskView Examples.

Lemma invalid_ensures cm node dfout s st0 st :
  crit cm node = false → warn cm node = false → extends st0 st →
  (bound s ∨ two_fields cm node = false) →
  ensures (invalid dfout node s) st
    (probed cm node (result s) st0) (λ e _, probe_raised cm node e).
Proof.
  intros Hc Hw Hext Hb. unfold invalid, bound in *.
  destruct (used s) as [u|] eqn:Eu; [destruct (remain s) as [r|] eqn:Er|].
  - apply ensures_bind. unfold ensures, log, emit, ret. simpl.
    unfold probed. rewrite Hc, Hw, andb_true_r.
    repeat split; try done. eapply extends_trans; [exact Hext|solve_extends].
  - apply ensures_raise. right. split; [by eexists|].
    destruct Hb as [[_ [? ?]]|?]; done.
  - apply ensures_raise. right. split; [by eexists|].
    destruct Hb as [[[? ?] _]|?]; done.
Qed.

Lemma classify_ensures cm node used_percent remaining_mb s st0 st :
  reading cm node = Some (used_percent, remaining_mb) → extends st0 st →
  ensures (classify cm node used_percent remaining_mb s) st
    (probed cm node (result s) st0) (λ e _, probe_raised cm node e).
Proof.
  intros Hr Hext. unfold classify, probed, probe_raised, crit, warn. rewrite Hr.
  destruct ((remaining_mb <? 10) || (95 <? used_percent)) eqn:Ec; simpl.
  - apply ensures_bind. unfold ensures at 1, log, emit, ret. simpl.
    destruct (should_continue cm) eqn:Esc; simpl.
    + apply ensures_ret. simpl. rewrite andb_false_r.
      repeat split; try done. eapply extends_trans; [exact Hext|solve_extends].
    + apply ensures_raise. by left.
  - rewrite andb_true_r.
    destruct ((remaining_mb <? 100) || (90 <? used_percent)) eqn:Ew; simpl.
    + apply ensures_bind. unfold ensures, log, emit, ret. simpl.
      repeat split; try done.
      * eapply extends_trans; [exact Hext|solve_extends].
      * intros _. exists used_percent, remaining_mb. split; [done|].
        apply in_or_app. right. by left.
    + apply ensures_ret. repeat split; try done.
Qed.

Lemma probe_ensures cm node s st :
  ensures (probe cm node s) st
    (probed cm node (result s) st) (λ e _, probe_raised cm node e).
Proof.
  unfold probe. apply ensures_bind. unfold rsh. apply ensures_bind.
  unfold ensures at 1. simpl. apply ensures_ret.
  set (st1 := {| expected_status := expected_status st; log_kind := log_kind st;
                 uuid_count := uuid_count st;
                 trace := trace st ++ [ERsh node (dfcmd cm)] |}).
  assert (extends st st1) as Hext1 by solve_extends.
  destruct (rsh_run cm node (dfcmd cm)) as [rc dfout] eqn:Erun.
  assert (fields cm node = match dfout with
                           | [] => None
                           | line :: _ => Some (Py.split (Py.strip line))
                           end) as Ef by (unfold fields; by rewrite Erun).
  destruct dfout as [|line dfout]; simpl.
  { apply ensures_bind. unfold ensures, log, emit, ret. simpl.
    unfold probed, crit, warn, reading. rewrite Ef. rewrite andb_true_r.
    repeat split; try done. solve_extends. }
  apply ensures_bind, ensures_ret.
  destruct (Py.split (Py.strip line)) as [|u [|r [|x l]]] eqn:Esp.
  1, 2, 4: apply invalid_ensures;
    [unfold crit, reading; by rewrite Ef | unfold warn, reading; by rewrite Ef | done
    | right; unfold two_fields; by rewrite Ef].
  destruct (Py.int u) as [used_percent|] eqn:Eu;
    [destruct (Py.int r) as [remaining_mb|] eqn:Er|].
  - apply (classify_ensures cm node used_percent remaining_mb
             {| result := result s; used := Some u; remain := Some r |} st st1); [|done].
    unfold reading. by rewrite Ef, Eu, Er.
  - apply (invalid_ensures cm node _
             {| result := result s; used := Some u; remain := Some r |} st st1);
      [| |done|left; split; by eexists].
    + unfold crit, reading. by rewrite Ef, Eu, Er.
    + unfold warn, reading. by rewrite Ef, Eu, Er.
  - apply (invalid_ensures cm node _
             {| result := result s; used := Some u; remain := Some r |} st st1);
      [| |done|left; split; by eexists].
    + unfold crit, reading. by rewrite Ef, Eu.
    + unfold warn, reading. by rewrite Ef, Eu.
Qed.

(** The loop over the nodes. *)
Lemma probes_ensure cm nodes s st :
  ensures (for_each nodes (probe cm) s) st
    (λ s' st',
       result s' = result s && forallb (λ node, negb (crit cm node)) nodes
       ∧ (∀ node, In node nodes → crit cm node = true → should_continue cm = true)
       ∧ extends st st'
       ∧ ∀ node, In node nodes → warn cm node = true →
           ∃ used_percent remaining_mb,
             reading cm node = Some (used_percent, remaining_mb)
             ∧ In (ELog (MWarnDisk remaining_mb node)) (trace st'))
    (λ e _, ∃ node, In node nodes ∧ probe_raised cm node e).
Proof.
  revert s st. induction nodes as [|node nodes IH]; intros s st; simpl.
  - apply ensures_ret. rewrite andb_true_r.
    split; [done|]. split; [by intros ? []|]. split; [apply extends_refl|by intros ? []].
  - apply ensures_bind. eapply ensures_mono; [apply probe_ensures| |].
    + intros s1 st1 (Hr & Hc & Hext & Hw).
      eapply ensures_mono; [apply IH| |].
      * intros s2 st2 (Hr2 & Hc2 & Hext2 & Hw2).
        split; [by rewrite Hr2, Hr, andb_assoc|].
        split; [intros n [<-|Hin] ?; eauto|].
        split; [by eapply extends_trans|].
        intros n [<-|Hin] Hwn; [|by eauto].
        destruct (Hw Hwn) as (u & mb & ? & ?). exists u, mb. split; [done|].
        by eapply extends_In.
      * intros e st2 (n & Hin & Hn). exists n. split; [by right|done].
    + intros e st1 He. exists node. split; [by left|done].
Qed.

Lemma forallb_negb_false {A} (p : A → bool) l :
  forallb (λ x, negb (p x)) l = false ↔ ∃ x, In x l ∧ p x = true.
Proof.
  induction l as [|a l IH]; simpl.
  - split; [done|]. by intros (? & [] & _).
  - rewrite andb_false_iff, IH, negb_false_iff. split.
    + intros [?|(x & ? & ?)]; [exists a|exists x]; auto.
    + intros (x & [<-|?] & ?); [by left|right; by exists x].
Qed.

Lemma crit_two_fields cm node : crit cm node = true → two_fields cm node = true.
Proof.
  unfold crit, reading, two_fields.
  by destruct (fields cm node) as [[|u [|r [|x l]]]|].
Qed.

Lemma call_ensures cm st :
  ensures (__call__ cm) st
    (λ r st',
       r = forallb (λ node, negb (crit cm node)) (env_nodes cm)
       ∧ (∀ node, In node (env_nodes cm) → crit cm node = true → should_continue cm = true)
       ∧ ∀ node, In node (env_nodes cm) → warn cm node = true →
           ∃ used_percent remaining_mb,
             reading cm node = Some (used_percent, remaining_mb)
             ∧ In (ELog (MWarnDisk remaining_mb node)) (trace st'))
    (λ e _, ∃ node, In node (env_nodes cm) ∧ probe_raised cm node e).
Proof.
  unfold __call__. apply ensures_bind. unfold ensures at 1. simpl.
  apply ensures_bind. eapply ensures_mono; [apply probes_ensure| |done].
  intros s st' (Hr & Hc & _ & Hw). apply ensures_ret. simpl in Hr. done.
Qed.

(** C6: when the disk audit returns, it returns False exactly when the
    parsed probe of some node is critical (less than 10 MB remaining or
    more than 95% used), and a warning is logged for every node that is only
    low (less than 100 MB or more than 90%); when a node is critical and
    [should_continue] gives False, the audit does not return but raises, and
    the probe of the critical node raises ValueError("Disk full on ..."); the
    audit returns when every probe gives no output or two fields and no
    critical node stops it. *)
Theorem disk_audit_verdict cm st :
  (∀ r st', __call__ cm st = (Ok r, st') →
     (r = false ↔ ∃ node, In node (env_nodes cm) ∧ crit cm node = true)
     ∧ ∀ node, In node (env_nodes cm) → warn cm node = true →
         crit cm node = false
         ∧ ∃ used_percent remaining_mb,
             reading cm node = Some (used_percent, remaining_mb)
             ∧ In (ELog (MWarnDisk remaining_mb node)) (trace st'))
  ∧ (should_continue cm = false →
     (∃ node, In node (env_nodes cm) ∧ crit cm node = true) →
     ∃ e st', __call__ cm st = (Raise e, st')
       ∧ ((∀ node, In node (env_nodes cm) → two_fields cm node = true) →
          ∃ node, In node (env_nodes cm) ∧ crit cm node = true
                  ∧ e = ValueError (DiskFull node)))
  ∧ (∀ node s st0, crit cm node = true → should_continue cm = false →
     ∃ st', probe cm node s st0 = (Raise (ValueError (DiskFull node)), st'))
  ∧ ((∀ node, In node (env_nodes cm) → two_fields cm node = true) →
     (should_continue cm = true ∨ ∀ node, In node (env_nodes cm) → crit cm node = false) →
     ∃ r st', __call__ cm st = (Ok r, st')).
Proof.
  pose proof (call_ensures cm st) as H. unfold ensures in H.
  split; [|split; [|split]].
  - intros r st' E. rewrite E in H. destruct H as (-> & _ & Hw). split.
    + apply forallb_negb_false.
    + intros node Hin Hwn. split; [|by apply Hw].
      unfold warn, crit in *. destruct (reading cm node) as [[u mb]|]; [|done].
      by apply andb_prop in Hwn as [->%negb_true_iff _].
  - intros Hsc (node & Hin & Hc).
    destruct (__call__ cm st) as [[r|e] st'].
    + destruct H as (_ & Hall & _). rewrite (Hall node Hin Hc) in Hsc. done.
    + exists e, st'. split; [done|]. intros Htwo.
      destruct H as (n & Hn & [(-> & ? & _)|[_ Hf]]).
      * by exists n.
      * rewrite (Htwo n Hn) in Hf. done.
  - intros node s st0 Hc Hsc.
    pose proof (probe_ensures cm node s st0) as Hp. unfold ensures in Hp.
    destruct (probe cm node s st0) as [[s'|e] st'].
    + destruct Hp as (_ & Hall & _). rewrite (Hall Hc) in Hsc. done.
    + exists st'. destruct Hp as [(-> & _)|[_ Hf]]; [done|].
      rewrite (crit_two_fields _ _ Hc) in Hf. done.
  - intros Htwo Hgo. destruct (__call__ cm st) as [[r|e] st']; [by eauto|].
    destruct H as (n & Hn & [(_ & Hc & Hsc)|[_ Hf]]).
    + destruct Hgo as [Hgo|Hgo]; [congruence|]. rewrite (Hgo n Hn) in Hc. done.
    + rewrite (Htwo n Hn) in Hf. done.
Qed.

Example disk_full_fails :
  (__call__ disk_full three_up).1 = Ok false.
Proof. vm_compute. reflexivity. Qed.

Example disk_full_stop_raises :
  (__call__ disk_full_stop three_up).1 = Raise (ValueError (DiskFull "n3")).
Proof. vm_compute. reflexivity. Qed.

(** A probe that does not split into two fields, on the first node: the
    handler reads [used] before it is bound. *)
Example df_garbled_raises :
  (__call__ df_garbled three_up).1 = Raise (UnboundLocalError "used").
Proof. vm_compute. reflexivity. Qed.

(** The disk theorem on the cluster where n2 is low and n3 is full. *)
Lemma disk_audit_verdict_witness :
  (∃ e st', __call__ disk_full_stop three_up = (Raise e, st')
     ∧ ((∀ node, In node (env_nodes disk_full_stop) → two_fields disk_full_stop node = true) →
        ∃ node, In node (env_nodes disk_full_stop) ∧ crit disk_full_stop node = true
                ∧ e = ValueError (DiskFull node)))
  ∧ (∃ st', probe disk_full_stop "n3" {| result := true; used := None; remain := None |}
              three_up = (Raise (ValueError (DiskFull "n3")), st'))
  ∧ ∃ r st', __call__ disk_full three_up = (Ok r, st').
Proof.
  split; [|split].
  - apply (proj1 (proj2 (disk_audit_verdict disk_full_stop three_up))); [reflexivity|].
    exists "n3". split; [right; right; by left | by vm_compute].
  - apply (proj1 (proj2 (proj2 (disk_audit_verdict disk_full_stop three_up))));
      [by vm_compute | reflexivity].
  - apply (proj2 (proj2 (proj2 (disk_audit_verdict disk_full three_up)))).
    + intros node Hin. vm_compute in Hin.
      repeat (destruct Hin as [<-|Hin]; [by vm_compute|]). destruct Hin.
    + by left.
Defined.

End DiskProofs.

(** ** FileAudit *)

Module FileProofs.
Import FileAudit FileView Examples.

Lemma reported_in_mono known known' e :
  incl known known' → reported_in known e → reported_in known' e.
Proof. intros Hi H tool node line E. apply Hi. by eapply H. Qed.

(** The loop of [_find_core_on_fs] over the lines. *)
Lemma find_lines_first node tool lsout found known st :
  returns
    (for_each lsout
       (λ line '(found, known),
          let line := Py.strip line in
          if bool_decide (line ∈ known) then ret (found, known)
          else log (MCoreFile tool node line) ;; ret (true, known ++ [line]))
       (found, known)) st
    (λ r st',
       incl known r.2
       ∧ (∀ line, In line (map Py.strip lsout) → In line r.2)
       ∧ expected_status st' = expected_status st
       ∧ emits (reported_in r.2) st st').
Proof.
  revert found known st. induction lsout as [|line lsout IH]; intros found known st; simpl.
  - apply returns_ret. simpl. split; [apply incl_refl|]. split; [by intros ? []|].
    split; [done|apply emits_refl].
  - apply returns_bind. destruct (bool_decide (Py.strip line ∈ known)) eqn:Ed.
    + apply returns_ret. eapply returns_mono; [apply IH|].
      intros [f k] st' (Hi & Hall & Es & Hem). simpl in *.
      split; [done|]. split; [|done].
      intros l [<-|Hl]; [|by apply Hall].
      apply Hi. by apply bool_decide_eq_true, list_elem_of_In in Ed.
    + apply returns_bind. unfold log. apply returns_emit.
      intros st1 Es1 _ _ Et1. apply returns_ret.
      eapply returns_mono; [apply IH|].
      intros [f k] st' (Hi & Hall & Es & Hem). simpl in *.
      assert (In (Py.strip line) k) as Hin by (apply Hi, in_or_app; right; by left).
      split; [intros x Hx; apply Hi, in_or_app; by left|].
      split; [intros l [<-|Hl]; [done|by apply Hall]|].
      split; [congruence|].
      eapply emits_trans; [|exact Hem].
      exists [ELog (MCoreFile tool node (Py.strip line))]. split; [done|].
      apply Forall_singleton. by intros ? ? ? [= _ _ <-].
Qed.

Lemma find_lines_again node tool lsout found known st :
  (∀ line, In line (map Py.strip lsout) → In line known) →
  returns
    (for_each lsout
       (λ line '(found, known),
          let line := Py.strip line in
          if bool_decide (line ∈ known) then ret (found, known)
          else log (MCoreFile tool node line) ;; ret (true, known ++ [line]))
       (found, known)) st
    (λ r st', r = (found, known) ∧ st' = st).
Proof.
  revert st. induction lsout as [|line lsout IH]; intros st Hall; simpl.
  - by apply returns_ret.
  - apply returns_bind.
    assert (bool_decide (Py.strip line ∈ known) = true) as ->.
    { apply bool_decide_eq_true, list_elem_of_In, Hall. by left. }
    apply returns_ret. apply IH. intros l Hl. apply Hall. by right.
Qed.

Lemma find_core_first cm known node path tool st :
  returns (_find_core_on_fs cm known node path tool) st
    (λ r st',
       incl known r.2
       ∧ (∀ line, In line (core_lines cm node path) → In line r.2)
       ∧ expected_status st' = expected_status st
       ∧ emits (reported_in r.2) st st').
Proof.
  unfold _find_core_on_fs, core_lines. apply returns_bind. unfold rsh.
  apply returns_bind, returns_emit. intros st1 Es1 _ _ Et1. apply returns_ret.
  destruct (rsh_run cm node _) as [rc lsout]. simpl.
  eapply returns_mono; [apply find_lines_first|].
  intros r st' (Hi & Hall & Es & Hem). split; [done|]. split; [done|].
  split; [congruence|]. eapply emits_trans; [|exact Hem].
  eexists. split; [exact Et1|]. apply Forall_singleton. by intros ? ? ? [=].
Qed.

Lemma find_core_again cm known node path tool st :
  (∀ line, In line (core_lines cm node path) → In line known) →
  returns (_find_core_on_fs cm known node path tool) st
    (λ r st',
       r = (false, known)
       ∧ expected_status st' = expected_status st
       ∧ emits (λ e, is_core_report e = false) st st').
Proof.
  intros Hall. unfold _find_core_on_fs, core_lines in *. apply returns_bind. unfold rsh.
  apply returns_bind, returns_emit. intros st1 Es1 _ _ Et1. apply returns_ret.
  destruct (rsh_run cm node _) as [rc lsout]. simpl in *.
  eapply returns_mono; [by apply find_lines_again|].
  intros r st' [-> ->]. split; [done|]. split; [done|].
  eexists. split; [exact Et1|]. by apply Forall_singleton.
Qed.

Lemma stale_loop (P : event → Prop) node lsout result clean st :
  (∀ e, is_core_report e = false → P e) →
  returns (for_each lsout (stale node) (result, clean)) st
    (λ r st', r = match lsout with [] => (result, clean) | _ => (false, true) end
              ∧ expected_status st' = expected_status st
              ∧ emits P st st').
Proof.
  intros HP. revert result clean st.
  induction lsout as [|line lsout IH]; intros result clean st; simpl.
  - apply returns_ret. split; [done|]. split; [done|apply emits_refl].
  - apply returns_bind. unfold stale. apply returns_bind. unfold log.
    apply (returns_emit_emits P); [by apply HP|]. intros st1 Es1 Hem1.
    apply returns_ret. eapply returns_mono; [apply IH|].
    intros r st' (-> & Es & Hem). split; [by destruct lsout|].
    split; [congruence|by eapply emits_trans].
Qed.

Lemma debug_loop (P : event → Prop) node lsout st :
  (∀ e, is_core_report e = false → P e) →
  returns (for_each lsout (λ line _, debug (MPs node line)) tt) st
    (λ _ st', expected_status st' = expected_status st ∧ emits P st st').
Proof.
  intros HP. revert st. induction lsout as [|line lsout IH]; intros st; simpl.
  - apply returns_ret. split; [done|apply emits_refl].
  - apply returns_bind. unfold debug.
    apply (returns_emit_emits P); [by apply HP|]. intros st1 Es1 Hem1.
    eapply returns_mono; [apply IH|].
    intros r st' (Es & Hem). split; [congruence|by eapply emits_trans].
Qed.

Lemma stale_ipc_returns (P : event → Prop) cm node result st :
  (∀ e, is_core_report e = false → P e) →
  returns (stale_ipc cm node result) st
    (λ r st',
       r = result && negb (stale_on cm st node)
       ∧ expected_status st' = expected_status st
       ∧ emits P st st').
Proof.
  intros HP. unfold stale_ipc, stale_on, stale_lines.
  apply returns_bind, returns_lookup.
  destruct (bool_decide (expected_status st !! node = Some "down")); simpl.
  - apply returns_bind. unfold rsh. apply returns_bind.
    apply (returns_emit_emits P); [by apply HP|]. intros st1 Es1 Hem1. apply returns_ret.
    destruct (rsh_run cm node _) as [rc lsout]. simpl.
    apply returns_bind. eapply returns_mono; [by apply (stale_loop P)|].
    intros r st2 (-> & Es2 & Hem2).
    destruct lsout as [|line lsout]; simpl.
    + apply returns_bind, returns_ret, returns_ret. rewrite andb_true_r.
      split; [done|]. split; [congruence|by eapply emits_trans].
    + apply returns_bind. apply returns_bind.
      apply (returns_rsh_emits P); [by apply HP|]. intros st3 Es3 Hem3.
      destruct (rsh_run cm node _) as [rc' lsout']. simpl.
      apply returns_bind. eapply returns_mono; [by apply (debug_loop P)|].
      intros [] st4 (Es4 & Hem4). apply returns_bind.
      apply (returns_rsh_emits P); [by apply HP|]. intros st5 Es5 Hem5.
      apply returns_ret, returns_ret. rewrite andb_false_r.
      split; [done|]. split; [congruence|].
      repeat (eapply emits_trans; [eassumption|]). apply emits_refl.
  - apply returns_bind. unfold debug.
    apply (returns_emit_emits P); [by apply HP|]. intros st1 Es1 Hem1.
    apply returns_ret. rewrite andb_true_r. done.
Qed.

Lemma quiet_reported known e : is_core_report e = false → reported_in known e.
Proof. intros H tool node line ->. done. Qed.

(** One node, in the first run. *)
Lemma audit_node_first cm node result known st :
  returns (audit_node cm node (result, known)) st
    (λ r st',
       incl known r.2
       ∧ (∀ path line, In path core_paths → In line (core_lines cm node path) →
            In line r.2)
       ∧ expected_status st' = expected_status st
       ∧ emits (reported_in r.2) st st').
Proof.
  unfold audit_node. apply returns_bind.
  eapply returns_mono; [apply find_core_first|].
  intros [found1 known1] st1 (Hi1 & Hall1 & Es1 & Hem1). simpl in *.
  apply returns_bind. eapply returns_mono; [apply find_core_first|].
  intros [found2 known2] st2 (Hi2 & Hall2 & Es2 & Hem2). simpl in *.
  apply returns_bind.
  eapply returns_mono; [apply (stale_ipc_returns (reported_in known2)), quiet_reported|].
  intros r st3 (_ & Es3 & Hem3). apply returns_ret. simpl.
  split; [by eapply incl_tran|].
  split.
  { intros path line [<-|[<-|[]]] Hl; [apply Hi2|]; eauto. }
  split; [congruence|].
  eapply emits_trans; [|eapply emits_trans; [exact Hem2|exact Hem3]].
  eapply emits_mono; [|exact Hem1]. intros e. by apply reported_in_mono.
Qed.

(** One node, when its core files are known. *)
Lemma audit_node_again cm node result known st :
  (∀ path line, In path core_paths → In line (core_lines cm node path) →
     In line known) →
  returns (audit_node cm node (result, known)) st
    (λ r st',
       r = (result && negb (stale_on cm st node), known)
       ∧ expected_status st' = expected_status st
       ∧ emits (λ e, is_core_report e = false) st st').
Proof.
  intros Hall. unfold audit_node. apply returns_bind.
  eapply returns_mono; [apply find_core_again|].
  { intros line. apply Hall. by left. }
  intros r st1 (-> & Es1 & Hem1).
  apply returns_bind. eapply returns_mono; [apply find_core_again|].
  { intros line. apply Hall. right. by left. }
  intros r st2 (-> & Es2 & Hem2).
  apply returns_bind.
  eapply returns_mono; [by apply (stale_ipc_returns (λ e, is_core_report e = false))|].
  intros r st3 (-> & Es3 & Hem3). apply returns_ret.
  unfold stale_on. rewrite Es2, Es1.
  split; [done|]. split; [congruence|].
  eapply emits_trans; [exact Hem1|]. by eapply emits_trans.
Qed.

Lemma stale_status cm st st' nodes :
  expected_status st' = expected_status st →
  forallb (λ node, negb (stale_on cm st' node)) nodes
  = forallb (λ node, negb (stale_on cm st node)) nodes.
Proof. intros E. unfold stale_on. by rewrite E. Qed.

(** The loop over the nodes. *)
Lemma audit_nodes_first cm nodes result known st :
  returns (for_each nodes (audit_node cm) (result, known)) st
    (λ r st',
       incl known r.2 ∧ covered cm nodes r.2
       ∧ expected_status st' = expected_status st
       ∧ emits (reported_in r.2) st st').
Proof.
  revert result known st. induction nodes as [|node nodes IH]; intros result known st; simpl.
  - apply returns_ret. split; [apply incl_refl|]. split; [by intros ? ? ? []|].
    split; [done|apply emits_refl].
  - apply returns_bind. eapply returns_mono; [apply audit_node_first|].
    intros [r1 k1] st1 (Hi1 & Hall1 & Es1 & Hem1). simpl in *.
    eapply returns_mono; [apply IH|].
    intros [r2 k2] st2 (Hi2 & Hcov & Es2 & Hem2). simpl in *.
    split; [by eapply incl_tran|]. split.
    { intros n path line [<-|Hn] Hp Hl.
      - apply Hi2. exact (Hall1 path line Hp Hl).
      - exact (Hcov n path line Hn Hp Hl). }
    split; [congruence|].
    eapply emits_trans; [|exact Hem2].
    eapply emits_mono; [|exact Hem1]. intros e. by apply reported_in_mono.
Qed.

Lemma audit_nodes_again cm nodes result known st :
  covered cm nodes known →
  returns (for_each nodes (audit_node cm) (result, known)) st
    (λ r st',
       r = (result && forallb (λ node, negb (stale_on cm st node)) nodes, known)
       ∧ expected_status st' = expected_status st
       ∧ emits (λ e, is_core_report e = false) st st').
Proof.
  revert result st. induction nodes as [|node nodes IH]; intros result st Hcov; simpl.
  - apply returns_ret. rewrite andb_true_r. split; [done|]. split; [done|apply emits_refl].
  - apply returns_bind. eapply returns_mono; [apply audit_node_again|].
    { intros path line Hp Hl. eapply Hcov; [by left|done..]. }
    intros r st1 (-> & Es1 & Hem1).
    eapply returns_mono; [apply IH|].
    { intros n path line Hn. apply Hcov. by right. }
    intros r st2 (-> & Es2 & Hem2).
    split; [|split; [congruence|by eapply emits_trans]].
    by rewrite andb_assoc, (stale_status cm st st1).
Qed.

Lemma no_stale_forallb cm st nodes :
  forallb (λ node, negb (stale_on cm st node)) nodes = true ↔ no_stale cm st nodes.
Proof.
  rewrite forallb_forall. unfold no_stale, stale_on. split.
  - intros H node Hin Hd. specialize (H node Hin).
    rewrite negb_true_iff, andb_false_iff in H. destruct H as [H|H].
    + by apply bool_decide_eq_false in H.
    + by destruct (stale_lines cm node).
  - intros H node Hin. rewrite negb_true_iff, andb_false_iff.
    destruct (decide (expected_status st !! node = Some "down")) as [Hd|Hd].
    + right. by rewrite (H node Hin Hd).
    + left. by apply bool_decide_eq_false.
Qed.

(** C9: a run of the file audit puts every core file it reports into
    [known]; a second run from there, on the same remote output, reports no
    core file, leaves [known] as it is, and returns True exactly when no node
    expected down lists a stale IPC file, whatever the first run returned. *)
Theorem file_audit_idempotent cm known st :
  ∃ r1 known1 st1 r2 st2 evs1 evs2,
    __call__ cm known st = (Ok (r1, known1), st1)
    ∧ __call__ cm known1 st1 = (Ok (r2, known1), st2)
    ∧ trace st1 = trace st ++ evs1
    ∧ trace st2 = trace st1 ++ evs2
    ∧ (∀ tool node line, In (ELog (MCoreFile tool node line)) evs1 → In line known1)
    ∧ (∀ e, In e evs2 → is_core_report e = false)
    ∧ (r2 = true ↔ no_stale cm st (env_nodes cm)).
Proof.
  assert (returns (__call__ cm known) st (λ r st',
            covered cm (env_nodes cm) r.2
            ∧ expected_status st' = expected_status st
            ∧ emits (reported_in r.2) st st')) as H1.
  { unfold __call__. apply returns_bind, returns_emit.
    intros st0 Es0 _ _ Et0. eapply returns_mono; [apply audit_nodes_first|].
    intros r st' (_ & Hcov & Es & Hem). split; [done|]. split; [congruence|].
    eapply emits_trans; [|exact Hem]. eexists. split; [exact Et0|].
    apply Forall_singleton. by intros ? ? ? [=]. }
  apply returns_ex in H1 as ([r1 known1] & st1 & E1 & Hcov & Es1 & (evs1 & Et1 & F1)).
  simpl in *.
  assert (returns (__call__ cm known1) st1 (λ r st',
            r = (forallb (λ node, negb (stale_on cm st node)) (env_nodes cm), known1)
            ∧ emits (λ e, is_core_report e = false) st1 st')) as H2.
  { unfold __call__. apply returns_bind, returns_emit.
    intros st0 Es0 _ _ Et0. eapply returns_mono; [by apply audit_nodes_again|].
    intros r st' (-> & Es & Hem). split.
    - simpl. f_equal. apply stale_status. congruence.
    - eapply emits_trans; [|exact Hem]. eexists. split; [exact Et0|].
      by apply Forall_singleton. }
  apply returns_ex in H2 as ([r2 known2] & st2 & E2 & [= -> ->] & (evs2 & Et2 & F2)).
  exists r1, known1, st1, (forallb (λ node, negb (stale_on cm st node)) (env_nodes cm)),
    st2, evs1, evs2.
  split; [done|]. split; [done|]. split; [done|]. split; [done|].
  split; [|split].
  - intros tool node line Hin. rewrite Forall_forall in F1.
    eapply F1; [by apply list_elem_of_In|done].
  - intros e Hin. rewrite Forall_forall in F2. by apply F2, list_elem_of_In.
  - apply no_stale_forallb.
Qed.

(** Two runs on a cluster where n1 lists a core file and no node is down:
    the first fails and reports the file, the second passes and reports
    nothing. *)
Example core_file_twice :
  ∃ known1 st1 st2,
    __call__ core_on_n1 [] three_up = (Ok (false, known1), st1)
    ∧ __call__ core_on_n1 known1 st1 = (Ok (true, known1), st2)
    ∧ List.filter is_core_report (trace st1)
      = [ELog (MCoreFile "Pacemaker" "n1"
                 "-rw------- 1 root root 4096 Jan  1 00:00 core.1234")]
    ∧ List.filter is_core_report (trace st2) = List.filter is_core_report (trace st1).
Proof. eexists _, _, _. vm_compute. done. Qed.

End FileProofs.

(** ** GroupAudit *)

Module GroupProofs.
Import GroupAudit GroupView Examples.

Lemma audit_child_returns cm group child s st :
  returns (audit_child cm group child s) st (λ s' _,
    s' = step (resource_location cm (AuditResource.id child)) s).
Proof.
  unfold audit_child, step.
  destruct (resource_location cm (AuditResource.id child)) as [|node [|node' nodes]]; simpl.
  - by apply returns_bind, returns_emit.
  - rewrite andb_true_r. apply returns_bind, returns_ret.
    destruct (bool_decide _) eqn:E; simpl; by apply returns_bind, returns_emit.
  - by apply returns_bind, returns_emit.
Qed.

Lemma walk_children cm group resources s st :
  for_each resources (walk_child cm group) s st
  = for_each (children resources group) (audit_child cm group) s st.
Proof.
  revert s st. induction resources as [|r resources IH]; intros s st; [done|].
  simpl. unfold walk_child at 1.
  destruct (bool_decide (AuditResource.parent r = Some (AuditResource.id group))); simpl.
  - unfold bind. destruct (audit_child cm group r s st) as [[s'|e] st']; [apply IH|done].
  - apply IH.
Qed.

Lemma children_returns cm group children s st :
  returns (for_each children (audit_child cm group) s) st (λ s' _,
    s' = fold_left (λ s nodes, step nodes s) (locations cm children) s).
Proof.
  revert s st. induction children as [|c children IH]; intros s st; simpl.
  - by apply returns_ret.
  - apply returns_bind. eapply returns_mono; [apply audit_child_returns|].
    intros s' st' ->. apply IH.
Qed.

Lemma child_fails_app pre nodes i :
  (i < length pre)%nat → child_fails (pre ++ [nodes]) i = child_fails pre i.
Proof.
  intros Hi. unfold child_fails, expected_at.
  rewrite lookup_app_l by done. rewrite take_app_le by lia.
  destruct pre as [|p pre]; [simpl in Hi; lia|]. done.
Qed.

Lemma forallb_ext_in {A} (f g : A → bool) l :
  (∀ x, In x l → f x = g x) → forallb f l = forallb g l.
Proof.
  induction l as [|a l IH]; intros H; [done|]. simpl.
  rewrite H by (by left). rewrite IH; [done|]. intros x Hx. apply H. by right.
Qed.

Lemma group_passes_app pre nodes :
  group_passes (pre ++ [nodes])
  = group_passes pre && negb (child_fails (pre ++ [nodes]) (length pre)).
Proof.
  unfold group_passes. rewrite length_app. simpl.
  rewrite Nat.add_1_r, seq_S, forallb_app. simpl. rewrite andb_true_r. f_equal.
  apply forallb_ext_in. intros i [_ Hi]%in_seq. by rewrite child_fails_app.
Qed.

Lemma child_fails_last pre nodes :
  child_fails (pre ++ [nodes]) (length pre)
  = (1 <? length nodes)%nat
    || match nodes with
       | [node] =>
           negb (bool_decide
                   ((if existsb inactive pre then None
                     else head (pre ++ [nodes]) ≫= head) = Some node))
       | _ => false
       end.
Proof.
  unfold child_fails, expected_at.
  rewrite lookup_app_r by done. rewrite Nat.sub_diag. simpl.
  rewrite take_app_length. by destruct pre.
Qed.

Lemma walked_step r0 pre nodes s :
  walked r0 pre s → walked r0 (pre ++ [nodes]) (step nodes s).
Proof.
  intros (Hr & Hnil & Hcons). unfold walked.
  rewrite group_passes_app, child_fails_last, existsb_app. simpl.
  rewrite orb_false_r.
  split; [|split; [by destruct pre|]].
  - unfold step. destruct pre as [|p pre].
    + rewrite (Hnil eq_refl). simpl.
      destruct nodes as [|node [|node' nodes]]; simpl.
      * by rewrite Hr.
      * rewrite bool_decide_true by done. simpl. by rewrite Hr.
      * by rewrite andb_false_r.
    + destruct Hcons as [Hf Hl]; [done|]. rewrite Hf, Hl. simpl.
      destruct nodes as [|node [|node' nodes]]; simpl; rewrite ?Hr.
      * by rewrite andb_true_r.
      * destruct (inactive p || existsb inactive pre); simpl.
        { by rewrite !andb_false_r. }
        destruct (decide (Some node = head p)) as [E|E].
        { rewrite !bool_decide_true by done. simpl. by rewrite !andb_true_r. }
        { rewrite !bool_decide_false by done. simpl. by rewrite !andb_false_r. }
      * by rewrite !andb_false_r.
  - intros _. split; [unfold step; by destruct (1 <? length nodes)%nat, nodes|].
    unfold step. destruct pre as [|p pre].
    + rewrite (Hnil eq_refl). simpl.
      destruct nodes as [|node [|node' nodes]]; done.
    + destruct Hcons as [Hf Hl]; [done|]. rewrite Hf, Hl. simpl.
      destruct nodes as [|node [|node' nodes]]; simpl.
      * by rewrite orb_true_r.
      * by rewrite orb_false_r.
      * by rewrite orb_false_r.
Qed.

Lemma walked_fold r0 l pre s :
  walked r0 pre s → walked r0 (pre ++ l) (fold_left (λ s nodes, step nodes s) l s).
Proof.
  revert pre s. induction l as [|nodes l IH]; intros pre s H; simpl.
  - by rewrite app_nil_r.
  - replace (pre ++ nodes :: l) with ((pre ++ [nodes]) ++ l) by by rewrite <- app_assoc.
    by apply IH, walked_step.
Qed.

Lemma audit_group_returns cm resources group result st :
  AuditResource.type group = "group" →
  returns (audit_group cm resources group result) st (λ r _,
    r = result && group_passes (locations cm (children resources group))).
Proof.
  intros Ht. unfold audit_group. rewrite Ht. simpl.
  apply returns_bind. unfold returns, ensures. rewrite walk_children.
  pose proof (children_returns cm group (children resources group)
                {| GroupAudit.result := result; first_match := true;
                   group_location := None |} st) as H.
  unfold returns, ensures in H.
  destruct (for_each (children resources group) _ _ st) as [[s'|e] st']; [|done].
  subst s'. simpl.
  destruct (walked_fold result (locations cm (children resources group)) []
              {| GroupAudit.result := result; first_match := true;
                 group_location := None |}) as (Hr & _).
  { split; [simpl; by rewrite andb_true_r|]. split; done. }
  exact Hr.
Qed.

Lemma inactive_before locs i :
  existsb inactive (take i locs) = true ↔ ∃ j, (j < i)%nat ∧ locs !! j = Some [].
Proof.
  rewrite existsb_exists. split.
  - intros (nodes & Hin & Hn). apply list_elem_of_In, elem_of_take in Hin as (j & ? & ?).
    exists j. destruct nodes; [done|discriminate].
  - intros (j & ? & ?). exists []. split; [|done].
    apply list_elem_of_In, elem_of_take. by exists j.
Qed.

Lemma child_fails_iff locs i :
  child_fails locs i = true ↔
  ∃ nodes, locs !! i = Some nodes
    ∧ ((1 < length nodes)%nat
       ∨ ∃ node, nodes = [node]
           ∧ ((∃ j, (j < i)%nat ∧ locs !! j = Some [])
              ∨ locs !! 0%nat ≫= head ≠ Some node)).
Proof.
  unfold child_fails, expected_at.
  destruct (locs !! i) as [nodes|]; [|split; [done|by intros (? & ? & ?)]].
  rewrite orb_true_iff, Nat.ltb_lt. split.
  - intros [H|H]; exists nodes; (split; [done|]); [by left|].
    destruct nodes as [|node [|node' nodes]]; [done| |done]. right. exists node.
    split; [done|]. apply negb_true_iff, bool_decide_eq_false in H.
    destruct (existsb inactive (take i locs)) eqn:E.
    + left. by apply inactive_before.
    + by right.
  - intros (? & [= <-] & [H|(node & -> & H)]); [by left|]. right.
    apply negb_true_iff, bool_decide_eq_false.
    destruct (existsb inactive (take i locs)) eqn:E; [done|].
    destruct H as [H|H]; [|done]. apply inactive_before in H. congruence.
Qed.

Lemma group_passes_iff locs :
  group_passes locs = true ↔ ∀ i, child_fails locs i = false.
Proof.
  unfold group_passes. rewrite forallb_forall. split.
  - intros H i. destruct (decide (i < length locs)%nat) as [Hi|Hi].
    + apply negb_true_iff, H, in_seq. lia.
    + unfold child_fails. by rewrite lookup_ge_None_2 by lia.
  - intros H i _. by rewrite H.
Qed.

(** C3, amended: the walk over the children of a group returns, and it
    fails exactly when a child fails; child [i] fails exactly when it is
    active on more than one node, or is active on one node and either a
    child before it is inactive or its node is not the first node of the
    first child; a child active on more than one node fails the audit, and
    an inactive child resets the expected location of the group. *)
Theorem group_children_walk cm resources group result st :
  AuditResource.type group = "group" →
  let locs := locations cm (children resources group) in
  (∃ r st', audit_group cm resources group result st = (Ok r, st')
     ∧ (r = true ↔ result = true ∧ ∀ i, child_fails locs i = false))
  ∧ (∀ i, child_fails locs i = true ↔
       ∃ nodes, locs !! i = Some nodes
         ∧ ((1 < length nodes)%nat
            ∨ ∃ node, nodes = [node]
                ∧ ((∃ j, (j < i)%nat ∧ locs !! j = Some [])
                   ∨ locs !! 0%nat ≫= head ≠ Some node)))
  ∧ (∀ child s st,
       (1 < length (resource_location cm (AuditResource.id child)))%nat →
       ∃ s' st', audit_child cm group child s st = (Ok s', st')
                 ∧ GroupAudit.result s' = false)
  ∧ (∀ child s st,
       resource_location cm (AuditResource.id child) = [] →
       ∃ s' st', audit_child cm group child s st = (Ok s', st')
                 ∧ group_location s' = None
                 ∧ GroupAudit.result s' = GroupAudit.result s).
Proof.
  intros Ht locs. split; [|split; [|split]].
  - pose proof (audit_group_returns cm resources group result st Ht) as H.
    apply returns_ex in H as (r & st' & E & ->). eexists _, st'. split; [exact E|].
    fold locs. by rewrite andb_true_iff, group_passes_iff.
  - apply child_fails_iff.
  - intros child s st0 Hlen.
    pose proof (audit_child_returns cm group child s st0) as H.
    apply returns_ex in H as (s' & st' & E & ->). eexists _, st'. split; [exact E|].
    unfold step. apply Nat.ltb_lt in Hlen. by rewrite Hlen.
  - intros child s st0 Hnil.
    pose proof (audit_child_returns cm group child s st0) as H.
    apply returns_ex in H as (s' & st' & E & ->). eexists _, st'. split; [exact E|].
    by rewrite Hnil.
Qed.

(** The listing of the example parses to the group and its children. *)
Example group_listing_parsed :
  ∃ self' st',
    PrimitiveAudit._setup second_child_only "GroupAudit" PrimitiveAudit.init three_up
    = (Ok (true, self'), st')
    ∧ PrimitiveAudit._resources self' = [g1; c1; c2].
Proof. eexists _, _. vm_compute. done. Qed.

(** The group theorem on the group whose first child is inactive and whose
    second child is active on n1. *)
Lemma group_children_walk_witness :
  ∃ r st', audit_group second_child_only [g1; c1; c2] g1 true three_up = (Ok r, st')
    ∧ (r = true ↔
       true = true
       ∧ ∀ i, child_fails (locations second_child_only (children [g1; c1; c2] g1)) i
              = false).
Proof.
  exact (proj1 (group_children_walk second_child_only [g1; c1; c2] g1 true three_up
                  eq_refl)).
Defined.

(** The rule of the nearest active predecessor fails: the first child is
    inactive and the second is active on one node, with no active child
    before it; no child fails by the rule of the specification, and the
    audit returns False. *)
Lemma group_after_inactive_counterexample :
  locations second_child_only (children [g1; c1; c2] g1) = [[]; ["n1"]]
  ∧ (∀ i, child_fails_as_specified [[]; ["n1"]] i = false)
  ∧ (audit_group second_child_only [g1; c1; c2] g1 true three_up).1 = Ok false
  ∧ ∃ self' st',
      __call__ second_child_only PrimitiveAudit.init three_up = (Ok (false, self'), st').
Proof.
  split; [by vm_compute|]. split; [by intros [|[|i]]|].
  split; [by vm_compute|]. eexists _, _. vm_compute. reflexivity.
Qed.

End GroupProofs.

(** ** LogAudit *)

Module LogProofs.
Import LogAudit LogView Examples.

Lemma send_runs cm suffix nodes st :
  runs (for_each nodes (send cm suffix) tt) st tt (send_events cm suffix nodes)
    (log_kind st) (uuid_count st).
Proof.
  unfold runs. revert st. induction nodes as [|node nodes IH]; intros st; simpl.
  - rewrite app_nil_r. by destruct st.
  - unfold bind at 1. unfold send at 1. unfold bind, rsh, emit, ret, when, log. simpl.
    destruct (rsh_run cm node (logger_cmd cm suffix node)) as [rc out]. simpl.
    destruct (negb (rc =? 0)); simpl; rewrite IH; simpl; by rewrite <- !app_assoc.
Qed.

Lemma not_found_runs (regexes : list string) k st :
  runs (for_each regexes (λ regex _, log (MTestMessageNotFound regex k)) tt) st tt
    (map (λ regex, ELog (MTestMessageNotFound regex k)) regexes)
    (log_kind st) (uuid_count st).
Proof.
  unfold runs. revert st. induction regexes as [|regex regexes IH]; intros st; simpl.
  - rewrite app_nil_r. by destruct st.
  - unfold bind at 1, log, emit. simpl. rewrite IH. simpl. by rewrite <- !app_assoc.
Qed.

Lemma look_runs cm watch_pref patterns ks st :
  log_kind st = watch_pref →
  runs (look cm watch_pref (watch_of patterns ks)) st
    (if winner cm patterns ks is Some _ then Py.VInt 1 else Py.VBool false)
    (look_events cm watch_pref patterns ks)
    (match watch_pref with
     | Some pref => Some pref
     | None => winner cm patterns ks
     end) (uuid_count st).
Proof.
  intros Hk. unfold runs. revert st Hk.
  induction ks as [|k ks IH]; intros st Hk; simpl.
  - rewrite app_nil_r. unfold ret. destruct st, watch_pref; simpl in *; by subst.
  - unfold winner. simpl List.find. fold (winner cm patterns ks).
    unfold matched. cbn [look watch_of map look_events].
    set (st1 := if bool_decide (watch_pref = None)
                then (emit (ELog (MCheckingFor k)) st).2 else st).
    rewrite (bind_ok _ _ st tt st1) by (unfold st1; by destruct (bool_decide _)).
    rewrite (bind_ok _ _ st1 (unmatched cm k patterns)
               (emit (ELookForAll k patterns) st1).2) by done.
    assert (log_kind st1 = watch_pref) as Hk1
      by (unfold st1; by destruct (bool_decide _)).
    assert (expected_status st1 = expected_status st ∧ uuid_count st1 = uuid_count st
            ∧ trace st1 = trace st ++ if bool_decide (watch_pref = None)
                                      then [ELog (MCheckingFor k)] else [])
      as (Es1 & Eu1 & Et1).
    { unfold st1. destruct (bool_decide _); simpl; [done|]. by rewrite app_nil_r. }
    clearbody st1. unfold LogView.matched.
    destruct (unmatched cm k patterns) as [|regex regexes] eqn:Eu; cbn [Py.truthy_list negb].
    + destruct watch_pref as [pref|]; simpl.
      * unfold bind, ret. simpl. rewrite Hk1, Es1, Eu1, Et1. simpl.
        by rewrite <- !app_assoc.
      * unfold bind, ret, log, emit, set_log_kind. simpl. rewrite Es1, Eu1, Et1. simpl.
        by rewrite <- !app_assoc.
    + erewrite bind_ok; [|apply not_found_runs]. rewrite IH by done. cbn -[look_events].
      rewrite Es1, Eu1, Et1. f_equal. f_equal. by rewrite <- !app_assoc.
Qed.

Lemma dict_set_fresh watch k w :
  ¬ In k (map fst watch) → dict_set watch k w = watch ++ [(k, w)].
Proof.
  induction watch as [|[k' w'] watch IH]; intros Hk; simpl; [done|].
  destruct (decide (k = k')) as [->|Hne]; [exfalso; apply Hk; by left|].
  rewrite IH; [done|]. intros ?. apply Hk. by right.
Qed.

Lemma arm_runs cm patterns ks watch st :
  NoDup (map fst watch ++ ks) →
  runs (for_each ks
          (λ k watch, let* w := _create_watcher cm patterns k in
                      ret (dict_set watch k w)) watch) st
    (watch ++ watch_of patterns ks) (map (λ k, ESetWatch k patterns) ks)
    (log_kind st) (uuid_count st).
Proof.
  unfold runs. revert watch st. induction ks as [|k ks IH]; intros watch st Hnd; simpl.
  - rewrite !app_nil_r. by destruct st.
  - unfold bind at 1. unfold bind at 1, _create_watcher, bind, emit, ret. simpl.
    assert (¬ In k (map fst watch)) as Hk.
    { apply NoDup_app in Hnd as (_ & Hd & _). intros Hin%list_elem_of_In.
      apply (Hd k Hin). by left. }
    rewrite dict_set_fresh by done.
    pose proof (IH (watch ++ [(k, {| kind := k; regexes := patterns |})])) as IH'.
    unfold bind, _create_watcher, emit, ret in IH'. rewrite IH'.
    + simpl. by rewrite <- !app_assoc.
    + rewrite map_app. simpl. by rewrite <- app_assoc.
Qed.

Lemma kinds_NoDup cm : NoDup (kinds cm).
Proof.
  unfold kinds. destruct (env_have_systemd cm); simpl;
    repeat (apply NoDup_cons; split; [by rewrite ?list_elem_of_In; simpl; intuition congruence|]);
    apply NoDup_nil_2.
Qed.

Lemma test_logging_runs cm st :
  let suffix := uuid4 cm (uuid_count st) in
  let patterns := patterns_for cm suffix in
  let ks := candidates cm (log_kind st) in
  runs (_test_logging cm) st
    (if winner cm patterns ks is Some _ then Py.VInt 1 else Py.VBool false)
    (arm_events (log_kind st) suffix patterns ks
     ++ send_events cm suffix (env_nodes cm)
     ++ look_events cm (log_kind st) patterns ks)
    (match log_kind st with
     | Some pref => Some pref
     | None => winner cm patterns ks
     end) (S (uuid_count st)).
Proof.
  intros suffix patterns ks. unfold runs, _test_logging.
  unfold bind at 1, fresh_uuid. fold suffix. fold patterns.
  unfold bind at 1, get_log_kind. cbn [log_kind].
  set (st0 := {| expected_status := expected_status st; log_kind := log_kind st;
                 uuid_count := S (uuid_count st); trace := trace st |}).
  assert (∃ st1, (match log_kind st with
                  | Some pref =>
                      let* w := _create_watcher cm patterns pref in
                      ret (dict_set [] pref w)
                  | None =>
                      let* watch :=
                        for_each (kinds cm)
                          (λ k watch, let* w := _create_watcher cm patterns k in
                                      ret (dict_set watch k w)) [] in
                      log (MLoggingTestMessage suffix);; ret watch
                  end) st0 = (Ok (watch_of patterns ks), st1)
                ∧ expected_status st1 = expected_status st
                ∧ log_kind st1 = log_kind st
                ∧ uuid_count st1 = S (uuid_count st)
                ∧ trace st1 = trace st ++ arm_events (log_kind st) suffix patterns ks)
    as (st1 & E1 & Es1 & Ek1 & Eu1 & Et1).
  { unfold ks, candidates, arm_events. destruct (log_kind st) as [pref|] eqn:Ek.
    - eexists. split; [reflexivity|]. done.
    - erewrite bind_ok; [|apply (arm_runs cm patterns (kinds cm) [] st0), kinds_NoDup].
      eexists. split; [reflexivity|]. simpl. by rewrite <- !app_assoc. }
  unfold bind at 1. rewrite E1.
  erewrite bind_ok; [|apply send_runs].
  rewrite look_runs by (simpl; done). simpl.
  rewrite ?Es1, ?Ek1, ?Eu1, ?Et1. by rewrite <- !app_assoc.
Qed.

Lemma arm_events_view pref suffix patterns ks :
  watches (arm_events pref suffix patterns ks) = map (λ k, (k, patterns)) ks
  ∧ sent (arm_events pref suffix patterns ks) = []
  ∧ checks (arm_events pref suffix patterns ks) = [].
Proof.
  unfold watches, sent, checks, arm_events.
  induction ks as [|k ks (IH1 & IH2 & IH3)]; [by destruct pref|].
  split; [|split].
  - simpl. f_equal. exact IH1.
  - exact IH2.
  - exact IH3.
Qed.

Lemma send_events_view cm suffix nodes :
  sent (send_events cm suffix nodes)
  = map (λ node, (node, logger_cmd cm suffix node)) nodes
  ∧ watches (send_events cm suffix nodes) = []
  ∧ checks (send_events cm suffix nodes) = [].
Proof.
  unfold watches, sent, checks, send_events.
  induction nodes as [|node nodes (IH1 & IH2 & IH3)]; [done|].
  cbn [flat_map map]. rewrite !omap_app, IH1, IH2, IH3.
  by destruct (negb _).
Qed.

Lemma not_found_view k regexes (tail : list event) :
  checks (map (λ regex, ELog (MTestMessageNotFound regex k)) regexes ++ tail) = checks tail
  ∧ watches (map (λ regex, ELog (MTestMessageNotFound regex k)) regexes ++ tail)
    = watches tail
  ∧ sent (map (λ regex, ELog (MTestMessageNotFound regex k)) regexes ++ tail) = sent tail.
Proof.
  unfold watches, sent, checks. rewrite !omap_app.
  by induction regexes as [|regex regexes (IH1 & IH2 & IH3)].
Qed.

Lemma look_events_view cm pref patterns ks :
  checks (look_events cm pref patterns ks) = up_to_winner cm patterns ks
  ∧ watches (look_events cm pref patterns ks) = []
  ∧ sent (look_events cm pref patterns ks) = [].
Proof.
  induction ks as [|k ks (IH1 & IH2 & IH3)]; [done|].
  destruct (not_found_view k (unmatched cm k patterns) (look_events cm pref patterns ks))
    as (N1 & N2 & N3).
  cbn [look_events up_to_winner].
  unfold watches, sent, checks in *. rewrite !omap_app.
  destruct (matched cm patterns k); rewrite ?N1, ?N2, ?N3, ?IH1, ?IH2, ?IH3;
    by destruct (bool_decide (pref = None)).
Qed.

(** C7: a run of the log test arms a watch of every candidate kind (the
    preferred kind alone when there is one), then logs the test message from
    every node, then checks the kinds in their order up to the first where
    all patterns are matched; it returns 1 when there is such a kind and
    False otherwise; without a preferred kind, that first kind becomes the
    preferred kind, and the next run arms it alone. *)
Theorem test_logging_channels cm st :
  let suffix := uuid4 cm (uuid_count st) in
  let patterns := patterns_for cm suffix in
  let ks := candidates cm (log_kind st) in
  ∃ v st' arms sends looks,
    _test_logging cm st = (Ok v, st')
    ∧ trace st' = trace st ++ arms ++ sends ++ looks
    ∧ (watches arms = map (λ k, (k, patterns)) ks ∧ sent arms = [] ∧ checks arms = [])
    ∧ (sent sends = map (λ node, (node, logger_cmd cm suffix node)) (env_nodes cm)
       ∧ watches sends = [] ∧ checks sends = [])
    ∧ (checks looks = up_to_winner cm patterns ks
       ∧ watches looks = [] ∧ sent looks = [])
    ∧ v = (if winner cm patterns ks is Some _ then Py.VInt 1 else Py.VBool false)
    ∧ log_kind st' = match log_kind st with
                     | Some pref => Some pref
                     | None => winner cm patterns ks
                     end
    ∧ ∀ k, log_kind st' = Some k →
        ∃ v2 st2 evs2,
          _test_logging cm st' = (Ok v2, st2)
          ∧ trace st2 = trace st' ++ evs2
          ∧ watches evs2 = [(k, patterns_for cm (uuid4 cm (uuid_count st')))]
          ∧ log_kind st2 = Some k.
Proof.
  intros suffix patterns ks.
  pose proof (test_logging_runs cm st) as H. unfold runs in H.
  fold suffix patterns ks in H.
  eexists _, _, _, _, _. split; [exact H|]. simpl.
  split; [reflexivity|].
  split; [apply arm_events_view|]. split; [apply send_events_view|].
  split; [apply look_events_view|]. split; [done|]. split; [done|].
  intros k Hk.
  pose proof (test_logging_runs cm
                {| expected_status := expected_status st;
                   log_kind := match log_kind st with
                               | Some pref => Some pref
                               | None => winner cm patterns ks
                               end;
                   uuid_count := S (uuid_count st);
                   trace := trace st ++ arm_events (log_kind st) suffix patterns ks
                              ++ send_events cm suffix (env_nodes cm)
                              ++ look_events cm (log_kind st) patterns ks |}) as H2.
  unfold runs in H2. cbn [expected_status log_kind uuid_count trace] in H2.
  cbn [log_kind] in Hk. rewrite Hk in H2. cbn [candidates] in H2.
  cbn [uuid_count trace]. rewrite Hk.
  eexists _, _, _. split; [exact H2|]. cbn [trace log_kind].
  split; [reflexivity|]. split; [|done].
  unfold watches. rewrite !omap_app.
  destruct (arm_events_view (Some k) (uuid4 cm (S (uuid_count st)))
              (patterns_for cm (uuid4 cm (S (uuid_count st)))) [k]) as (Ha & _).
  destruct (send_events_view cm (uuid4 cm (S (uuid_count st))) (env_nodes cm))
    as (_ & Hs & _).
  destruct (look_events_view cm (Some k)
              (patterns_for cm (uuid4 cm (S (uuid_count st)))) [k]) as (_ & Hl & _).
  unfold watches in Ha, Hs, Hl. by rewrite Ha, Hs, Hl.
Qed.
(** The test message is found in the journal only: the run checks the
    local file, then the journal, returns 1 and prefers the journal; the
    next run arms the journal alone. *)
Example journal_only :
  ∃ st1 st2 evs1 evs2,
    _test_logging only_journal three_up = (Ok (Py.VInt 1), st1)
    ∧ trace st1 = evs1
    ∧ map fst (watches evs1) = [LOCAL_FILE; JOURNAL; REMOTE_FILE]
    ∧ checks evs1 = [LOCAL_FILE; JOURNAL]
    ∧ log_kind st1 = Some JOURNAL
    ∧ _test_logging only_journal st1 = (Ok (Py.VInt 1), st2)
    ∧ trace st2 = evs1 ++ evs2
    ∧ map fst (watches evs2) = [JOURNAL].
Proof. eexists _, _, _, _. vm_compute. repeat split; reflexivity. Qed.

End LogProofs.

(** ** Computations that only add to the trace *)

Lemma emits_extends P st st' : emits P st st' → extends st st'.
Proof. intros (evs & H & _). by exists evs. Qed.

Lemma says_ret {A} P (a : A) : says P (ret a).
Proof. intros st. apply emits_refl. Qed.

Lemma says_raise {A} P e : says P (raise (A := A) e).
Proof. intros st. apply emits_refl. Qed.

Lemma says_bind {A B} P (c : M A) (k : A → M B) :
  says P c → (∀ a, says P (k a)) → says P (bind c k).
Proof.
  intros Hc Hk st. apply ensures_bind. eapply ensures_mono; [apply Hc| |done].
  intros a st1 H1. eapply ensures_mono; [apply Hk| |]; intros ? st2 H2;
    exact (emits_trans _ _ _ _ H1 H2).
Qed.

Lemma says_emit (P : event → Prop) e : P e → says P (emit e).
Proof. intros H st. by apply emits_emit. Qed.

Lemma says_for_each {A S} P (l : list A) (body : A → S → M S) s :
  (∀ a s, says P (body a s)) → says P (for_each l body s).
Proof.
  intros Hb. revert s. induction l as [|a l IH]; intros s; [apply says_ret|].
  cbn [for_each]. apply says_bind; [apply Hb|apply IH].
Qed.

Lemma says_get_expected_status P node : says P (get_expected_status node).
Proof.
  intros st. unfold ensures, get_expected_status.
  destruct (expected_status st !! node); apply emits_refl.
Qed.

Lemma says_lookup_expected_status P node : says P (lookup_expected_status node).
Proof. intros st. apply emits_refl. Qed.

Lemma says_set_expected_status P node s : says P (set_expected_status node s).
Proof. intros st. exists []. cbn. by rewrite app_nil_r. Qed.

Lemma says_rsh (P : event → Prop) cm node cmd :
  P (ERsh node cmd) → says P (rsh cm node cmd).
Proof. intros H. apply says_bind; [by apply says_emit|intros; apply says_ret]. Qed.

Lemma says_copy (P : event → Prop) cm source target :
  P (ECopy source target) → says P (copy cm source target).
Proof. intros H. apply says_bind; [by apply says_emit|intros; apply says_ret]. Qed.

Lemma says_first {A} P (l : list A) : says P (first l).
Proof. destruct l; [apply says_raise|apply says_ret]. Qed.

Lemma says_dict_get {V} P (d : gmap string V) k : says P (dict_get d k).
Proof. unfold dict_get. destruct (d !! k); [apply says_ret|apply says_raise]. Qed.

Lemma says_to_int P s : says P (to_int s).
Proof. unfold to_int. destruct (Py.int s); [apply says_ret|apply says_raise]. Qed.

Lemma says_field P fields i : says P (field fields i).
Proof. unfold field. destruct (fields !! i); [apply says_ret|apply says_raise]. Qed.

Lemma says_when P b c : says P c → says P (when b c).
Proof. intros H. destruct b; [done|apply says_ret]. Qed.

(** The steps of a proof that a computation only adds effects that
    satisfy a property; the property is left to prove for each effect. *)
Ltac says_step :=
  first
    [ apply says_ret | apply says_raise | apply says_emit
    | apply says_rsh | apply says_copy | apply says_first
    | apply says_dict_get | apply says_to_int | apply says_field
    | apply says_get_expected_status | apply says_lookup_expected_status
    | apply says_set_expected_status
    | apply says_when
    | apply says_bind; [|intros]
    | apply says_for_each; intros
    | match goal with
      | |- says _ (if ?b then _ else _) => destruct b
      | |- says _ (match ?x with _ => _ end) => destruct x
      | |- says _ (let (_, _) := ?x in _) => destruct x
      end ].

Ltac solve_says := unfold log, debug; repeat says_step.

Lemma says_extends {A} P (c : M A) st :
  says P c → ensures c st (λ _ st', extends st st') (λ _ st', extends st st').
Proof.
  intros Hc. eapply ensures_mono; [apply Hc| |]; intros ? st' Hx;
    exact (emits_extends _ _ _ Hx).
Qed.

Lemma forallb_eq {A} (f g : A → bool) l :
  (∀ a, f a = g a) → forallb f l = forallb g l.
Proof. intros H. induction l as [|a l IH]; [done|]. cbn. by rewrite H, IH. Qed.

(** ** The monad of the world *)

Lemma wensures_ret {A} (a : A) w (Q : A → world → Prop) E :
  Q a w → wensures (wret a) w Q E.
Proof. done. Qed.

Lemma wensures_bind {A B} (c : W A) (k : A → W B) w Q E :
  wensures c w (λ a w', wensures (k a) w' Q E) E → wensures (wbind c k) w Q E.
Proof. unfold wensures, wbind. by destruct (c w) as [[a|e] w']. Qed.

Lemma wensures_mono {A} (c : W A) w (Q Q' : A → world → Prop)
    (E E' : exn → world → Prop) :
  wensures c w Q E → (∀ a w', Q a w' → Q' a w') → (∀ e w', E e w' → E' e w') →
  wensures c w Q' E'.
Proof. unfold wensures. destruct (c w) as [[a|e] w']; eauto. Qed.

Lemma wensures_lift {A} (c : M A) w (Q : A → world → Prop) E :
  ensures c (cluster_state w)
    (λ a st, Q a {| cluster_state := st; effects := effects w |})
    (λ e st, E e {| cluster_state := st; effects := effects w |}) →
  wensures (lift c) w Q E.
Proof. unfold wensures, ensures, lift. by destruct (c (cluster_state w)) as [[a|e] st]. Qed.

Lemma wensures_tell e w (Q : unit → world → Prop) E :
  Q tt (after w [e]) → wensures (tell e) w Q E.
Proof. done. Qed.

Lemma after_nil w : after w [] = w.
Proof. unfold after. cbn. rewrite app_nil_r. by destruct w. Qed.

Lemma after_app w evs1 evs2 : after (after w evs1) evs2 = after w (evs1 ++ evs2).
Proof. unfold after. cbn. by rewrite map_app, app_assoc. Qed.

Lemma said_after w evs : said (after w evs) = said w ++ evs.
Proof.
  unfold said, after. cbn. rewrite map_app, map_map. cbn. by rewrite map_id.
Qed.

Lemma tell_run e w : tell e w = (Ok tt, after w [e]).
Proof. done. Qed.

(** ** The epoch parser of PartitionAudit *)

Module EpochProofs.
Import PartitionAudit EpochView.

Lemma substring_0_list n s :
  list_ascii_of_string (String.substring 0 n s) = take n (list_ascii_of_string s).
Proof.
  revert n. induction s as [|c s IH]; intros [|n]; simpl; try done. by rewrite IH.
Qed.

Lemma length_list_ascii s : length (list_ascii_of_string s) = String.length s.
Proof. induction s; simpl; [done|]. by rewrite IHs. Qed.

Lemma drop_last_list s :
  list_ascii_of_string (Py.drop_last s) = removelast (list_ascii_of_string s).
Proof.
  unfold Py.drop_last. rewrite substring_0_list, <- length_list_ascii.
  generalize (list_ascii_of_string s). intros l.
  induction l as [|a [|b l] IH]; [done..|].
  replace (length (a :: b :: l) - 1)%nat with (S (length (b :: l) - 1))
    by (simpl; lia).
  cbn [take]. rewrite IH. done.
Qed.

Lemma digit_not_blank c : is_Some (Py.digit_of c) → Py.is_blank c = false.
Proof.
  unfold Py.digit_of, Py.is_blank. intros [d H].
  destruct ((48 <=? Z.of_nat (nat_of_ascii c)) && (Z.of_nat (nat_of_ascii c) <=? 57)) eqn:E;
    [|done].
  apply andb_prop in E as [E1%Z.leb_le E2%Z.leb_le].
  apply orb_false_iff. split.
  - apply andb_false_iff. right. apply Nat.leb_gt. lia.
  - apply Nat.eqb_neq. lia.
Qed.

Lemma digit_not_sign c :
  is_Some (Py.digit_of c) → Ascii.eqb c "-" = false ∧ Ascii.eqb c "+" = false.
Proof.
  intros [d H]. split; apply Ascii.eqb_neq; intros ->; vm_compute in H; done.
Qed.

Lemma all_digits_list s : all_digits s = true ↔ digit_list (list_ascii_of_string s).
Proof.
  unfold all_digits, digit_list. rewrite forallb_forall, Forall_forall.
  split; intros H c Hc.
  - apply (bool_decide_eq_true_1 _), H. by apply list_elem_of_In.
  - apply (bool_decide_eq_true_2 _), H. by apply list_elem_of_In.
Qed.

Lemma digits_decimal acc prev l :
  digit_list l → l ≠ [] → Py.digits acc prev l = Some (decimal acc l).
Proof.
  intros Hl. revert acc prev. induction Hl as [|c l [d Hd] Hl IH]; intros acc prev Hne; [done|].
  simpl. rewrite Hd. simpl. destruct l as [|c' l]; [done|]. by apply IH.
Qed.

Lemma unpad_digits l : digit_list l → Py.unpad l = l.
Proof.
  intros Hl. unfold Py.unpad.
  assert (∀ l, digit_list l → Py.skip_blanks l = l) as Hls.
  { intros [|c k] Hk; [done|]. simpl.
    apply Forall_cons in Hk as [Hc _]. by rewrite digit_not_blank. }
  rewrite (Hls l Hl), Hls, rev_involutive; [done|].
  unfold digit_list. apply Forall_forall. intros c Hc%list_elem_of_In%in_rev.
  by apply (proj1 (Forall_forall _ _) Hl), list_elem_of_In.
Qed.

Lemma int_digits s :
  all_digits s = true → s ≠ EmptyString →
  Py.int s = Some (decimal 0 (list_ascii_of_string s)).
Proof.
  intros Hd%all_digits_list Hne. unfold Py.int. rewrite unpad_digits by done.
  destruct (list_ascii_of_string s) as [|c l] eqn:E.
  { destruct s; [done|discriminate]. }
  pose proof Hd as Hd'. apply Forall_cons in Hd' as [Hc _].
  destruct (digit_not_sign c Hc) as [-> ->]. by apply digits_decimal.
Qed.

Lemma decimal_snoc acc l c :
  decimal acc (l ++ [c]) = 10 * decimal acc l + default 0 (Py.digit_of c).
Proof. unfold decimal. by rewrite fold_left_app. Qed.

Lemma digit_range c d : Py.digit_of c = Some d → 0 ≤ d ≤ 9.
Proof.
  unfold Py.digit_of.
  destruct ((48 <=? Z.of_nat (nat_of_ascii c)) && (Z.of_nat (nat_of_ascii c) <=? 57)) eqn:E;
    [|done].
  apply andb_prop in E as [E1%Z.leb_le E2%Z.leb_le]. intros [= <-]. lia.
Qed.

(** X1: An epoch written in decimal digits is read as a number, without its
    last digit when it has two digits or more: [557] is read as 55, and [7]
    as 7. *)
Theorem trim2int_digits s st :
  all_digits s = true → s ≠ EmptyString →
  ∃ n, Py.int s = Some n
       ∧ _trim2int s st
         = (Ok (Some (if (1 <? String.length s)%nat then n / 10 else n)), st).
Proof.
  intros Hd Hne.
  exists (decimal 0 (list_ascii_of_string s)). split; [by apply int_digits|].
  unfold _trim2int, _trim_string.
  assert (Py.truthy_str s = true) as -> by (by destruct s).
  simpl. destruct (1 <? String.length s)%nat eqn:Hlen.
  - apply Nat.ltb_lt in Hlen.
    pose proof (drop_last_list s) as Hl.
    apply all_digits_list in Hd. rewrite <- length_list_ascii in Hlen.
    destruct (exists_last (l := list_ascii_of_string s)) as (l & c & E).
    { intros E. rewrite E in Hlen. simpl in Hlen. lia. }
    rewrite E in *. rewrite removelast_last in Hl.
    apply Forall_app in Hd as [Hdl Hdc]. apply Forall_singleton in Hdc as [d Hc].
    assert (l ≠ []) as Hlne.
    { intros ->. simpl in Hlen. lia. }
    assert (Py.drop_last s ≠ EmptyString) as Hne'.
    { intros E'. rewrite E' in Hl. simpl in Hl. by subst l. }
    assert (Py.truthy_str (Py.drop_last s) = true) as ->
      by (by destruct (Py.drop_last s)).
    unfold to_int, bind. rewrite int_digits; [|by apply all_digits_list; rewrite Hl|done].
    rewrite Hl, decimal_snoc, Hc. simpl.
    pose proof (digit_range c d Hc). unfold ret. repeat f_equal.
    apply Z.div_unique with d; lia.
  - assert (Py.truthy_str s = true) as -> by (by destruct s).
    unfold to_int, bind. by rewrite int_digits.
Qed.

Lemma trim2int_digits_witness :
  ∃ n, Py.int "557" = Some n
       ∧ _trim2int "557" Examples.three_up
         = (Ok (Some (if (1 <? String.length "557")%nat then n / 10 else n)),
            Examples.three_up).
Proof. apply (trim2int_digits "557" Examples.three_up); [reflexivity|done]. Defined.

Example trim2int_557 : (_trim2int "557" Examples.three_up).1 = Ok (Some 55).
Proof. reflexivity. Qed.

Lemma prefix_substring n s : String.prefix (String.substring 0 n s) s = true.
Proof.
  revert n. induction s as [|c s IH]; intros [|n]; simpl; try done.
  rewrite IH. by destruct (ascii_dec c c).
Qed.

Lemma length_substring n s :
  String.length (String.substring 0 n s) = Nat.min n (String.length s).
Proof.
  rewrite <- !length_list_ascii, substring_0_list, length_take. done.
Qed.

Lemma prefix_refl s : String.prefix s s = true.
Proof. induction s as [|c s IH]; simpl; [done|]. by destruct (ascii_dec c c). Qed.

(** X2: [_trim_string] gives [None] for the empty string alone; what it gives
    else is never empty: it is the string without its last character, or the
    string itself when it has one character.  So [_trim2int] gives [None]
    for the empty string alone, and its test of the trimmed string never
    fails. *)
Theorem trim_never_empty s st :
  match _trim_string s with
  | Some t =>
      t ≠ EmptyString ∧ String.prefix t s = true
      ∧ String.length t = Nat.max 1 (String.length s - 1)
  | None => s = EmptyString
  end
  ∧ (_trim2int s st = (Ok None, st) ↔ s = EmptyString).
Proof.
  assert (match _trim_string s with
          | Some t =>
              t ≠ EmptyString ∧ String.prefix t s = true
              ∧ String.length t = Nat.max 1 (String.length s - 1)
          | None => s = EmptyString
          end) as H.
  { unfold _trim_string. destruct s as [|c s]; [done|]. cbn [Py.truthy_str negb].
    destruct (1 <? String.length (String c s))%nat eqn:Hlen.
    - apply Nat.ltb_lt in Hlen. unfold Py.drop_last.
      assert (String.length (String.substring 0 (String.length (String c s) - 1)
                               (String c s))
              = Nat.max 1 (String.length (String c s) - 1)) as Hl
        by (rewrite length_substring; lia).
      split; [|split; [apply prefix_substring|done]].
      intros E. rewrite E in Hl. simpl in Hl, Hlen. lia.
    - apply Nat.ltb_ge in Hlen. split; [done|]. split; [apply prefix_refl|].
      simpl in *. lia. }
  split; [done|]. unfold _trim2int. destruct (_trim_string s) as [t|]; [|done].
  destruct H as (Hne & Hp & _). split.
  - destruct t as [|c t]; [done|]. cbn [Py.truthy_str]. unfold to_int, bind.
    destruct (Py.int (String c t)); by intros [=].
  - intros ->. by destruct t.
Qed.

End EpochProofs.

(** ** AuditResource and AuditConstraint *)

Module ResourceProofs.
Import ResourceView.

Lemma init_resource_run line st :
  AuditResource.__init__ line st
  = (if well_formed line then Ok (parsed line) else Raise (rejected line), st).
Proof.
  unfold well_formed, rejected, parsed, flags_of, AuditResource.__init__.
  destruct (Py.split line)
    as [|f0 [|f1 [|f2 [|f3 [|f4 [|f5 [|f6 [|f7 [|f8 [|f9 [|f10 [|f11 l]]]]]]]]]]]];
    try reflexivity.
  - cbn. unfold bind, to_int. cbn. destruct (Py.int f10); reflexivity.
  - cbn. unfold bind, to_int. cbn. destruct (Py.int f10) as [z|] eqn:E; reflexivity.
Qed.

Lemma init_constraint_run line st :
  AuditConstraint.__init__ line st
  = (if well_formed_constraint line then Ok (parsed_constraint line)
     else Raise IndexError, st).
Proof.
  unfold well_formed_constraint, parsed_constraint, AuditConstraint.__init__.
  destruct (Py.split line) as [|f0 [|f1 [|f2 [|f3 [|f4 [|f5 [|f6 [|f7 l]]]]]]]];
    reflexivity.
Qed.

(** X3: A line is accepted as a resource exactly when it has twelve fields or
    more and field 10 is a number.  The resource then holds the line and its
    fields 1 to 11, each in its attribute: type, id, clone_id, parent ("NA"
    stands for none), rprovider, rclass, rtype, host, needs_quorum, flags
    (field 10 as a number) and flags_s.  A line with fewer fields raises
    IndexError, but for one with a field 10 that is no number, which raises
    ValueError.  The state is left as it is. *)
Theorem resource_init_outcome line st :
  if well_formed line then
    ∃ r, AuditResource.__init__ line st = (Ok r, st)
         ∧ AuditResource.line r = line
         ∧ Py.split line !! 1%nat = Some (AuditResource.type r)
         ∧ Py.split line !! 2%nat = Some (AuditResource.id r)
         ∧ Py.split line !! 3%nat = Some (AuditResource.clone_id r)
         ∧ Py.split line !! 4%nat ≫= not_NA = AuditResource.parent r
         ∧ Py.split line !! 5%nat = Some (AuditResource.rprovider r)
         ∧ Py.split line !! 6%nat = Some (AuditResource.rclass r)
         ∧ Py.split line !! 7%nat = Some (AuditResource.rtype r)
         ∧ Py.split line !! 8%nat = Some (AuditResource.host r)
         ∧ Py.split line !! 9%nat = Some (AuditResource.needs_quorum r)
         ∧ flags_of (Py.split line) = Some (AuditResource.flags r)
         ∧ Py.split line !! 11%nat = Some (AuditResource.flags_s r)
  else
    AuditResource.__init__ line st = (Raise (rejected line), st).
Proof.
  unfold well_formed, rejected, flags_of, AuditResource.__init__.
  destruct (Py.split line)
    as [|f0 [|f1 [|f2 [|f3 [|f4 [|f5 [|f6 [|f7 [|f8 [|f9 [|f10 [|f11 l]]]]]]]]]]]];
    try reflexivity.
  - cbn. unfold bind, to_int. cbn. destruct (Py.int f10); reflexivity.
  - cbn. unfold bind, to_int. cbn. destruct (Py.int f10) as [z|] eqn:E; cbn.
    + eexists. split; [reflexivity|]. done.
    + reflexivity.
Qed.

Lemma land_bit (z : Z) (n : Z) :
  0 ≤ n → Py.truthy_int (Z.land z (2 ^ n)) = Z.testbit z n.
Proof.
  intros Hn. unfold Py.truthy_int.
  destruct (Z.testbit z n) eqn:E.
  - apply negb_true_iff, Z.eqb_neq. intros H.
    assert (Z.testbit (Z.land z (2 ^ n)) n = false) as Hf by (rewrite H; apply Z.bits_0).
    rewrite Z.land_spec, E, Z.pow2_bits_true in Hf; done.
  - apply negb_false_iff, Z.eqb_eq, Z.bits_inj'. intros m Hm.
    rewrite Z.land_spec, Z.bits_0. destruct (decide (m = n)) as [->|Hne].
    + by rewrite E.
    + rewrite (Z.pow2_bits_false n m) by done. apply andb_false_r.
Qed.

Lemma orphan_bit r : Py.truthy_int (AuditResource.orphan r) = bit r 0.
Proof. exact (land_bit (AuditResource.flags r) 0 ltac:(lia)). Qed.

Lemma managed_bit r : Py.truthy_int (AuditResource.managed r) = bit r 1.
Proof. exact (land_bit (AuditResource.flags r) 1 ltac:(lia)). Qed.

Lemma unique_bit r : Py.truthy_int (AuditResource.unique r) = bit r 5.
Proof. exact (land_bit (AuditResource.flags r) 5 ltac:(lia)). Qed.

End ResourceProofs.

(** ** PrimitiveAudit: [_setup] *)

Module SetupProofs.
Import PrimitiveAudit ResourceView SetupView.

Lemma known_cons st node nodes :
  known st (node :: nodes) ↔ is_Some (expected_status st !! node) ∧ known st nodes.
Proof.
  unfold known. split.
  - intros H. split; [apply H; by left|]. intros n Hn. apply H. by right.
  - intros [H1 H2] n [<-|Hn]; [done|by apply H2].
Qed.

Lemma up_eqb st node s :
  expected_status st !! node = Some s → String.eqb s "up" = up st node.
Proof.
  intros E. unfold up. rewrite E. destruct (String.eqb_spec s "up") as [->|Hne].
  - by rewrite bool_decide_eq_true_2.
  - rewrite bool_decide_eq_false_2; [done|]. by intros [=].
Qed.

(** The first loop. *)
Lemma sort_nodes_run nodes self st :
  known st nodes →
  ∃ self', for_each nodes sort_node self st = (Ok self', st)
    ∧ _active_nodes self' = _active_nodes self ++ List.filter (up st) nodes
    ∧ _inactive_nodes self'
      = _inactive_nodes self ++ List.filter (λ node, negb (up st node)) nodes
    ∧ _constraints self' = _constraints self
    ∧ _resources self' = _resources self
    ∧ _target self' = _target self.
Proof.
  revert self. induction nodes as [|node nodes IH]; intros self Hk.
  - exists self. simpl. by rewrite !app_nil_r.
  - apply known_cons in Hk as [[s Hs] Hk]. cbn [for_each].
    unfold bind at 1, sort_node at 1, bind at 1, get_expected_status. rewrite Hs.
    rewrite (up_eqb st node s Hs). cbn [List.filter].
    destruct (up st node); cbn [ret negb];
      match goal with
      | |- context [for_each nodes sort_node ?s st] =>
          destruct (IH s Hk) as (self' & -> & Ha & Hi & Hc & Hr & Ht)
      end; exists self';
      cbn in Ha, Hi, Hc, Hr, Ht; rewrite Ha, Hi, <- ?app_assoc; done.
Qed.

(** The second loop. *)
Lemma pick_target_run nodes self st :
  known st nodes →
  ∃ self', for_each nodes pick_target self st = (Ok self', st)
    ∧ _active_nodes self' = _active_nodes self
    ∧ _inactive_nodes self' = _inactive_nodes self
    ∧ _constraints self' = _constraints self
    ∧ _resources self' = _resources self
    ∧ _target self' = target_after st nodes (_target self).
Proof.
  revert self. induction nodes as [|node nodes IH]; intros self Hk.
  - exists self. simpl. unfold target_after. by destruct (_target self).
  - apply known_cons in Hk as [[s Hs] Hk]. cbn [for_each].
    unfold bind at 1, pick_target at 1. destruct (_target self) as [t|] eqn:Et.
    + cbn [ret]. destruct (IH self Hk) as (self' & -> & Ha & Hi & Hc & Hr & Ht).
      exists self'. by rewrite Ht, Et.
    + unfold bind at 1, get_expected_status. rewrite Hs, (up_eqb st node s Hs).
      unfold target_after. cbn [List.filter]. destruct (up st node); cbn [ret].
      * match goal with
        | |- context [for_each nodes pick_target ?s st] =>
            destruct (IH s Hk) as (self' & -> & Ha & Hi & Hc & Hr & Ht)
        end. exists self'. cbn in Ha, Hi, Hc, Hr, Ht. done.
      * destruct (IH self Hk) as (self' & -> & Ha & Hi & Hc & Hr & Ht). exists self'.
        rewrite Ht, Et. done.
Qed.

(** The third loop. *)
Lemma read_lines_ensures lines self st :
  ensures (for_each lines read_line self) st
    (λ self' st',
       _resources self' = _resources self ++ map parsed (resource_lines lines)
       ∧ _constraints self'
         = _constraints self ++ map parsed_constraint (constraint_lines lines)
       ∧ _active_nodes self' = _active_nodes self
       ∧ _inactive_nodes self' = _inactive_nodes self
       ∧ _target self' = _target self
       ∧ expected_status st' = expected_status st
       ∧ trace st'
         = trace st ++ map (λ line, ELog (MUnknownEntry line)) (unknown_lines lines))
    (λ e st',
       (∃ line, In line lines ∧ malformed line e)
       ∧ expected_status st' = expected_status st
       ∧ extends st st').
Proof.
  revert self st. induction lines as [|line lines IH]; intros self st.
  - apply ensures_ret. cbn. rewrite !app_nil_r. done.
  - cbn [for_each]. apply ensures_bind. unfold read_line at 1.
    unfold resource_lines, constraint_lines, unknown_lines. cbn [List.filter].
    destruct (Py.starts_with "Resource" line) eqn:Er; cbn [negb andb].
    + apply ensures_bind. unfold ensures at 1. rewrite ResourceProofs.init_resource_run.
      destruct (well_formed line) eqn:Ew.
      * apply ensures_ret. eapply ensures_mono; [apply IH| |].
        -- intros self' st' (Hr & Hc & Ha & Hi & Ht & Hs & Htr). cbn in *.
           rewrite Hr, <- app_assoc. done.
        -- intros e st' ((l & Hl & Hm) & Hs & Hx). split; [|done].
           exists l. split; [by right|done].
      * split; [|split; [done|apply extends_refl]].
        exists line. split; [by left|]. by left.
    + destruct (Py.starts_with "Constraint" line) eqn:Ec; cbn [negb andb].
      * apply ensures_bind. unfold ensures at 1. rewrite ResourceProofs.init_constraint_run.
        destruct (well_formed_constraint line) eqn:Ew.
        -- apply ensures_ret. eapply ensures_mono; [apply IH| |].
           ++ intros self' st' (Hr & Hc & Ha & Hi & Ht & Hs & Htr). cbn in *.
              rewrite Hc, <- app_assoc. done.
           ++ intros e st' ((l & Hl & Hm) & Hs & Hx). split; [|done].
              exists l. split; [by right|done].
        -- split; [|split; [done|apply extends_refl]].
           exists line. split; [by left|]. right. done.
      * apply ensures_bind. unfold ensures at 1, log, emit. apply ensures_ret.
        eapply ensures_mono; [apply IH| |].
        -- intros self' st' (Hr & Hc & Ha & Hi & Ht & Hs & Htr). cbn in *.
           rewrite Htr, <- app_assoc. done.
        -- intros e st' ((l & Hl & Hm) & Hs & Hx). split; [|split; [done|]].
           ++ exists l. split; [by right|done].
           ++ eapply extends_trans; [|exact Hx]. solve_extends.
Qed.

Lemma setup_ensures cm name self st :
  known st (env_nodes cm) →
  ensures (_setup cm name self) st (set_up cm name self st) (stopped cm self st).
Proof.
  intros Hk. unfold _setup, set_up, stopped.
  destruct (sort_nodes_run _ self st Hk) as (self1 & E1 & Ha1 & Hi1 & Hc1 & Hr1 & Ht1).
  destruct (pick_target_run _ self1 st Hk) as (self2 & E2 & Ha2 & Hi2 & Hc2 & Hr2 & Ht2).
  unfold ensures, bind at 1. rewrite E1. unfold bind at 1. rewrite E2.
  rewrite Ht1 in Ht2. rewrite Ha1 in Ha2. rewrite Hi1 in Hi2.
  rewrite Hc1 in Hc2. rewrite Hr1 in Hr2.
  destruct (_target self2) as [t|] eqn:Et.
  - destruct (Py.truthy_str t) eqn:Etr.
    + unfold bind at 1, rsh at 1, bind at 1, emit at 1, ret at 1.
      fold (listing_of cm t).
      destruct (rsh_run cm t "crm_resource --list-cts") as [rc lines] eqn:Erun.
      assert (listing_of cm t = lines) as El by (unfold listing_of; by rewrite Erun).
      cbn [snd].
      match goal with
      | |- context [bind (for_each lines read_line self2) ?k ?s] =>
          pose proof (read_lines_ensures lines self2 s) as H; unfold ensures in H;
          unfold bind at 1; destruct (for_each lines read_line self2 s) as [[self3|e] st3]
      end.
      * destruct H as (Hr3 & Hc3 & Ha3 & Hi3 & Ht3 & Hs3 & Htr3). cbn in *.
        rewrite Ha3, Hi3, Ht3, Et, <- Ht2. unfold usable, reads. cbn. rewrite Etr.
        unfold read_events. rewrite Hr3, Hc3, Hr2, Hc2, El, Htr3, <- app_assoc. done.
      * destruct H as ((line & Hl & Hm) & Hs3 & Hx). exists t, line.
        rewrite <- Ht2. unfold reads. rewrite Etr, El.
        split; [done|]. split; [done|]. split; [done|]. split; [done|].
        eapply extends_trans; [|exact Hx]. solve_extends.
    + cbn. rewrite Et. unfold usable, reads. cbn. rewrite Etr, <- Ht2. done.
  - cbn. rewrite Et, <- Ht2. done.
Qed.

(** X4: When every node has an expected status, [_setup] appends the nodes
    expected up to [_active_nodes] and the others to [_inactive_nodes], and
    keeps a target it already has, else takes the first node expected up.
    Without a target it gives False, after one debug line and no remote
    command.  With one it reads the listing from the target and appends the
    resources and the constraints of the listing to those it holds, logging
    every other line; it raises only for a line of the listing that is
    malformed. *)
Theorem setup_outcome cm name self st :
  known st (env_nodes cm) →
  ensures (_setup cm name self) st (set_up cm name self st) (stopped cm self st).
Proof. exact (setup_ensures cm name self st). Qed.

(** A loop on the instance gives what the loop on its attributes gives. *)
Lemma loop_in_place {A} (l : list A) (body : A → attrs → M attrs) self st :
  for_each l body self st
  = match InPlace.ifor_each l (λ x, InPlace.update (body x)) self st with
    | (Ok _, self', st') => (Ok self', st')
    | (Raise e, _, st') => (Raise e, st')
    end.
Proof.
  revert self st. induction l as [|x l IH]; intros self st; [done|].
  cbn [for_each InPlace.ifor_each]. unfold bind, InPlace.ibind, InPlace.update.
  destruct (body x self st) as [[self'|e] st']; [apply IH|done].
Qed.

(** [_setup] on the instance returns and raises as [_setup] does, with the
    same attributes when it returns and the same state of the cluster
    manager. *)
Lemma setup_in_place cm name self st :
  _setup cm name self st
  = match InPlace._setup cm name self st with
    | (Ok ok, self', st') => (Ok (ok, self'), st')
    | (Raise e, _, st') => (Raise e, st')
    end.
Proof.
  unfold _setup, InPlace._setup.
  unfold bind at 1, InPlace.ibind at 1. rewrite loop_in_place.
  destruct (InPlace.ifor_each (env_nodes cm) _ self st) as [[[[]|e] self1] st1]; [|done].
  unfold bind at 1, InPlace.ibind at 1. rewrite loop_in_place.
  destruct (InPlace.ifor_each (env_nodes cm) _ self1 st1) as [[[[]|e] self2] st2]; [|done].
  unfold InPlace.ibind at 1, InPlace.read.
  destruct (_target self2) as [t|]; [destruct (Py.truthy_str t)|]; try done.
  unfold bind at 1, InPlace.ibind at 1, InPlace.call.
  destruct (rsh cm t "crm_resource --list-cts" st2) as [[[rc lines]|e] st3]; [|done].
  unfold bind at 1, InPlace.ibind at 1. rewrite loop_in_place.
  by destruct (InPlace.ifor_each lines _ self2 st3) as [[[[]|e] self3] st3'].
Qed.

(** The first loop on the instance, when a node has no expected status: the
    nodes before it are in the lists of the instance. *)
Lemma sort_nodes_unknown_in_place pre node post self st :
  known st pre → expected_status st !! node = None →
  ∃ self',
    InPlace.ifor_each (pre ++ node :: post) (λ n, InPlace.update (sort_node n)) self st
    = (Raise (KeyError node), self', st)
    ∧ _active_nodes self' = _active_nodes self ++ List.filter (up st) pre
    ∧ _inactive_nodes self'
      = _inactive_nodes self ++ List.filter (λ n, negb (up st n)) pre
    ∧ _constraints self' = _constraints self
    ∧ _resources self' = _resources self
    ∧ _target self' = _target self.
Proof.
  revert self. induction pre as [|n pre IH]; intros self Hk Hn.
  - exists self. cbn [app InPlace.ifor_each List.filter].
    unfold InPlace.ibind, InPlace.update, sort_node, bind, get_expected_status.
    rewrite Hn, !app_nil_r. done.
  - apply known_cons in Hk as [[s Hs] Hk]. cbn [app InPlace.ifor_each List.filter].
    unfold InPlace.ibind at 1, InPlace.update at 1, sort_node at 1, bind at 1,
      get_expected_status.
    rewrite Hs, (up_eqb st n s Hs).
    destruct (up st n); cbn [ret negb];
      match goal with
      | |- context [InPlace.ifor_each _ _ ?s st] =>
          destruct (IH s Hk Hn) as (self' & -> & Ha & Hi & Hc & Hr & Ht)
      end; exists self';
      cbn in Ha, Hi, Hc, Hr, Ht; rewrite Ha, Hi, <- ?app_assoc; done.
Qed.

(** X5: [_setup] raises KeyError for the first node without an expected
    status, before any remote command and any line of the log: the state
    of the cluster manager is as it was.  The instance is not: the nodes
    before that one have been appended to [_active_nodes], when expected
    up, or to [_inactive_nodes], and they stay there; the resources, the
    constraints and the target are as they were. *)
Theorem setup_unknown_node cm name self st pre node post :
  env_nodes cm = pre ++ node :: post →
  known st pre → expected_status st !! node = None →
  _setup cm name self st = (Raise (KeyError node), st)
  ∧ ∃ self',
      InPlace._setup cm name self st = (Raise (KeyError node), self', st)
      ∧ _active_nodes self' = _active_nodes self ++ List.filter (up st) pre
      ∧ _inactive_nodes self'
        = _inactive_nodes self ++ List.filter (λ n, negb (up st n)) pre
      ∧ _constraints self' = _constraints self
      ∧ _resources self' = _resources self
      ∧ _target self' = _target self.
Proof.
  intros En Hk Hn.
  destruct (sort_nodes_unknown_in_place pre node post self st Hk Hn)
    as (self' & E & H).
  assert (InPlace._setup cm name self st = (Raise (KeyError node), self', st)) as E'.
  { unfold InPlace._setup, InPlace.ibind at 1. by rewrite En, E. }
  split; [by rewrite setup_in_place, E'|]. by exists self'.
Qed.

Ltac known_by_computation :=
  let node := fresh "node" in
  let H := fresh "H" in
  intros node H; simpl in H;
  repeat (destruct H as [<-|H]; [vm_compute; eauto|]); destruct H.

Lemma setup_outcome_witness :
  ensures (_setup Examples.active_without_quorum "PrimitiveAudit" init)
    Scenarios.n1_down
    (set_up Examples.active_without_quorum "PrimitiveAudit" init Scenarios.n1_down)
    (stopped Examples.active_without_quorum init Scenarios.n1_down).
Proof. apply setup_outcome. known_by_computation. Defined.

(** n1 is down: the listing is read from n2, and n1 is the inactive
    node. *)
Example setup_n1_down :
  ∃ self' st',
    _setup Examples.active_without_quorum "PrimitiveAudit" init Scenarios.n1_down
    = (Ok (true, self'), st')
    ∧ _active_nodes self' = ["n2"; "n3"] ∧ _inactive_nodes self' = ["n1"]
    ∧ _target self' = Some "n2"
    ∧ map AuditResource.id (_resources self') = ["rsc1"]
    ∧ trace st' = [ERsh "n2" "crm_resource --list-cts"].
Proof. eexists _, _. vm_compute. done. Qed.

(** A second [_setup] on the same instance appends to what the first has
    left: the nodes and the resource are there twice. *)
Example setup_twice_accumulates :
  ∃ self1 st1 self2 st2,
    _setup Examples.active_without_quorum "PrimitiveAudit" init Scenarios.n1_down
    = (Ok (true, self1), st1)
    ∧ _setup Examples.active_without_quorum "PrimitiveAudit" self1 st1
      = (Ok (true, self2), st2)
    ∧ _active_nodes self2 = ["n2"; "n3"; "n2"; "n3"]
    ∧ _inactive_nodes self2 = ["n1"; "n1"]
    ∧ map AuditResource.id (_resources self2) = ["rsc1"; "rsc1"].
Proof. eexists _, _, _, _. vm_compute. done. Qed.

Lemma setup_unknown_node_witness :
  _setup Examples.active_without_quorum "PrimitiveAudit" init Scenarios.n3_unknown
  = (Raise (KeyError "n3"), Scenarios.n3_unknown)
  ∧ ∃ self',
      InPlace._setup Examples.active_without_quorum "PrimitiveAudit" init
        Scenarios.n3_unknown
      = (Raise (KeyError "n3"), self', Scenarios.n3_unknown)
      ∧ _active_nodes self'
        = _active_nodes init ++ List.filter (up Scenarios.n3_unknown) ["n1"; "n2"]
      ∧ _inactive_nodes self'
        = _inactive_nodes init
          ++ List.filter (λ n, negb (up Scenarios.n3_unknown n)) ["n1"; "n2"]
      ∧ _constraints self' = _constraints init
      ∧ _resources self' = _resources init
      ∧ _target self' = _target init.
Proof.
  apply (setup_unknown_node _ _ _ _ ["n1"; "n2"] "n3" []);
    [reflexivity|known_by_computation|reflexivity].
Defined.

(** n3 has no expected status: [_setup] raises, and n1 and n2 are in the
    list of the active nodes of the instance. *)
Example setup_n3_unknown :
  InPlace._setup Examples.active_without_quorum "PrimitiveAudit" init
    Scenarios.n3_unknown
  = (Raise (KeyError "n3"),
     {| _active_nodes := ["n1"; "n2"]; _constraints := []; _inactive_nodes := [];
        _resources := []; _target := None |},
     Scenarios.n3_unknown).
Proof. reflexivity. Qed.

(** On the instance too, with n1 down, the listing is read from n2. *)
Example setup_n1_down_in_place :
  ∃ self' st',
    InPlace._setup Examples.active_without_quorum "PrimitiveAudit" init
      Scenarios.n1_down
    = (Ok true, self', st')
    ∧ _active_nodes self' = ["n2"; "n3"] ∧ _inactive_nodes self' = ["n1"]
    ∧ _target self' = Some "n2"
    ∧ map AuditResource.id (_resources self') = ["rsc1"]
    ∧ trace st' = [ERsh "n2" "crm_resource --list-cts"].
Proof. eexists _, _. vm_compute. done. Qed.

End SetupProofs.

(** ** PrimitiveAudit and GroupAudit: the audit of the resources *)

Module CallProofs.
Import PrimitiveAudit ResourceView SetupView PrimitiveView CallView.

Lemma audit_resource_run cm self r quorum st :
  ∃ st', _audit_resource cm self r quorum st = (Ok (negb (fails cm self r)), st')
    ∧ expected_status st' = expected_status st
    ∧ ∃ evs, trace st' = trace st ++ evs ∧ (length evs ≤ 1)%nat
             ∧ Forall (λ e, is_line e = true) evs.
Proof.
  unfold _audit_resource, fails.
  rewrite ResourceProofs.managed_bit, ResourceProofs.unique_bit, ResourceProofs.orphan_bit.
  set (n := length (resource_location cm (AuditResource.id r))).
  assert (∀ (b : bool) e, ∃ st', (Ok b, {| expected_status := expected_status st;
                                  log_kind := log_kind st; uuid_count := uuid_count st;
                                  trace := trace st ++ [e] |}) = (Ok b, st')
            ∧ expected_status st' = expected_status st
            ∧ ∃ evs, trace st' = trace st ++ evs ∧ (length evs ≤ 1)%nat
                     ∧ (is_line e = true → Forall (λ e, is_line e = true) evs)) as H1.
  { intros b e. eexists. split; [reflexivity|]. split; [done|]. exists [e].
    split; [done|]. split; [simpl; lia|]. intros He. by apply Forall_singleton. }
  assert (∀ b : bool, ∃ st', (Ok b, st) = (Ok b, st')
            ∧ expected_status st' = expected_status st
            ∧ ∃ evs, trace st' = trace st ++ evs ∧ (length evs ≤ 1)%nat
                     ∧ Forall (λ e, is_line e = true) evs) as H0.
  { intros b. exists st. split; [done|]. split; [done|]. exists [].
    rewrite app_nil_r. split; [done|]. split; [simpl; lia|done]. }
  assert (∀ (b : bool) e, is_line e = true →
            ∃ st', (Ok b, {| expected_status := expected_status st;
                             log_kind := log_kind st; uuid_count := uuid_count st;
                             trace := trace st ++ [e] |}) = (Ok b, st')
            ∧ expected_status st' = expected_status st
            ∧ ∃ evs, trace st' = trace st ++ evs ∧ (length evs ≤ 1)%nat
                     ∧ Forall (λ e, is_line e = true) evs) as H2.
  { intros b e He. destruct (H1 b e) as (st' & E & Hs & evs & Ht & Hl & Hf).
    exists st'. split; [done|]. split; [done|]. exists evs. auto. }
  destruct (n =? 1)%nat eqn:E1.
  - apply Nat.eqb_eq in E1. rewrite E1. cbn [Nat.ltb Nat.leb Nat.eqb orb andb].
    rewrite !andb_false_r. cbn [negb].
    destruct quorum; unfold bind, debug, log, emit, ret; cbn;
      first [apply H0 | by apply H2].
  - apply Nat.eqb_neq in E1. destruct (1 <? n)%nat eqn:E2.
    + destruct (bit r 1), (bit r 5); unfold bind, debug, log, emit, ret; cbn;
        first [apply H0 | by apply H2].
    + apply Nat.ltb_ge in E2. assert ((n =? 0)%nat = true) as -> by (apply Nat.eqb_eq; lia).
      destruct (bit r 1), (bit r 5), (bit r 0), (Py.truthy_list (_inactive_nodes self)),
        (env_warn_inactive cm), quorum, (Py.truthy_str (AuditResource.needs_quorum r));
        unfold bind, debug, log, emit, ret; cbn; first [apply H0 | by apply H2].
Qed.

(** X6: The audit of a resource never raises, and it fails in two cases
    alone: the resource is managed and unique, and it is active on more than
    one node, or it is active on no node, is no orphan, and no node is
    inactive.  Quorum, the field [needs_quorum] and [warn-inactive] choose
    the line it writes, never the verdict; it writes one line at most and
    runs no remote command. *)
Theorem audit_resource_verdict cm self r quorum st :
  ∃ st', _audit_resource cm self r quorum st = (Ok (negb (fails cm self r)), st')
    ∧ expected_status st' = expected_status st
    ∧ ∃ evs, trace st' = trace st ++ evs ∧ (length evs ≤ 1)%nat
             ∧ Forall (λ e, is_line e = true) evs.
Proof. exact (audit_resource_run cm self r quorum st). Qed.

(** The loop of PrimitiveAudit over the resources. *)
Lemma primitives_loop cm self quorum rs result st :
  ∃ st',
    for_each rs
      (λ resource result,
         if String.eqb (AuditResource.type resource) "primitive" then
           let* rc := _audit_resource cm self resource quorum in
           ret (if negb rc then false else result)
         else ret result)
      result st
    = (Ok (result
           && forallb
                (λ r, negb (String.eqb (AuditResource.type r) "primitive")
                      || negb (fails cm self r)) rs), st')
    ∧ expected_status st' = expected_status st
    ∧ emits (λ e, is_line e = true) st st'.
Proof.
  revert result st. induction rs as [|r rs IH]; intros result st.
  - exists st. cbn. rewrite andb_true_r. split; [done|]. split; [done|apply emits_refl].
  - cbn [for_each forallb]. unfold bind at 1.
    destruct (String.eqb (AuditResource.type r) "primitive").
    + unfold bind at 1.
      destruct (audit_resource_run cm self r quorum st)
        as (st1 & -> & Hs1 & evs & Ht1 & _ & Hf1).
      cbn [ret negb orb].
      destruct (IH (if negb (negb (fails cm self r)) then false else result) st1)
        as (st2 & -> & Hs2 & Hem2).
      exists st2. split.
      * f_equal. f_equal. destruct (fails cm self r), result; done.
      * split; [congruence|]. eapply emits_trans; [|exact Hem2]. by exists evs.
    + cbn [ret negb orb]. destruct (IH result st) as (st2 & -> & Hs2 & Hem2).
      exists st2. done.
Qed.

(** X7: PrimitiveAudit raises exactly when [_setup] does; it returns True when
    [_setup] finds no node to ask, and else True exactly when no primitive
    that the instance holds fails the audit of a resource.  After [_setup]
    it runs no remote command. *)
Theorem primitive_call_verdict cm self st :
  match _setup cm "PrimitiveAudit" self st with
  | (Ok (ok, self'), st') =>
      ∃ st'',
        __call__ cm self st = (Ok (negb ok || primitives_pass cm self', self'), st'')
        ∧ expected_status st'' = expected_status st'
        ∧ emits (λ e, is_line e = true) st' st''
  | (Raise e, st') => __call__ cm self st = (Raise e, st')
  end.
Proof.
  destruct (_setup cm "PrimitiveAudit" self st) as [[[ok self']|e] st'] eqn:E;
    unfold __call__; unfold bind at 1; rewrite E; [|done].
  destruct ok; cbn [negb orb].
  - unfold bind at 1.
    destruct (primitives_loop cm self' (has_quorum cm) (_resources self') true st')
      as (st'' & -> & Hs & Hem).
    exists st''. done.
  - exists st'. split; [done|]. split; [done|apply emits_refl].
Qed.

(** The loop of GroupAudit over the resources. *)
Lemma groups_loop cm resources gs result st :
  returns (for_each gs (GroupAudit.audit_group cm resources) result) st
    (λ r _,
       r = result
           && forallb
                (λ g, negb (String.eqb (AuditResource.type g) "group")
                      || GroupView.group_passes
                           (GroupView.locations cm (GroupView.children resources g)))
                gs).
Proof.
  revert result st. induction gs as [|g gs IH]; intros result st.
  - apply returns_ret. cbn. by rewrite andb_true_r.
  - cbn [for_each forallb]. apply returns_bind.
    destruct (String.eqb (AuditResource.type g) "group") eqn:Et.
    + apply String.eqb_eq in Et.
      eapply returns_mono; [by apply GroupProofs.audit_group_returns|].
      intros r st1 ->. eapply returns_mono; [apply IH|].
      intros r st2 ->. cbn [negb orb]. by rewrite andb_assoc.
    + unfold GroupAudit.audit_group. rewrite Et. cbn [negb orb]. apply returns_ret.
      eapply returns_mono; [apply IH|]. by intros r st2 ->.
Qed.

(** X8: GroupAudit raises exactly when [_setup] does; it returns True when
    [_setup] finds no node to ask, and else True exactly when the children
    of every group that the instance holds pass the walk over them. *)
Theorem group_call_verdict cm self st :
  match _setup cm "GroupAudit" self st with
  | (Ok (ok, self'), st') =>
      ∃ st'',
        GroupAudit.__call__ cm self st
        = (Ok (negb ok || groups_pass cm self', self'), st'')
  | (Raise e, st') => GroupAudit.__call__ cm self st = (Raise e, st')
  end.
Proof.
  destruct (_setup cm "GroupAudit" self st) as [[[ok self']|e] st'] eqn:E;
    unfold GroupAudit.__call__; unfold bind at 1; rewrite E; [|done].
  destruct ok; cbn [negb orb]; [|by exists st'].
  pose proof (groups_loop cm (_resources self') (_resources self') true st') as H.
  apply returns_ex in H as (r & st'' & Er & ->).
  exists st''. unfold bind at 1. by rewrite Er.
Qed.

End CallProofs.

(** ** CIBAudit and PartitionAudit: the loops over the partitions *)

Module PartitionsProofs.
Import CIBView CallView.

Lemma eq_False_0 (passed : bool) : Py.eq (Py.VBool passed) (Py.VInt 0) = negb passed.
Proof. by destruct passed. Qed.

(** The loop of CIBAudit over the partitions. *)
Lemma cib_loop cm partitions result st :
  returns
    (for_each partitions
       (λ partition result,
          debug (MAuditingCib partition) ;;
          let* passed := CIBAudit._audit_cib_contents cm partition in
          ret (if Py.eq (Py.VBool passed) (Py.VInt 0) then false else result))
       result) st
    (λ r _, r = result && forallb (λ p, consistent cm (Py.split p)) partitions).
Proof.
  revert result st. induction partitions as [|p ps IH]; intros result st.
  - apply returns_ret. cbn. by rewrite andb_true_r.
  - cbn [for_each forallb]. apply returns_bind, returns_bind, returns_emit.
    intros st1 _ _ _ _. apply returns_bind.
    eapply returns_mono; [apply CIBProofs.audit_cib_contents_returns|].
    intros passed st2 ->. apply returns_ret.
    eapply returns_mono; [apply IH|]. intros r st3 ->.
    rewrite eq_False_0. by destruct (consistent cm (Py.split p)), result.
Qed.

(** X9: CIBAudit never raises.  It returns True exactly when every partition
    is consistent: each of its nodes gives its configuration, and crm_diff
    finds no difference from the first to each other.  Without a partition
    it returns True after one debug line. *)
Theorem cib_call_verdict cm st :
  ∃ st', CIBAudit.__call__ cm st = (Ok (cibs_pass cm), st')
         ∧ (find_partitions cm = [] →
            trace st' = trace st ++ [EDebug MNoPartitionsToAudit]).
Proof.
  unfold CIBAudit.__call__, cibs_pass.
  destruct (find_partitions cm) as [|p ps] eqn:E; cbn [Py.truthy_list negb].
  - eexists. split; [reflexivity|]. done.
  - pose proof (cib_loop cm (p :: ps) true st) as H.
    apply returns_ex in H as (r & st' & Er & ->). exists st'. split; [exact Er|done].
Qed.

Lemma audited_app evs1 evs2 : audited (evs1 ++ evs2) = audited evs1 ++ audited evs2.
Proof. apply omap_app. Qed.

Lemma audited_none evs :
  Forall (λ e, ∀ partition, e ≠ EDebug (MAuditingPartition partition)) evs →
  audited evs = [].
Proof.
  induction 1 as [|e evs He _ IH]; [done|].
  change (e :: evs) with ([e] ++ evs). rewrite audited_app, IH, app_nil_r.
  destruct e as [|m| | | | | |]; try done. destruct m; try done.
  match goal with
  | H : ∀ p, EDebug (MAuditingPartition ?q) ≠ _ |- _ => by destruct (H q)
  end.
Qed.

(** The audit of a partition writes that it audits it, once and first, and
    whether it returns or raises. *)
Lemma audit_partition_begins cm self partition st :
  ensures (PartitionAudit._audit_partition cm self partition) st
    (λ _ st', ∃ evs, trace st' = trace st ++ evs ∧ audited evs = [partition])
    (λ _ st', ∃ evs, trace st' = trace st ++ evs ∧ audited evs = [partition]).
Proof.
  unfold PartitionAudit._audit_partition. apply ensures_bind.
  unfold ensures at 1, debug, emit.
  match goal with
  | |- ensures ?c ?s _ _ =>
      assert (says (λ e, ∀ partition, e ≠ EDebug (MAuditingPartition partition)) c) as H;
      [|pose proof (H s) as Hs]
  end.
  { unfold PartitionAudit.verdict, PartitionAudit.collect, PartitionAudit.check_dc,
      PartitionAudit.dump, PartitionAudit._trim2int.
    solve_says; done. }
  eapply ensures_mono; [exact Hs| |]; intros ? st' (evs & Ht & Hf);
    exists (EDebug (MAuditingPartition partition) :: evs); cbn [trace] in Ht;
    (split; [by rewrite Ht, <- app_assoc|]);
    change (EDebug (MAuditingPartition partition) :: evs)
      with ([EDebug (MAuditingPartition partition)] ++ evs);
    by rewrite audited_app, (audited_none evs Hf).
Qed.

(** The loop of PartitionAudit over the partitions, from a result that is
    False: every partition is audited, in order, unless the audit of one
    raises. *)
Lemma partitions_loop_false cm partitions self st :
  ensures
    (for_each partitions
       (λ partition '(result, self),
          let* (passed, self) := PartitionAudit._audit_partition cm self partition in
          ret (if Py.eq (Py.VBool passed) (Py.VInt 0) then false else result, self))
       (false, self)) st
    (λ r st', r.1 = false
              ∧ ∃ evs, trace st' = trace st ++ evs ∧ audited evs = partitions)
    (λ _ st', ∃ evs done_ left_,
              trace st' = trace st ++ evs ∧ audited evs = done_ ++ [left_]
              ∧ (done_ ++ [left_]) `prefix_of` partitions).
Proof.
  revert self st. induction partitions as [|p ps IH]; intros self st.
  - apply ensures_ret. split; [done|]. exists []. by rewrite app_nil_r.
  - cbn [for_each]. apply ensures_bind, ensures_bind.
    eapply ensures_mono; [apply audit_partition_begins| |].
    + intros [passed self1] st1 (evs1 & Ht1 & Ha1). apply ensures_ret.
      replace (if Py.eq (Py.VBool passed) (Py.VInt 0) then false else false) with false
        by (by destruct (Py.eq _ _)).
      eapply ensures_mono; [apply IH| |].
      * intros r st2 (Hr & evs2 & Ht2 & Ha2). split; [done|]. exists (evs1 ++ evs2).
        by rewrite Ht2, Ht1, audited_app, Ha1, Ha2, <- app_assoc.
      * intros e st2 (evs2 & done_ & left_ & Ht2 & Ha2 & Hp).
        exists (evs1 ++ evs2), (p :: done_), left_.
        rewrite Ht2, Ht1, audited_app, Ha1, Ha2, <- app_assoc.
        split; [done|]. split; [done|]. by apply prefix_cons.
    + intros e st1 (evs1 & Ht1 & Ha1). exists evs1, [], p.
      split; [done|]. split; [done|]. by apply prefix_cons, prefix_nil.
Qed.

Lemma partition_lines_run (partitions : list string) st :
  returns (for_each partitions (λ partition _, log (MPartitionLine partition)) tt) st
    (λ _ st', trace st' = trace st ++ map (λ p, ELog (MPartitionLine p)) partitions).
Proof.
  revert st. induction partitions as [|p ps IH]; intros st.
  - apply returns_ret. by rewrite app_nil_r.
  - cbn [for_each map]. apply returns_bind, returns_emit. intros st1 _ _ _ Ht.
    eapply returns_mono; [apply IH|]. intros u st2 Ht2. cbn beta in Ht2.
    by rewrite Ht2, Ht, <- app_assoc.
Qed.

(** X10: Without a partition PartitionAudit returns True at once, whatever the
    number of partitions expected, and calls nothing.  With partitions whose
    number is not the one expected, it waits for the cluster to be stable,
    logs their number and each of them, and then audits the partitions in
    their order.  It never returns True: it returns False, when every
    partition has been audited, whatever the audits gave; or it raises, out
    of the audit of a partition, and the partitions after that one are not
    audited. *)
Theorem partition_call_count cm self st :
  (find_partitions cm = [] → PartitionAudit.__call__ cm self st = (Ok (true, self), st))
  ∧ (find_partitions cm ≠ [] →
     Z.of_nat (length (find_partitions cm)) ≠ partitions_expected cm →
     ensures (PartitionAudit.__call__ cm self) st
       (λ r st',
          r.1 = false
          ∧ ∃ evs, trace st' = trace st ++ count_report cm ++ evs
                   ∧ audited evs = find_partitions cm)
       (λ _ st',
          ∃ evs done_ left_,
            trace st' = trace st ++ count_report cm ++ evs
            ∧ audited evs = done_ ++ [left_]
            ∧ (done_ ++ [left_]) `prefix_of` find_partitions cm)).
Proof.
  unfold PartitionAudit.__call__, count_report. split.
  - by intros ->.
  - intros Hne Hn. destruct (find_partitions cm) as [|p ps] eqn:E; [done|].
    cbn [Py.truthy_list negb]. apply Z.eqb_neq in Hn. rewrite Hn. cbn [negb].
    apply ensures_bind. unfold ensures at 1, emit. apply ensures_bind, ensures_bind.
    unfold ensures at 1, log, emit. apply ensures_bind.
    eapply ensures_mono; [apply partition_lines_run| |by intros].
    intros [] st1 Ht1. apply ensures_ret. cbn [trace] in Ht1.
    eapply ensures_mono; [apply partitions_loop_false| |].
    + intros r st2 (Hr & evs & Ht2 & Ha). split; [done|]. exists evs.
      split; [|done]. rewrite Ht2, Ht1, <- !app_assoc. done.
    + intros e st2 (evs & done_ & left_ & Ht2 & Ha & Hp). exists evs, done_, left_.
      split; [|done]. rewrite Ht2, Ht1, <- !app_assoc. done.
Qed.

Lemma partition_call_count_witness :
  PartitionAudit.__call__ Examples.leader_at_5 PartitionAudit.init Examples.three_up
  = (Ok (true, PartitionAudit.init), Examples.three_up)
  ∧ ensures (PartitionAudit.__call__ Scenarios.split_brain PartitionAudit.init)
      Examples.three_up
      (λ r st',
         r.1 = false
         ∧ ∃ evs, trace st'
                  = trace Examples.three_up ++ count_report Scenarios.split_brain ++ evs
                  ∧ audited evs = find_partitions Scenarios.split_brain)
      (λ _ st',
         ∃ evs done_ left_,
           trace st'
           = trace Examples.three_up ++ count_report Scenarios.split_brain ++ evs
           ∧ audited evs = done_ ++ [left_]
           ∧ (done_ ++ [left_]) `prefix_of` find_partitions Scenarios.split_brain).
Proof.
  split.
  - apply (proj1 (partition_call_count Examples.leader_at_5 PartitionAudit.init
                    Examples.three_up)). reflexivity.
  - apply (proj2 (partition_call_count Scenarios.split_brain PartitionAudit.init
                    Examples.three_up)); [done|]. vm_compute. done.
Defined.

(** The audit of the second partition raises: the first partition was
    audited, the audit of the second was begun, and the third is not
    audited. *)
Example second_partition_raises :
  ∃ st' evs,
    PartitionAudit.__call__ Scenarios.silent_partition PartitionAudit.init
      Examples.three_up = (Raise IndexError, st')
    ∧ trace st' = count_report Scenarios.silent_partition ++ evs
    ∧ audited evs = ["n1"; "n2"].
Proof. eexists _, _. split; [vm_compute; reflexivity|]. split; reflexivity. Qed.

(** Two partitions where one is expected: the audit of each partition
    passes, and the audit fails. *)
Example split_brain_fails :
  PartitionView.verdict_of
    (PartitionAudit._audit_partition Scenarios.split_brain PartitionAudit.init "n1 n2"
       Examples.three_up) = Ok true
  ∧ PartitionView.verdict_of
      (PartitionAudit.__call__ Scenarios.split_brain PartitionAudit.init
         Examples.three_up) = Ok false.
Proof. split; vm_compute; reflexivity. Qed.

End PartitionsProofs.

(** ** FileAudit: the verdict, the known core files and the cleanup *)

Module FileVerdict.
Import FileAudit FileView CleanupView.

(** The loop of [_find_core_on_fs] over the lines, from any [known]. *)
Lemma find_lines_run node tool lsout found known st :
  returns
    (for_each lsout
       (λ line '(found, known),
          let line := Py.strip line in
          if bool_decide (line ∈ known) then ret (found, known)
          else log (MCoreFile tool node line) ;; ret (true, known ++ [line]))
       (found, known)) st
    (λ r st',
       r.1 = found || negb (forallb (λ line, bool_decide (line ∈ known))
                              (map Py.strip lsout))
       ∧ (∃ new, r.2 = known ++ new)
       ∧ (NoDup known → NoDup r.2)
       ∧ (forallb (λ line, bool_decide (line ∈ known)) (map Py.strip lsout) = true →
          r.2 = known)
       ∧ expected_status st' = expected_status st
       ∧ emits (λ e, is_cleanup e = false) st st').
Proof.
  revert found known st. induction lsout as [|line lsout IH]; intros found known st.
  - apply returns_ret. cbn. rewrite orb_false_r. split; [done|].
    split; [exists []; by rewrite app_nil_r|]. split; [done|]. split; [done|].
    split; [done|apply emits_refl].
  - cbn [for_each map forallb]. apply returns_bind.
    destruct (bool_decide (Py.strip line ∈ known)) eqn:Ek.
    + apply returns_ret. cbn [andb]. apply IH.
    + apply returns_bind, returns_emit. intros st1 Es1 _ _ Et1. apply returns_ret.
      apply bool_decide_eq_false in Ek.
      eapply returns_mono; [apply IH|].
      intros [found' known'] st2 (Hf & (new & Hn) & Hd & Hsame & Es2 & Hem).
      cbn [fst snd] in *. cbn [andb negb]. rewrite orb_true_r.
      split; [by rewrite Hf|]. split.
      { exists (Py.strip line :: new). rewrite Hn, <- app_assoc. done. }
      split.
      { intros Hnd. apply Hd. apply NoDup_app. split; [done|].
        split; [|apply NoDup_singleton]. intros x Hx ->%list_elem_of_singleton. done. }
      split; [done|]. split; [congruence|].
      eapply emits_trans; [|exact Hem]. exists [ELog (MCoreFile tool node (Py.strip line))].
      split; [exact Et1|]. by apply Forall_singleton.
Qed.

Lemma find_core_run cm known node path tool st :
  returns (_find_core_on_fs cm known node path tool) st
    (λ r st',
       r.1 = negb (path_known cm known node path)
       ∧ (∃ new, r.2 = known ++ new)
       ∧ (NoDup known → NoDup r.2)
       ∧ (path_known cm known node path = true → r.2 = known)
       ∧ expected_status st' = expected_status st
       ∧ emits (λ e, is_cleanup e = false) st st').
Proof.
  unfold _find_core_on_fs, path_known, core_lines. apply returns_bind. unfold rsh.
  apply returns_bind, returns_emit. intros st1 Es1 _ _ Et1. apply returns_ret.
  destruct (rsh_run cm node _) as [rc lsout]. cbn [snd].
  eapply returns_mono; [apply find_lines_run|].
  intros r st' (Hf & Hn & Hd & Hsame & Es & Hem). cbn [orb] in Hf.
  split; [done|]. split; [done|]. split; [done|]. split; [done|].
  split; [congruence|]. eapply emits_trans; [|exact Hem].
  eexists. split; [exact Et1|]. by apply Forall_singleton.
Qed.

Lemma cleaned_app evs1 evs2 : cleaned (evs1 ++ evs2) = cleaned evs1 ++ cleaned evs2.
Proof. apply omap_app. Qed.

Lemma cleaned_quiet evs : Forall (λ e, is_cleanup e = false) evs → cleaned evs = [].
Proof.
  induction 1 as [|e evs He _ IH]; [done|].
  change (e :: evs) with ([e] ++ evs). rewrite cleaned_app, IH, app_nil_r.
  destruct e; try done. unfold cleaned, is_cleanup in *. cbn. by rewrite He.
Qed.

Lemma cleans_quiet st st' : emits (λ e, is_cleanup e = false) st st' → cleans st st' [].
Proof. intros (evs & Ht & Hf). exists evs. split; [done|by apply cleaned_quiet]. Qed.

Lemma cleans_trans st1 st2 st3 l1 l2 :
  cleans st1 st2 l1 → cleans st2 st3 l2 → cleans st1 st3 (l1 ++ l2).
Proof.
  intros (e1 & H1 & C1) (e2 & H2 & C2). exists (e1 ++ e2).
  split; [by rewrite H2, H1, app_assoc|]. by rewrite cleaned_app, C1, C2.
Qed.

Lemma stale_lines_run node lsout s st :
  returns (for_each lsout (stale node) s) st
    (λ r st',
       r = match lsout with [] => s | _ => (false, true) end
       ∧ expected_status st' = expected_status st
       ∧ emits (λ e, is_cleanup e = false) st st').
Proof.
  revert s st. induction lsout as [|line lsout IH]; intros s st.
  - apply returns_ret. split; [done|]. split; [done|apply emits_refl].
  - cbn [for_each]. apply returns_bind. unfold stale at 1.
    apply returns_bind, returns_emit. intros st1 Es1 _ _ Et1. apply returns_ret.
    eapply returns_mono; [apply IH|]. intros r st2 (-> & Es2 & Hem).
    split; [by destruct lsout|]. split; [congruence|].
    eapply emits_trans; [|exact Hem]. eexists. split; [exact Et1|].
    by apply Forall_singleton.
Qed.

Lemma ps_lines_run node (lsout : list string) st :
  returns (for_each lsout (λ line _, debug (MPs node line)) tt) st
    (λ _ st',
       expected_status st' = expected_status st
       ∧ emits (λ e, is_cleanup e = false) st st').
Proof.
  revert st. induction lsout as [|line lsout IH]; intros st.
  - apply returns_ret. split; [done|apply emits_refl].
  - cbn [for_each]. apply returns_bind, returns_emit. intros st1 Es1 _ _ Et1.
    eapply returns_mono; [apply IH|]. intros r st2 (Es2 & Hem).
    split; [congruence|]. eapply emits_trans; [|exact Hem]. eexists.
    split; [exact Et1|]. by apply Forall_singleton.
Qed.

Lemma stale_ipc_run cm node result st :
  returns (stale_ipc cm node result) st
    (λ r st',
       r = result && negb (stale_on cm st node)
       ∧ expected_status st' = expected_status st
       ∧ cleans st st' (if stale_on cm st node then [node] else [])).
Proof.
  unfold stale_ipc, stale_on, stale_lines. apply returns_bind, returns_lookup.
  destruct (bool_decide (expected_status st !! node = Some "down")); cbn [andb].
  - apply returns_bind. unfold rsh at 1.
    apply returns_bind, returns_emit. intros st1 Es1 _ _ Et1. apply returns_ret.
    destruct (rsh_run cm node "ls -al /dev/shm | grep qb-") as [rc lsout]. cbn [snd].
    assert (emits (λ e, is_cleanup e = false) st st1) as Hem1.
    { eexists. split; [exact Et1|]. by apply Forall_singleton. }
    apply returns_bind. eapply returns_mono; [apply stale_lines_run|].
    intros r st2 (-> & Es2 & Hem2).
    pose proof (emits_trans _ _ _ _ Hem1 Hem2) as Hem12.
    destruct lsout as [|line lsout]; cbn [Py.truthy_list negb].
    + apply returns_bind, returns_ret, returns_ret. rewrite andb_true_r.
      split; [done|]. split; [congruence|]. by apply cleans_quiet.
    + apply returns_bind, returns_bind. unfold rsh at 1.
      apply returns_bind, returns_emit. intros st3 Es3 _ _ Et3. apply returns_ret.
      destruct (rsh_run cm node "ps axf | grep -e pacemaker -e corosync") as [rc' psout].
      apply returns_bind. eapply returns_mono; [apply ps_lines_run|].
      intros [] st4 (Es4 & Hem4). apply returns_bind. unfold rsh.
      apply returns_bind, returns_emit. intros st5 Es5 _ _ Et5.
      apply returns_ret, returns_ret, returns_ret. rewrite andb_false_r.
      split; [done|]. split; [congruence|].
      assert (emits (λ e, is_cleanup e = false) st st4) as Hq.
      { eapply emits_trans; [exact Hem12|]. eapply emits_trans; [|exact Hem4].
        eexists. split; [exact Et3|]. by apply Forall_singleton. }
      apply (cleans_trans st st4 st5 [] [node]); [by apply cleans_quiet|].
      exists [ERsh node "rm -rf /dev/shm/qb-*"]. split; [exact Et5|done].
  - apply returns_bind, returns_emit. intros st1 Es1 _ _ Et1. apply returns_ret.
    rewrite andb_true_r. split; [done|]. split; [done|]. apply cleans_quiet.
    eexists. split; [exact Et1|]. by apply Forall_singleton.
Qed.

Lemma audit_node_run cm node result known st :
  returns (audit_node cm node (result, known)) st
    (λ r st',
       r.1 = result && node_known cm known node && negb (stale_on cm st node)
       ∧ (∃ new, r.2 = known ++ new)
       ∧ (NoDup known → NoDup r.2)
       ∧ (node_known cm known node = true → r.2 = known)
       ∧ expected_status st' = expected_status st
       ∧ cleans st st' (if stale_on cm st node then [node] else [])).
Proof.
  unfold audit_node, node_known, core_paths. cbn [forallb]. apply returns_bind.
  eapply returns_mono; [apply find_core_run|].
  intros [found1 known1] st1 (Hf1 & (new1 & Hn1) & Hd1 & Hs1 & Es1 & Hem1).
  cbn [fst snd] in *. apply returns_bind.
  eapply returns_mono; [apply find_core_run|].
  intros [found2 known2] st2 (Hf2 & (new2 & Hn2) & Hd2 & Hs2 & Es2 & Hem2).
  cbn [fst snd] in *. apply returns_bind.
  eapply returns_mono; [apply stale_ipc_run|].
  intros r st3 (-> & Es3 & Hc3). apply returns_ret. cbn [fst snd].
  assert (stale_on cm st2 node = stale_on cm st node) as Hst
    by (unfold stale_on; by rewrite Es2, Es1).
  rewrite Hst in *. subst found1 found2. rewrite andb_true_r. split.
  { destruct (path_known cm known node "/var/lib/pacemaker/cores/*") eqn:E1.
    - rewrite (Hs1 eq_refl). cbn [negb andb].
      destruct (path_known cm known node "/var/lib/corosync"), result; done.
    - cbn [negb andb]. rewrite andb_false_r.
      by destruct (path_known cm known1 node "/var/lib/corosync"). }
  split; [exists (new1 ++ new2); by rewrite Hn2, Hn1, app_assoc|].
  split; [auto|]. split.
  { intros [E1 E2]%andb_prop. rewrite (Hs1 E1) in *. by apply Hs2. }
  split; [congruence|].
  apply (cleans_trans st st2 st3 []); [|done].
  apply cleans_quiet. by eapply emits_trans.
Qed.

Lemma audit_nodes_run cm nodes result known st :
  returns (for_each nodes (audit_node cm) (result, known)) st
    (λ r st',
       r.1 = result && all_known cm nodes known && none_stale cm st nodes
       ∧ (∃ new, r.2 = known ++ new)
       ∧ (NoDup known → NoDup r.2)
       ∧ (all_known cm nodes known = true → r.2 = known)
       ∧ expected_status st' = expected_status st
       ∧ cleans st st' (List.filter (stale_on cm st) nodes)).
Proof.
  revert result known st. induction nodes as [|node nodes IH]; intros result known st.
  - apply returns_ret. cbn. rewrite !andb_true_r. split; [done|].
    split; [exists []; by rewrite app_nil_r|]. split; [done|]. split; [done|].
    split; [done|]. exists []. by rewrite app_nil_r.
  - cbn [for_each]. apply returns_bind.
    eapply returns_mono; [apply audit_node_run|].
    intros [r1 known1] st1 (Hr1 & (new1 & Hn1) & Hd1 & Hs1 & Es1 & Hc1).
    cbn [fst snd] in *.
    eapply returns_mono; [apply IH|].
    intros [r2 known2] st2 (Hr2 & (new2 & Hn2) & Hd2 & Hs2 & Es2 & Hc2).
    cbn [fst snd] in *. unfold all_known, none_stale in *. cbn [forallb List.filter].
    assert (∀ n, stale_on cm st1 n = stale_on cm st n) as Hst
      by (intros n; unfold stale_on; by rewrite Es1).
    rewrite (forallb_eq _ _ _ (λ n, f_equal negb (Hst n))) in Hr2.
    rewrite (filter_ext _ _ Hst) in Hc2.
    split.
    { rewrite Hr2, Hr1. destruct (node_known cm known node) eqn:E1.
      - rewrite (Hs1 eq_refl).
        destruct result, (stale_on cm st node), (forallb (node_known cm known) nodes); done.
      - by rewrite !andb_false_r. }
    split; [exists (new1 ++ new2); by rewrite Hn2, Hn1, app_assoc|].
    split; [auto|]. split.
    { intros [E1 E2]%andb_prop. rewrite (Hs1 E1) in *. by apply Hs2. }
    split; [congruence|].
    destruct (stale_on cm st node); [|exact (cleans_trans _ _ _ [] _ Hc1 Hc2)].
    exact (cleans_trans _ _ _ [node] _ Hc1 Hc2).
Qed.

(** X11: FileAudit never raises.  It returns True exactly when every core file
    that a node lists is known already and no node expected down lists a
    stale IPC file.  It adds what it finds to the end of [known] and adds no
    file twice; when it returns True it leaves [known] as it is. *)
Theorem file_audit_verdict cm known st :
  ∃ r known' st',
    __call__ cm known st = (Ok (r, known'), st')
    ∧ r = all_known cm (env_nodes cm) known && none_stale cm st (env_nodes cm)
    ∧ (∃ new, known' = known ++ new)
    ∧ (NoDup known → NoDup known')
    ∧ (r = true → known' = known)
    ∧ expected_status st' = expected_status st.
Proof.
  assert (returns (__call__ cm known) st (λ r st',
            r.1 = all_known cm (env_nodes cm) known && none_stale cm st (env_nodes cm)
            ∧ (∃ new, r.2 = known ++ new)
            ∧ (NoDup known → NoDup r.2)
            ∧ (all_known cm (env_nodes cm) known = true → r.2 = known)
            ∧ expected_status st' = expected_status st)) as H.
  { unfold __call__. apply returns_bind, returns_emit. intros st0 Es0 _ _ Et0.
    eapply returns_mono; [apply audit_nodes_run|].
    intros r st' (Hr & Hn & Hd & Hs & Es & _). cbn [andb] in Hr.
    assert (none_stale cm st0 (env_nodes cm) = none_stale cm st (env_nodes cm)) as Hst.
    { unfold none_stale. apply forallb_eq. intros n. unfold stale_on. by rewrite Es0. }
    rewrite Hst in Hr. split; [done|]. split; [done|]. split; [done|].
    split; [done|congruence]. }
  apply returns_ex in H as ([r known'] & st' & E & Hr & Hn & Hd & Hs & Es).
  cbn [fst snd] in *. exists r, known', st'. split; [done|]. split; [done|].
  split; [done|]. split; [done|]. split; [|done].
  intros ->. symmetry in Hr. apply andb_prop in Hr as [Hk _]. by apply Hs.
Qed.

(** X12: FileAudit removes the IPC files, with [rm -rf /dev/shm/qb-*], on the
    nodes that are expected down and list a stale IPC file, once each and in
    the order of the nodes, and on no other node. *)
Theorem file_audit_cleanup cm known st :
  ∃ r st' evs,
    __call__ cm known st = (Ok r, st')
    ∧ trace st' = trace st ++ evs
    ∧ cleaned evs = List.filter (stale_on cm st) (env_nodes cm).
Proof.
  assert (returns (__call__ cm known) st (λ r st',
            cleans st st' (List.filter (stale_on cm st) (env_nodes cm)))) as H.
  { unfold __call__. apply returns_bind, returns_emit. intros st0 Es0 _ _ Et0.
    eapply returns_mono; [apply audit_nodes_run|].
    intros r st' (_ & _ & _ & _ & _ & Hc).
    assert (∀ n, stale_on cm st0 n = stale_on cm st n) as Hst
      by (intros n; unfold stale_on; by rewrite Es0).
    rewrite (filter_ext _ _ Hst) in Hc.
    apply (cleans_trans st st0 st' [] _); [|done].
    exists [EWaitForAllNodes (env_nodes cm)]. done. }
  apply returns_ex in H as (r & st' & E & evs & Ht & Hc). by exists r, st', evs.
Qed.

(** Every node lists a stale IPC file, and n1 and n3 are expected down:
    the files are removed on n1 and on n3, and the audit fails. *)
Example cleanup_on_down_nodes :
  ∃ known' st',
    __call__ Scenarios.stale_everywhere [] Scenarios.n1_n3_down
    = (Ok (false, known'), st')
    ∧ cleaned (trace st') = ["n1"; "n3"].
Proof. eexists _, _. vm_compute. done. Qed.

End FileVerdict.

(** ** DiskAudit: a probe that does not split into two fields *)

Module DiskGarbled.
Import DiskAudit DiskView.

Lemma garbled_probe_run cm node s st :
  two_fields cm node = false →
  ∃ line st1,
    head (rsh_run cm node (dfcmd cm)).2 = Some line
    ∧ trace st1 = trace st ++ [ERsh node (dfcmd cm)]
    ∧ expected_status st1 = expected_status st
    ∧ probe cm node s st = invalid (Py.strip line) node s st1.
Proof.
  unfold two_fields, fields, probe, rsh. intros H.
  unfold bind at 1, bind at 1, emit, ret at 1.
  destruct (rsh_run cm node (dfcmd cm)) as [rc dfout]. cbn [snd] in *.
  destruct dfout as [|line dfout]; [done|]. cbn [Py.truthy_list negb first].
  exists line, {| expected_status := expected_status st; log_kind := log_kind st;
                  uuid_count := uuid_count st;
                  trace := trace st ++ [ERsh node (dfcmd cm)] |}.
  split; [done|]. split; [done|]. split; [done|]. unfold bind at 1, ret at 1.
  destruct (Py.split (Py.strip line)) as [|u [|r [|x l]]]; done.
Qed.

(** X13: When the first line of a probe does not split into two fields, the
    handler of the error formats [used] and [remain], which the failed
    assignment has not bound: the probe raises UnboundLocalError when no
    earlier probe has bound them, and else writes the warning with the values
    that an earlier node gave, and the audit goes on.  So the audit raises
    when the probe of the first node is such a line. *)
Theorem disk_garbled_probe cm node s st :
  two_fields cm node = false →
  match used s, remain s with
  | Some u, Some r =>
      ∃ line st',
        head (rsh_run cm node (dfcmd cm)).2 = Some line
        ∧ probe cm node s st = (Ok s, st')
        ∧ trace st'
          = trace st ++ [ERsh node (dfcmd cm);
                          ELog (MDfInvalid (Py.strip line) node u r)]
  | None, _ =>
      ∃ st', probe cm node s st = (Raise (UnboundLocalError "used"), st')
  | Some _, None =>
      ∃ st', probe cm node s st = (Raise (UnboundLocalError "remain"), st')
  end
  ∧ ∀ nodes, env_nodes cm = node :: nodes →
      ∃ st', __call__ cm st = (Raise (UnboundLocalError "used"), st').
Proof.
  intros H. split.
  - destruct (garbled_probe_run cm node s st H) as (line & st1 & Hl & Ht & Hs & ->).
    unfold invalid. destruct (used s) as [u|]; [destruct (remain s) as [r|]|].
    + exists line. eexists. split; [done|]. split; [reflexivity|]. cbn.
      by rewrite Ht, <- app_assoc.
    + by eexists.
    + by eexists.
  - intros nodes En. unfold __call__. rewrite En. cbn [for_each].
    unfold bind at 1, emit. unfold bind at 1, bind at 1.
    match goal with
    | |- context [probe cm node ?s0 ?st0] =>
        destruct (garbled_probe_run cm node s0 st0 H) as (line & st1 & _ & _ & _ & ->)
    end.
    by eexists.
Qed.

Lemma disk_garbled_probe_witness :
  (∃ line st',
     head (rsh_run Examples.df_garbled "n1" (dfcmd Examples.df_garbled)).2 = Some line
     ∧ probe Examples.df_garbled "n1"
         {| result := true; used := Some "40"; remain := Some "5000" |}
         Examples.three_up
       = (Ok {| result := true; used := Some "40"; remain := Some "5000" |}, st')
     ∧ trace st'
       = trace Examples.three_up
         ++ [ERsh "n1" (dfcmd Examples.df_garbled);
             ELog (MDfInvalid (Py.strip line) "n1" "40" "5000")])
  ∧ ∀ nodes, env_nodes Examples.df_garbled = "n1" :: nodes →
      ∃ st', __call__ Examples.df_garbled Examples.three_up
             = (Raise (UnboundLocalError "used"), st').
Proof.
  apply (disk_garbled_probe Examples.df_garbled "n1"
           {| result := true; used := Some "40"; remain := Some "5000" |}
           Examples.three_up).
  reflexivity.
Defined.

(** After a probe of 40% and 5000 MB, a probe that gives [df:] alone is
    reported with the values 40 and 5000. *)
Example garbled_after_valid :
  ∃ st',
    probe Examples.df_garbled "n2"
      {| result := true; used := Some "40"; remain := Some "5000" |} Examples.three_up
    = (Ok {| result := true; used := Some "40"; remain := Some "5000" |}, st')
    ∧ last (trace st') = Some (ELog (MDfInvalid "df:" "n2" "40" "5000")).
Proof. eexists. vm_compute. done. Qed.

End DiskGarbled.

(** ** LogAudit: the short name of a node *)

Module NameProofs.
Import LogAudit.

Lemma until_dot_split s :
  Forall (λ c, c ≠ "."%char) (list_ascii_of_string (until_dot s))
  ∧ (s = until_dot s ∨ ∃ rest, s = until_dot s +:+ "." +:+ rest).
Proof.
  induction s as [|c s [IH1 IH2]]; cbn [until_dot].
  - split; [constructor|by left].
  - destruct (Ascii.eqb_spec c ".") as [->|Hc].
    + split; [constructor|]. right. by exists s.
    + cbn [list_ascii_of_string]. split; [by constructor|].
      destruct IH2 as [IH2|[rest IH2]].
      * left. by f_equal.
      * right. exists rest.
        change (String c s = String c (until_dot s +:+ "." +:+ rest)). by f_equal.
Qed.

(** X14: The short name of a node, which the pattern of the test message starts
    with, is the part of the name before its first dot: it has no dot, and
    the name is the short name alone or the short name, a dot and more.  A
    name that is empty or starts with a dot is its own short name. *)
Theorem simple_name_short node :
  match node with
  | EmptyString => simple_name node = node
  | String c _ =>
      if Ascii.eqb c "." then simple_name node = node
      else
        simple_name node ≠ EmptyString
        ∧ Forall (λ c, c ≠ "."%char) (list_ascii_of_string (simple_name node))
        ∧ (node = simple_name node ∨ ∃ rest, node = simple_name node +:+ "." +:+ rest)
  end.
Proof.
  destruct node as [|c s]; [done|]. unfold simple_name.
  pose proof (until_dot_split (String c s)) as H. cbn [until_dot] in *.
  destruct (Ascii.eqb c "."); [done|]. split; [done|]. exact H.
Qed.

Example simple_name_examples :
  simple_name "n2.example.org" = "n2" ∧ simple_name "n1" = "n1"
  ∧ simple_name ".local" = ".local".
Proof. done. Qed.

End NameProofs.

(** ** LogAudit: the restart of the logs and the retries *)

Module RetryProofs.
Import LogRetry RetryView.

Lemma lift_rsh_run cm node cmd w :
  lift (rsh cm node cmd) w = (Ok (rsh_run cm node cmd), ran w node cmd).
Proof. done. Qed.

Lemma slept_app evs1 evs2 : slept (evs1 ++ evs2) = slept evs1 ++ slept evs2.
Proof. apply omap_app. Qed.

Lemma naps_after w evs :
  naps (after w evs)
  = naps w ++ map (λ seconds, (length (trace (cluster_state w)), seconds)) (slept evs).
Proof.
  unfold naps, after. cbn [effects]. rewrite omap_app. f_equal.
  induction evs as [|e evs IH]; [done|].
  destruct e; cbn; unfold slept in IH; by rewrite IH.
Qed.

Lemma slept_naps w : slept (said w) = map snd (naps w).
Proof.
  unfold slept, said, naps. induction (effects w) as [|[before e] l IH]; [done|].
  destruct e; cbn; by rewrite IH.
Qed.

Lemma restarted_refl w : restarted w w [].
Proof. unfold restarted, remote. cbn. by rewrite app_nil_r. Qed.

Lemma restarted_trans w1 w2 w3 cmds1 cmds2 :
  restarted w1 w2 cmds1 → restarted w2 w3 cmds2 → restarted w1 w3 (cmds1 ++ cmds2).
Proof.
  intros (Hs1 & Hk1 & Hu1 & Ht1 & Hl1) (Hs2 & Hk2 & Hu2 & Ht2 & Hl2).
  unfold restarted, remote in *.
  rewrite Hs2, Hk2, Hu2, Ht2, Hl2, Ht1, map_app, app_assoc. done.
Qed.

Lemma restarted_ran w node cmd : restarted w (ran w node cmd) [(node, cmd)].
Proof. done. Qed.

Lemma restarted_line w m : restarted w (after w [Log m]) [].
Proof.
  unfold restarted, remote. rewrite naps_after. cbn. by rewrite !app_nil_r.
Qed.

(** A remote command of the restart, and the line when it fails. *)
Lemma restart_step cm node cmd m w :
  ∃ w',
    wbind (lift (rsh cm node cmd))
      (λ '(rc, _), if negb (rc =? 0) then wlog m else wret tt) w
    = (Ok tt, w')
    ∧ restarted w w' [(node, cmd)].
Proof.
  unfold wbind. rewrite lift_rsh_run. destruct (rsh_run cm node cmd) as [rc out].
  destruct (negb (rc =? 0)).
  - unfold wlog. rewrite tell_run. eexists. split; [reflexivity|].
    exact (restarted_trans _ _ _ [_] [] (restarted_ran w node cmd) (restarted_line _ m)).
  - eexists. split; [reflexivity|]. apply restarted_ran.
Qed.

Lemma restart_step_then cm node cmd m (k : W unit) w :
  ∃ w',
    wbind (lift (rsh cm node cmd))
      (λ '(rc, _),
         wbind (if negb (rc =? 0) then wlog m else wret tt) (λ _, k)) w
    = k w'
    ∧ restarted w w' [(node, cmd)].
Proof.
  unfold wbind at 1. rewrite lift_rsh_run. destruct (rsh_run cm node cmd) as [rc out].
  destruct (negb (rc =? 0)).
  - unfold wbind, wlog. rewrite tell_run. eexists. split; [reflexivity|].
    exact (restarted_trans _ _ _ [_] [] (restarted_ran w node cmd) (restarted_line _ m)).
  - eexists. split; [reflexivity|]. apply restarted_ran.
Qed.

Lemma restart_node_run cm pr node w :
  ∃ w', restart_node cm pr node tt w = (Ok tt, w')
        ∧ restarted w w' (restart_commands cm pr [node]).
Proof.
  unfold restart_node, restart_commands. cbn [flat_map]. rewrite app_nil_r.
  assert (∃ w1,
            (if env_have_systemd cm then
               wbind (lift (rsh cm node "systemctl stop systemd-journald.socket"))
                 (λ '(rc, _),
                    wbind
                      (if negb (rc =? 0) then wlog (LCannotStopJournald node)
                       else wret tt)
                      (λ _,
                         wbind
                           (lift (rsh cm node "systemctl start systemd-journald.service"))
                           (λ '(rc, _),
                              if negb (rc =? 0) then wlog (LCannotStartJournald node)
                              else wret tt)))
             else wret tt) w = (Ok tt, w1)
            ∧ restarted w w1
                (if env_have_systemd cm then
                   [(node, "systemctl stop systemd-journald.socket");
                    (node, "systemctl start systemd-journald.service")]
                 else [])) as (w1 & E1 & H1).
  { destruct (env_have_systemd cm).
    - destruct (restart_step_then cm node "systemctl stop systemd-journald.socket"
                  (LCannotStopJournald node)
                  (wbind (lift (rsh cm node "systemctl start systemd-journald.service"))
                     (λ '(rc, _),
                        if negb (rc =? 0) then wlog (LCannotStartJournald node)
                        else wret tt)) w) as (wa & Ea & Ha).
      destruct (restart_step cm node "systemctl start systemd-journald.service"
                  (LCannotStartJournald node) wa) as (wb & Eb & Hb).
      exists wb. split.
      + by rewrite Ea.
      + exact (restarted_trans _ _ _ [_] [_] Ha Hb).
    - exists w. split; [done|apply restarted_refl]. }
  assert (∃ w2,
            match env_syslogd pr with
            | Some syslogd =>
                wbind (lift (rsh cm node ("service " +:+ syslogd +:+ " restart")))
                  (λ '(rc, _),
                     if negb (rc =? 0) then wlog (LCannotRestart syslogd node)
                     else wret tt)
            | None => wret tt
            end w1 = (Ok tt, w2)
            ∧ restarted w1 w2
                match env_syslogd pr with
                | Some syslogd => [(node, "service " +:+ syslogd +:+ " restart")]
                | None => []
                end) as (w2 & E2 & H2).
  { destruct (env_syslogd pr) as [syslogd|].
    - apply restart_step.
    - exists w1. split; [done|apply restarted_refl]. }
  exists w2. split.
  - unfold wbind at 1. by rewrite E1.
  - exact (restarted_trans _ _ _ _ _ H1 H2).
Qed.

Lemma restart_nodes_run cm pr nodes w :
  ∃ w', wfor_each nodes (restart_node cm pr) tt w = (Ok tt, w')
        ∧ restarted w w' (restart_commands cm pr nodes).
Proof.
  revert w. induction nodes as [|node nodes IH]; intros w.
  - exists w. split; [done|apply restarted_refl].
  - cbn [wfor_each]. destruct (restart_node_run cm pr node w) as (w1 & E1 & H1).
    destruct (IH w1) as (w2 & E2 & H2). exists w2. split.
    + unfold wbind. by rewrite E1.
    + replace (restart_commands cm pr (node :: nodes))
        with (restart_commands cm pr [node] ++ restart_commands cm pr nodes)
        by (unfold restart_commands; cbn [flat_map]; by rewrite app_nil_r).
      exact (restarted_trans _ _ _ _ _ H1 H2).
Qed.

Lemma restart_run cm pr nodes w :
  ∃ w',
    _restart_cluster_logging cm pr nodes w = (Ok tt, w')
    ∧ restarted w w'
        (restart_commands cm pr
           match nodes with
           | Some (node :: nodes) => node :: nodes
           | _ => env_nodes cm
           end).
Proof.
  unfold _restart_cluster_logging. unfold wbind at 1, wdebug. rewrite tell_run.
  match goal with
  | |- context [wfor_each ?l _ tt ?w0] =>
      destruct (restart_nodes_run cm pr l w0) as (w' & E & H)
  end.
  exists w'. split; [exact E|].
  refine (restarted_trans _ _ _ [] _ _ H).
  unfold restarted, remote. rewrite naps_after. cbn. by rewrite !app_nil_r.
Qed.

(** X15: The restart of the logs never raises.  On each node, in the order of
    the nodes, it stops the socket of the journal and starts the journal
    when the cluster has systemd, and then restarts the syslog daemon when
    one is configured; it runs no other command, also when one of them
    fails, and without a list of nodes, or with an empty one, it restarts the
    logs of all nodes. *)
Theorem restart_commands_run cm pr nodes w :
  ∃ w',
    _restart_cluster_logging cm pr nodes w = (Ok tt, w')
    ∧ trace (cluster_state w')
      = trace (cluster_state w)
        ++ map (λ '(node, cmd), ERsh node cmd)
             (restart_commands cm pr
                match nodes with
                | Some (node :: nodes) => node :: nodes
                | _ => env_nodes cm
                end)
    ∧ expected_status (cluster_state w') = expected_status (cluster_state w).
Proof.
  destruct (restart_run cm pr nodes w) as (w' & E & Hs & _ & _ & Ht & _).
  by exists w'.
Qed.

(** A run of the log test in the world. *)
Lemma test_run cm w :
  let st := cluster_state w in
  ∃ w',
    lift (LogAudit._test_logging cm) w
    = (Ok (if found cm (log_kind st) (uuid_count st) then Py.VInt 1
           else Py.VBool false), w')
    ∧ effects w' = effects w
    ∧ trace (cluster_state w')
      = trace st ++ test_events cm (log_kind st) (uuid_count st)
    ∧ uuid_count (cluster_state w') = S (uuid_count st)
    ∧ (found cm (log_kind st) (uuid_count st) = false →
       log_kind (cluster_state w') = log_kind st).
Proof.
  intros st. pose proof (LogProofs.test_logging_runs cm st) as H.
  unfold LogView.runs in H. cbv zeta in H. unfold lift. fold st. rewrite H.
  unfold found, test_events.
  destruct (LogView.winner cm (LogAudit.patterns_for cm (uuid4 cm (uuid_count st)))
              (LogView.candidates cm (log_kind st))) as [k|] eqn:Ew.
  - rewrite bool_decide_eq_true_2 by eauto. eexists. split; [reflexivity|]. done.
  - rewrite bool_decide_eq_false_2 by (by intros [? ?]). eexists.
    split; [reflexivity|]. cbn. split; [done|]. split; [done|]. split; [done|].
    intros _. by destruct (log_kind st).
Qed.

Lemma failures_le cm pref tries n : (failures cm pref n tries ≤ tries)%nat.
Proof.
  revert n. induction tries as [|tries IH]; intros n; cbn [failures]; [lia|].
  destruct (found cm pref n); [lia|]. specialize (IH (S n)). lia.
Qed.

(** The first [i] of [i + j] rounds are [i] rounds. *)
Lemma rounds_app cm pr pref n i j :
  rounds cm pr pref n (i + j)
  = rounds cm pr pref n i ++ rounds cm pr pref (n + i) j.
Proof.
  revert n. induction i as [|i IH]; intros n; cbn [rounds Nat.add].
  - by rewrite Nat.add_0_r.
  - by rewrite IH, <- app_assoc, Nat.add_succ_r.
Qed.

(** The sleeps of the rounds that follow the first one. *)
Lemma naps_shift cm pr pref n (before : nat) (attempt : Z) k :
  ((before + length (round_events cm pr pref n))%nat, 60 * (attempt + 1))
  :: map (λ i, ((before + length (round_events cm pr pref n)
                 + length (rounds cm pr pref (S n) i))%nat,
                60 * (attempt + 1 + Z.of_nat i)))
       (seq 1 k)
  = map (λ i, ((before + length (rounds cm pr pref n i))%nat,
               60 * (attempt + Z.of_nat i)))
      (seq 1 (S k)).
Proof.
  cbn [seq map rounds]. rewrite app_nil_r.
  replace (attempt + Z.of_nat 1) with (attempt + 1) by lia.
  apply (f_equal (cons _)).
  rewrite <- (seq_shift k 1), map_map. apply map_ext. intros i.
  cbn [rounds]. rewrite length_app. f_equal; [lia|]. f_equal. lia.
Qed.

(** The loop of [__call__], with [tries] tests left. *)
Lemma attempts_run cm pr tries fuel attempt w :
  attempt = 4 - Z.of_nat tries → (tries < fuel)%nat →
  ∃ w',
    attempts fuel cm pr attempt w
    = (Ok (Some (attempt
                 + Z.of_nat (failures cm (log_kind (cluster_state w))
                               (uuid_count (cluster_state w)) tries))), w')
    ∧ trace (cluster_state w')
      = trace (cluster_state w)
        ++ rounds cm pr (log_kind (cluster_state w)) (uuid_count (cluster_state w))
             (failures cm (log_kind (cluster_state w))
                (uuid_count (cluster_state w)) tries)
        ++ (if (failures cm (log_kind (cluster_state w))
                  (uuid_count (cluster_state w)) tries <? tries)%nat
            then test_events cm (log_kind (cluster_state w))
                   (uuid_count (cluster_state w)
                    + failures cm (log_kind (cluster_state w))
                        (uuid_count (cluster_state w)) tries)%nat
            else [])
    ∧ naps w'
      = naps w
        ++ map (λ i, ((length (trace (cluster_state w))
                       + length (rounds cm pr (log_kind (cluster_state w))
                                   (uuid_count (cluster_state w)) i))%nat,
                      60 * (attempt + Z.of_nat i)))
             (seq 1 (failures cm (log_kind (cluster_state w))
                       (uuid_count (cluster_state w)) tries))
    ∧ uuid_count (cluster_state w')
      = (uuid_count (cluster_state w)
         + Nat.min tries
             (S (failures cm (log_kind (cluster_state w))
                   (uuid_count (cluster_state w)) tries)))%nat.
Proof.
  revert fuel attempt w. induction tries as [|tries IH]; intros fuel attempt w Ha Hf;
    (destruct fuel as [|fuel]; [lia|]); cbn [attempts failures].
  - assert ((attempt <=? max_attempts) = false) as ->
      by (apply Z.leb_gt; unfold max_attempts; lia).
    exists w. cbn. rewrite Z.add_0_r, !app_nil_r, Nat.add_0_r. done.
  - assert ((attempt <=? max_attempts) = true) as ->
      by (apply Z.leb_le; unfold max_attempts; lia).
    destruct (test_run cm w) as (w1 & E1 & He1 & Ht1 & Hu1 & Hk1). unfold wbind at 1.
    rewrite E1.
    destruct (found cm (log_kind (cluster_state w)) (uuid_count (cluster_state w))).
    + cbn [Py.truthy Py.truthy_int negb]. exists w1.
      rewrite Z.add_0_r, Nat.add_0_r. split; [done|]. cbn [seq map rounds app Nat.ltb Nat.leb].
      rewrite app_nil_r.
      split; [exact Ht1|]. split; [unfold naps; by rewrite He1|]. rewrite Hu1. lia.
    + cbn [Py.truthy negb]. specialize (Hk1 eq_refl).
      destruct (restart_run cm pr None w1) as (w2 & E2 & Hs2 & Hk2 & Hu2 & Ht2 & Hl2).
      unfold wbind at 1. rewrite E2. unfold wbind at 1, sleep. rewrite tell_run.
      destruct (IH fuel (attempt + 1) (after w2 [Sleep (60 * (attempt + 1))]))
        as (w3 & E3 & Ht3 & Hl3 & Hu3); [lia|lia|].
      cbn [after cluster_state] in E3, Ht3, Hl3, Hu3.
      rewrite Hk2, Hk1, Hu2, Hu1 in E3, Ht3, Hl3, Hu3.
      assert (trace (cluster_state w2)
              = trace (cluster_state w)
                ++ round_events cm pr (log_kind (cluster_state w))
                     (uuid_count (cluster_state w))) as Ht.
      { rewrite Ht2, Ht1. unfold round_events. by rewrite <- app_assoc. }
      exists w3. split; [rewrite E3; do 3 f_equal; lia|]. split; [|split].
      * rewrite Ht3, Ht. cbn [rounds]. rewrite <- !app_assoc.
        replace (S (failures cm (log_kind (cluster_state w))
                      (S (uuid_count (cluster_state w))) tries) <? S tries)%nat
          with (failures cm (log_kind (cluster_state w))
                  (S (uuid_count (cluster_state w))) tries <? tries)%nat by done.
        by rewrite Nat.add_succ_r.
      * rewrite Hl3. fold (after w2 [Sleep (60 * (attempt + 1))]).
        rewrite naps_after, Hl2. unfold naps at 1. rewrite He1. fold (naps w).
        cbn [slept omap map]. rewrite <- app_assoc. f_equal.
        rewrite Ht, length_app. cbn [app]. apply naps_shift.
      * rewrite Hu3. lia.
Qed.

(** X16: LogAudit always returns, and tests the logs four times at most.  It
    waits for all nodes; then a test that fails is followed by the restart
    of the logs of all nodes and, once the commands of the restart have
    run, by a sleep, one minute longer each time; the next test comes
    after the sleep.  It returns True as soon as a test finds its message,
    and that test is followed by nothing.  It returns False after the
    fourth test that fails: that one too is followed by the restart and by
    the sleep, so that the audit has restarted the logs four times and
    slept ten minutes when it gives up, and its last line says that the
    logs cannot be recovered. *)
Theorem log_call_retries fuel cm pr w :
  (5 ≤ fuel)%nat →
  let st := cluster_state w in
  let k := failures cm (log_kind st) (uuid_count st) 4 in
  ∃ w',
    __call__ fuel cm pr w = (Ok (Some (k <? 4)%nat), w')
    ∧ trace (cluster_state w')
      = trace st ++ [EWaitForAllNodes (env_nodes cm)]
        ++ rounds cm pr (log_kind st) (uuid_count st) k
        ++ (if (k <? 4)%nat then test_events cm (log_kind st) (uuid_count st + k)%nat
            else [])
    ∧ naps w'
      = naps w
        ++ map (λ i, ((length (trace st) + 1
                       + length (rounds cm pr (log_kind st) (uuid_count st) i))%nat,
                      60 * Z.of_nat i))
             (seq 1 k)
    ∧ slept (said w') = slept (said w) ++ map (λ i, 60 * Z.of_nat i) (seq 1 k)
    ∧ uuid_count (cluster_state w') = (uuid_count st + Nat.min 4 (S k))%nat
    ∧ (k = 4%nat → last (said w') = Some (Log LLoggingUnrecoverable)).
Proof.
  intros Hf. cbv zeta. unfold __call__. unfold wbind at 1, lift at 1, emit.
  cbn [fst snd].
  match goal with
  | |- context [wbind (attempts fuel cm pr 0) _ ?w0] =>
      destruct (attempts_run cm pr 4 fuel 0 w0) as (w1 & E1 & Ht1 & Hl1 & Hu1);
      [done|lia|]; unfold wbind at 1; rewrite E1
  end.
  cbn [cluster_state log_kind uuid_count trace] in *. rewrite Z.add_0_l.
  pose proof (failures_le cm (log_kind (cluster_state w)) 4
                (uuid_count (cluster_state w))) as Hk4.
  set (k := failures cm (log_kind (cluster_state w)) (uuid_count (cluster_state w)) 4)
    in *.
  assert (naps w1
          = naps w
            ++ map (λ i, ((length (trace (cluster_state w)) + 1
                           + length (rounds cm pr (log_kind (cluster_state w))
                                       (uuid_count (cluster_state w)) i))%nat,
                          60 * Z.of_nat i))
                 (seq 1 k)) as Hn1.
  { rewrite Hl1. unfold naps at 1. cbn [effects]. fold (naps w). f_equal.
    apply map_ext. intros i. rewrite length_app. cbn [length]. done. }
  assert (slept (said w1)
          = slept (said w) ++ map (λ i, 60 * Z.of_nat i) (seq 1 k)) as Hs1.
  { rewrite !slept_naps, Hn1, map_app, map_map. done. }
  unfold max_attempts. destruct (k <? 4)%nat eqn:Ek.
  - apply Nat.ltb_lt in Ek. rewrite (proj2 (Z.ltb_ge 3 (Z.of_nat k))) by lia.
    exists w1. split; [done|]. split; [by rewrite Ht1, <- app_assoc|].
    split; [done|]. split; [done|]. split; [done|]. lia.
  - apply Nat.ltb_ge in Ek. rewrite (proj2 (Z.ltb_lt 3 (Z.of_nat k))) by lia.
    unfold wbind, wlog. rewrite tell_run. eexists. split; [reflexivity|].
    cbn [after cluster_state]. split; [by rewrite Ht1, <- app_assoc|].
    fold (after w1 [Log LLoggingUnrecoverable]).
    rewrite naps_after, said_after, slept_app. cbn [slept omap map].
    rewrite !app_nil_r. split; [done|]. split; [done|]. split; [done|].
    intros _. apply last_snoc.
Qed.

Lemma log_call_retries_witness :
  let w := Scenarios.world_of Examples.three_up in
  let st := cluster_state w in
  let k := failures Scenarios.deaf (log_kind st) (uuid_count st) 4 in
  ∃ w',
    __call__ 5 Scenarios.deaf Scenarios.probes w = (Ok (Some (k <? 4)%nat), w')
    ∧ trace (cluster_state w')
      = trace st ++ [EWaitForAllNodes (env_nodes Scenarios.deaf)]
        ++ rounds Scenarios.deaf Scenarios.probes (log_kind st) (uuid_count st) k
        ++ (if (k <? 4)%nat
            then test_events Scenarios.deaf (log_kind st) (uuid_count st + k)%nat
            else [])
    ∧ naps w'
      = naps w
        ++ map (λ i, ((length (trace st) + 1
                       + length (rounds Scenarios.deaf Scenarios.probes (log_kind st)
                                   (uuid_count st) i))%nat,
                      60 * Z.of_nat i))
             (seq 1 k)
    ∧ slept (said w') = slept (said w) ++ map (λ i, 60 * Z.of_nat i) (seq 1 k)
    ∧ uuid_count (cluster_state w') = (uuid_count st + Nat.min 4 (S k))%nat
    ∧ (k = 4%nat → last (said w') = Some (Log LLoggingUnrecoverable)).
Proof.
  apply (log_call_retries 5 Scenarios.deaf Scenarios.probes
           (Scenarios.world_of Examples.three_up)). lia.
Defined.

(** No test finds its message: the audit runs four tests, restarts the logs
    of n1 and n2 after each, sleeps one, two, three and four minutes, and
    returns False. *)
Example deaf_gives_up :
  ∃ w',
    __call__ 5 Scenarios.deaf Scenarios.probes (Scenarios.world_of Examples.three_up)
    = (Ok (Some false), w')
    ∧ slept (said w') = [60; 120; 180; 240]
    ∧ uuid_count (cluster_state w') = 4%nat
    ∧ last (said w') = Some (Log LLoggingUnrecoverable)
    ∧ List.filter (λ '(node, cmd), negb (Py.starts_with "logger" cmd))
        (LogView.sent (trace (cluster_state w')))
      = concat (replicate 4 (restart_commands Scenarios.deaf Scenarios.probes
                               ["n1"; "n2"])).
Proof. eexists. vm_compute. done. Qed.

(** One round of the deaf cluster, whose logs have no preferred kind: the
    remote commands are the test message on each node, and then the three
    commands of the restart on each node. *)
Example deaf_round :
  LogView.sent (round_events Scenarios.deaf Scenarios.probes None 0)
  = [("n1", LogAudit.logger_cmd Scenarios.deaf "0c0f5e8a" "n1");
     ("n2", LogAudit.logger_cmd Scenarios.deaf "0c0f5e8a" "n2");
     ("n1", "systemctl stop systemd-journald.socket");
     ("n1", "systemctl start systemd-journald.service");
     ("n1", "service rsyslog restart");
     ("n2", "systemctl stop systemd-journald.socket");
     ("n2", "systemctl start systemd-journald.service");
     ("n2", "service rsyslog restart")].
Proof. reflexivity. Qed.

(** The first test finds its message in the journal: the audit returns
    True and sleeps no time. *)
Example journal_found_at_once :
  ∃ w',
    __call__ 5 Examples.only_journal Scenarios.probes
      (Scenarios.world_of Examples.three_up)
    = (Ok (Some true), w')
    ∧ said w' = [].
Proof. eexists. vm_compute. done. Qed.

End RetryProofs.

(** ** CloneAudit *)

Module CloneProofs.
Import PrimitiveAudit CloneView.

Lemma clone_children_run (clone : AuditResource.t) (children : list AuditResource.t) w :
  wfor_each children
    (λ child _,
       if bool_decide (AuditResource.parent child = Some (AuditResource.id clone))
          && String.eqb (AuditResource.type child) "primitive"
       then wdebug (LCheckingChild (AuditResource.id child) (AuditResource.id clone))
       else wret tt)
    tt w
  = (Ok tt,
     after w (map (λ child, Debug (LCheckingChild (AuditResource.id child)
                                     (AuditResource.id clone)))
                (children_of children clone))).
Proof.
  revert w. induction children as [|child children IH]; intros w.
  - cbn. by rewrite after_nil.
  - cbn [wfor_each]. unfold children_of in *. cbn [List.filter].
    destruct (bool_decide _ && _).
    + unfold wbind at 1, wdebug. rewrite tell_run, IH, after_app. done.
    + unfold wbind at 1, wret at 1. apply IH.
Qed.

Lemma clones_run (resources clones : list AuditResource.t) w :
  wfor_each clones
    (λ clone _,
       if negb (String.eqb (AuditResource.type clone) "clone") then wret tt
       else
         wfor_each resources
           (λ child _,
              if bool_decide (AuditResource.parent child = Some (AuditResource.id clone))
                 && String.eqb (AuditResource.type child) "primitive"
              then wdebug (LCheckingChild (AuditResource.id child)
                             (AuditResource.id clone))
              else wret tt)
           tt)
    tt w
  = (Ok tt, after w (checked resources clones)).
Proof.
  revert w. induction clones as [|clone clones IH]; intros w.
  - cbn. by rewrite after_nil.
  - cbn [wfor_each]. unfold checked in *. cbn [flat_map].
    destruct (String.eqb (AuditResource.type clone) "clone"); cbn [negb].
    + unfold wbind at 1. rewrite clone_children_run, IH, after_app. done.
    + unfold wbind at 1, wret at 1. apply IH.
Qed.

(** X17: CloneAudit audits nothing: it raises exactly when [_setup] does, and
    else returns True; after [_setup] it runs no command and writes one debug
    line for each primitive child of each clone. *)
Theorem clone_call_passes cm self w :
  match _setup cm "CloneAudit" self (cluster_state w) with
  | (Ok (ok, self'), st') =>
      CloneCall.__call__ cm self w
      = (Ok (true, self'),
         after {| cluster_state := st'; effects := effects w |}
           (if ok then checked (_resources self') (_resources self') else []))
  | (Raise e, st') =>
      CloneCall.__call__ cm self w
      = (Raise e, {| cluster_state := st'; effects := effects w |})
  end.
Proof.
  destruct (_setup cm "CloneAudit" self (cluster_state w)) as [[[ok self']|e] st'] eqn:E;
    unfold CloneCall.__call__; unfold wbind at 1, lift at 1; rewrite E; [|done].
  destruct ok; cbn [negb].
  - unfold wbind at 1. rewrite clones_run. done.
  - by rewrite after_nil.
Qed.

End CloneProofs.

(** ** ColocationAudit *)

Module ColocationProofs.
Import PrimitiveAudit ColocationCall ColocationView.

Lemma hosts_run lines hosts st :
  for_each lines
    (λ line hosts,
       let fields := Py.split line in
       bind (field fields 0) (λ f, ret (hosts ++ [f])))
    hosts st
  = (match hosts_of lines with
     | Some more => Ok (hosts ++ more)
     | None => Raise IndexError
     end, st).
Proof.
  revert hosts. induction lines as [|line lines IH]; intros hosts.
  - cbn. by rewrite app_nil_r.
  - cbn [for_each]. unfold bind at 1, bind at 1, field. unfold hosts_of in *.
    cbn [mapM]. destruct (Py.split line) as [|f fields]; [done|]. cbn.
    rewrite IH. destruct (mapM _ lines); cbn; [|done]. by rewrite <- app_assoc.
Qed.

Lemma crm_location_ensures cm self resource st :
  ensures (_crm_location cm self resource) st
    (λ hosts st', located cm (target_of self) resource = Some hosts
                  ∧ extends st st')
    (λ e st', located cm (target_of self) resource = None
              ∧ e = IndexError ∧ extends st st').
Proof.
  unfold _crm_location, located, ensures, bind at 1, rsh, bind at 1, emit, ret. cbn.
  fold (locate_cmd resource).
  destruct (rsh_run cm (target_of self) (locate_cmd resource)) as [rc lines].
  destruct (rc =? 0).
  - rewrite hosts_run. destruct (hosts_of lines); (split; [done|]); [|split; [done|]];
      solve_extends.
  - cbn. split; [done|]. solve_extends.
Qed.

Lemma coloc_nodes_run coloc target source result w :
  ∃ w', wfor_each source (check_node coloc target) result w
        = (Ok (result && forallb (λ node, bool_decide (node ∈ target)) source), w')
        ∧ cluster_state w' = cluster_state w.
Proof.
  revert result w. induction source as [|node source IH]; intros result w.
  - exists w. cbn. by rewrite andb_true_r.
  - cbn [wfor_each forallb]. unfold wbind at 1, check_node at 1.
    destruct (bool_decide (node ∈ target)); cbn [negb];
      unfold wbind at 1, wlog, wdebug; rewrite tell_run; cbn [wret].
    + destruct (IH result (after w [Debug (LColocationIn (AuditConstraint.id coloc)
                 (AuditConstraint.rsc coloc) node target)])) as (w' & -> & Hs).
      exists w'. done.
    + destruct (IH false (after w [Log (LColocationNotIn (AuditConstraint.id coloc)
                 (AuditConstraint.rsc coloc) node target)])) as (w' & -> & Hs).
      exists w'. rewrite andb_false_r. done.
Qed.

Lemma check_constraint_ensures cm self coloc result w :
  wensures (check_constraint cm self coloc result) w
    (λ r w', ∃ b, colocated cm (target_of self) coloc = Some b
                  ∧ r = result && b)
    (λ e w', colocated cm (target_of self) coloc = None ∧ e = IndexError).
Proof.
  unfold check_constraint, colocated.
  destruct (negb (String.eqb (AuditConstraint.type coloc) "rsc_colocation")).
  - apply wensures_ret. exists true. by rewrite andb_true_r.
  - apply wensures_bind, wensures_lift.
    eapply ensures_mono; [apply crm_location_ensures| |].
    2: { intros e st' (-> & -> & _). done. }
    intros source st1 [-> _]. apply wensures_bind, wensures_lift.
    eapply ensures_mono; [apply crm_location_ensures| |].
    2: { intros e st' (-> & -> & _). done. }
    intros target st2 [-> _]. cbn.
    destruct source as [|node source]; cbn [Py.truthy_list negb].
    + apply wensures_bind, wensures_tell, wensures_ret. exists true.
      by rewrite andb_true_r.
    + unfold wensures.
      destruct (coloc_nodes_run coloc target (node :: source) result
                  {| cluster_state := st2; effects := effects w |}) as (w' & -> & _).
      eexists. split; [reflexivity|done].
Qed.

Lemma check_constraints_ensures cm self constraints result w :
  wensures (wfor_each constraints (check_constraint cm self) result) w
    (λ r w', ∃ b, verdict cm (target_of self) constraints = Some b
                  ∧ r = result && b)
    (λ e w', verdict cm (target_of self) constraints = None
             ∧ e = IndexError).
Proof.
  revert result w. induction constraints as [|c cs IH]; intros result w.
  - apply wensures_ret. exists true. by rewrite andb_true_r.
  - cbn [wfor_each]. apply wensures_bind. unfold verdict in *. cbn [mapM].
    eapply wensures_mono; [apply check_constraint_ensures| |].
    2: { intros e w' [-> ->]. done. }
    intros r w1 (b & -> & ->). cbn.
    eapply wensures_mono; [apply IH| |].
    + intros r w2 (b' & Hv & ->). destruct (mapM _ cs) as [bs|]; [|done].
      cbn in *. injection Hv as <-. eexists. split; [reflexivity|].
      cbn. by rewrite andb_assoc.
    + intros e w2 [Hv ->]. destruct (mapM _ cs); [done|]. done.
Qed.

(** X18: ColocationAudit raises when [_setup] does, and returns True when
    [_setup] finds no node to ask.  Else it asks the target where the
    resource and the target of every colocation constraint run, and returns
    True exactly when, for every such constraint, every node where the
    resource runs is a node where the target runs; a resource that runs
    nowhere passes.  A blank line in an answer raises IndexError. *)
Theorem colocation_verdict cm self w :
  match _setup cm "ColocationAudit" self (cluster_state w) with
  | (Ok (true, self'), st') =>
      match verdict cm (target_of self') (_constraints self') with
      | Some b => ∃ w', __call__ cm self w = (Ok (b, self'), w')
      | None => ∃ w', __call__ cm self w = (Raise IndexError, w')
      end
  | (Ok (false, self'), st') =>
      __call__ cm self w
      = (Ok (true, self'), {| cluster_state := st'; effects := effects w |})
  | (Raise e, st') =>
      __call__ cm self w = (Raise e, {| cluster_state := st'; effects := effects w |})
  end.
Proof.
  assert (__call__ cm self w
          = match _setup cm "ColocationAudit" self (cluster_state w) with
            | (Ok (ok, self'), st') =>
                (if negb ok then wret (true, self')
                 else
                   wbind (wfor_each (_constraints self') (check_constraint cm self') true)
                     (λ result, wret (result, self')))
                  {| cluster_state := st'; effects := effects w |}
            | (Raise e, st') =>
                (Raise e, {| cluster_state := st'; effects := effects w |})
            end) as ->.
  { unfold __call__, wbind at 1, lift.
    by destruct (_setup cm "ColocationAudit" self (cluster_state w))
      as [[[ok self']|e] st']. }
  destruct (_setup cm "ColocationAudit" self (cluster_state w))
    as [[[[] self']|e] st']; cbn [negb]; [|done..].
  pose proof (check_constraints_ensures cm self' (_constraints self') true
                {| cluster_state := st'; effects := effects w |}) as H.
  unfold wensures in H.
  destruct (wfor_each (_constraints self') (check_constraint cm self') true
              {| cluster_state := st'; effects := effects w |})
    as [[r|e] w'] eqn:Erun.
  - destruct H as (b & Hb & ->). rewrite Hb. exists w'. unfold wbind.
    by rewrite Erun.
  - destruct H as [Hv ->]. rewrite Hv. exists w'. unfold wbind. by rewrite Erun.
Qed.

(** rsc1 runs on n1 and n2 and is colocated with rsc2, which runs on n1
    alone: the audit fails, with a line for n2. *)
Example colocation_apart :
  ∃ self' w',
    __call__ Scenarios.apart init (Scenarios.world_of Examples.three_up)
    = (Ok (false, self'), w')
    ∧ said w' = [Debug (LColocationIn "col1" "rsc1" "n1" ["n1"]);
                 Log (LColocationNotIn "col1" "rsc1" "n2" ["n1"])].
Proof. eexists _, _. vm_compute. done. Qed.

End ColocationProofs.

(** ** ControllerStateAudit *)

Module ControllerProofs.
Import ControllerCall ControllerView SetupView.

Lemma expected_eqb st node s t :
  expected_status st !! node = Some s → String.eqb s t = expected st node t.
Proof.
  intros E. unfold expected. rewrite E. destruct (String.eqb_spec s t) as [->|Hne].
  - by rewrite bool_decide_eq_true_2.
  - rewrite bool_decide_eq_false_2; [done|]. by intros [=].
Qed.

(** The loop over the nodes. *)
Lemma controller_nodes_run pr nodes s w :
  known (cluster_state w) nodes →
  wfor_each nodes (check_node pr) s w
  = (Ok {| up_are_down :=
             up_are_down s + Z.of_nat (length (up_but_down pr (cluster_state w) nodes));
           down_are_up :=
             down_are_up s + Z.of_nat (length (down_but_up pr (cluster_state w) nodes));
           unstable_list := unstable_list s ++ unstable pr nodes |}, w).
Proof.
  revert s. induction nodes as [|node nodes IH]; intros s Hk.
  - cbn. rewrite !Z.add_0_r, app_nil_r. by destruct s.
  - apply SetupProofs.known_cons in Hk as [[status Hs] Hk]. cbn [wfor_each].
    unfold wbind at 1, check_node at 1, wbind at 1, lift, get_expected_status.
    rewrite Hs. replace {| cluster_state := cluster_state w; effects := effects w |}
      with w by (by destruct w).
    rewrite (expected_eqb _ _ _ "down" Hs), (expected_eqb _ _ _ "up" Hs).
    unfold up_but_down, down_but_up, unstable. cbn [List.filter].
    destruct (0 <? test_node_cm pr node) eqn:E0; cbn [negb andb].
    + destruct (expected (cluster_state w) node "down"),
        (test_node_cm pr node =? 1); cbn [wret]; rewrite IH by done;
        cbn [up_are_down down_are_up unstable_list length];
        unfold up_but_down, down_but_up, unstable;
        do 3 f_equal; rewrite <- ?app_assoc; try done; lia.
    + assert ((test_node_cm pr node =? 1) = false) as ->.
      { apply Z.eqb_neq. apply Z.ltb_ge in E0. lia. }
      destruct (expected (cluster_state w) node "up"); cbn [wret]; rewrite IH by done;
        cbn [up_are_down down_are_up unstable_list length];
        unfold up_but_down, down_but_up, unstable;
        do 3 f_equal; try done; lia.
Qed.

Lemma node_ok_counts pr st nodes :
  forallb (node_ok pr st) nodes
  = negb (0 <? length (unstable pr nodes))%nat
    && negb (0 <? length (up_but_down pr st nodes))%nat
    && negb (0 <? length (down_but_up pr st nodes))%nat.
Proof.
  induction nodes as [|node nodes IH]; [done|].
  unfold unstable, up_but_down, down_but_up in *. cbn [forallb List.filter].
  rewrite IH. unfold node_ok.
  destruct (0 <? test_node_cm pr node) eqn:E0; cbn [negb andb].
  - destruct (test_node_cm pr node =? 1), (expected st node "down"); cbn;
      rewrite ?andb_false_r; done.
  - assert ((test_node_cm pr node =? 1) = false) as ->.
    { apply Z.eqb_neq. apply Z.ltb_ge in E0. lia. }
    destruct (expected st node "up"); cbn; rewrite ?andb_false_r; done.
Qed.

(** X19: When every node has an expected status, ControllerStateAudit returns,
    changes nothing, and returns True exactly when every node is as
    expected: no controller is starting up or shutting down, none runs on a
    node expected down, and none is missing on a node expected up.  It logs
    one line for each of the three kinds of fault that it counts. *)
Theorem controller_verdict cm pr w :
  known (cluster_state w) (env_nodes cm) →
  __call__ cm pr w
  = (Ok (forallb (node_ok pr (cluster_state w)) (env_nodes cm)),
     after w (report cm pr (cluster_state w))).
Proof.
  intros Hk. unfold __call__, wbind at 1. rewrite (controller_nodes_run _ _ _ _ Hk).
  cbn [up_are_down down_are_up unstable_list app]. rewrite !Z.add_0_l.
  rewrite node_ok_counts. unfold report.
  set (u := unstable pr (env_nodes cm)).
  set (ud := up_but_down pr (cluster_state w) (env_nodes cm)).
  set (du := down_but_up pr (cluster_state w) (env_nodes cm)).
  assert (∀ l : list string, (0 <? Z.of_nat (length l)) = (0 <? length l)%nat) as Hlen.
  { intros l. destruct l; [done|]. cbn [length].
    rewrite (proj2 (Z.ltb_lt _ _)) by lia. done. }
  rewrite !Hlen.
  destruct (0 <? length u)%nat, (0 <? length ud)%nat, (0 <? length du)%nat;
    unfold wbind, wlog, wret; rewrite ?tell_run, ?after_app; cbn [app negb andb];
    rewrite ?after_nil; done.
Qed.

(** X20: ControllerStateAudit raises KeyError for the first node without an
    expected status, and writes no line. *)
Theorem controller_unknown_node cm pr w pre node post :
  env_nodes cm = pre ++ node :: post →
  known (cluster_state w) pre → expected_status (cluster_state w) !! node = None →
  __call__ cm pr w = (Raise (KeyError node), w).
Proof.
  intros En Hk Hn. unfold __call__, wbind at 1. rewrite En.
  assert (∀ s, wfor_each (pre ++ node :: post) (check_node pr) s w
               = (Raise (KeyError node), w)) as ->; [|done].
  clear En. induction pre as [|n pre IH]; intros s.
  - cbn [app wfor_each]. unfold wbind at 1, check_node at 1, wbind at 1, lift,
      get_expected_status. rewrite Hn. by destruct w.
  - apply SetupProofs.known_cons in Hk as [[status Hs] Hk]. cbn [app wfor_each].
    unfold wbind at 1, check_node at 1, wbind at 1, lift, get_expected_status.
    rewrite Hs. replace {| cluster_state := cluster_state w; effects := effects w |}
      with w by (by destruct w).
    destruct (0 <? test_node_cm pr n), (String.eqb status "down"),
      (test_node_cm pr n =? 1), (String.eqb status "up"); cbn [wret]; by apply IH.
Qed.

Lemma controller_verdict_witness :
  __call__ Examples.leader_at_5 Scenarios.probes (Scenarios.world_of Scenarios.n1_down)
  = (Ok (forallb (node_ok Scenarios.probes Scenarios.n1_down)
           (env_nodes Examples.leader_at_5)),
     after (Scenarios.world_of Scenarios.n1_down)
       (report Examples.leader_at_5 Scenarios.probes Scenarios.n1_down)).
Proof.
  apply (controller_verdict Examples.leader_at_5 Scenarios.probes
           (Scenarios.world_of Scenarios.n1_down)).
  SetupProofs.known_by_computation.
Defined.

(** n1 is expected down and its controller runs, the controller of n2 is
    starting up, and n3 is expected up and its controller does not run: the
    audit fails with the three lines. *)
Example controller_three_faults :
  ∃ w',
    __call__ Examples.leader_at_5 Scenarios.probes (Scenarios.world_of Scenarios.n1_down)
    = (Ok false, w')
    ∧ said w' = [Log (LNotStable 1 2 ["n2"]); Log (LUpAreDown 1 3);
                 Log (LDownAreUp 1 3)].
Proof. eexists. vm_compute. done. Qed.

Lemma controller_unknown_node_witness :
  __call__ Examples.leader_at_5 Scenarios.probes
    (Scenarios.world_of Scenarios.n3_unknown)
  = (Raise (KeyError "n3"), Scenarios.world_of Scenarios.n3_unknown).
Proof.
  apply (controller_unknown_node _ _ _ ["n1"; "n2"] "n3" []);
    [reflexivity|SetupProofs.known_by_computation|reflexivity].
Defined.

End ControllerProofs.

(** ** ResourceRecover: the choice of the resource *)

Module RecoverProofs.
Import ResourceRecover RecoverView ResourceView.

Lemma scan_ensures rid lines self st :
  ensures (scan rid lines self) st
    (λ r st',
       st' = st ∧ _rid_alt r.2 = _rid_alt self
       ∧ match r.1 with
         | Some rsc =>
             AuditResource.id rsc = rid
             ∧ _rid r.2 = Some (AuditResource.clone_id rsc)
             ∧ ∃ pre line post,
                 List.filter (String.prefix "Resource: ") lines = pre ++ line :: post
                 ∧ Forall (other rid) pre
                 ∧ well_formed line = true
                 ∧ rsc = parsed line
         | None =>
             _rid r.2 = _rid self
             ∧ Forall (other rid) (List.filter (String.prefix "Resource: ") lines)
         end)
    (λ e st',
       st' = st
       ∧ ∃ pre line post,
           List.filter (String.prefix "Resource: ") lines = pre ++ line :: post
           ∧ Forall (other rid) pre
           ∧ well_formed line = false
           ∧ e = rejected line).
Proof.
  induction lines as [|line lines IH]; cbn [scan List.filter].
  - apply ensures_ret. cbn. done.
  - destruct (String.prefix "Resource: " line); [|exact IH].
    apply ensures_bind. unfold ensures at 1.
    rewrite ResourceProofs.init_resource_run.
    destruct (well_formed line) eqn:Ew.
    + destruct (String.eqb_spec (AuditResource.id (parsed line)) rid) as [Eid|Hne].
      * apply ensures_ret. cbn. split; [done|]. split; [done|]. split; [done|].
        split; [done|]. exists [], line, (List.filter (String.prefix "Resource: ") lines).
        done.
      * eapply ensures_mono; [exact IH| |].
        -- intros [[rsc|] self'] st' (-> & Ha & H); cbn in *.
           ++ destruct H as (Hid & Hr & pre & l & post & -> & Hpre & Hw & ->).
              split; [done|]. split; [done|]. split; [done|]. split; [done|].
              exists (line :: pre), l, post. split; [done|].
              split; [by constructor|done].
           ++ destruct H as [Hr Hall]. split; [done|]. split; [done|].
              split; [done|]. by constructor.
        -- intros e st' (-> & pre & l & post & -> & Hpre & Hw & ->). split; [done|].
           exists (line :: pre), l, post. split; [done|]. split; [by constructor|done].
    + split; [done|].
      exists [], line, (List.filter (String.prefix "Resource: ") lines). done.
Qed.

(** X21: [_choose_resource] draws a resource of the list, asks [node] for the
    resources, and gives the first one listed whose id is the resource
    drawn; it then takes the [clone_id] of that resource as the resource to
    fail, and keeps the one drawn as the other name.  It gives None when no
    resource listed has that id, and raises when a line before it is
    malformed.  It runs the one command. *)
Theorem choose_resource_outcome cm pick node resourcelist self st rid :
  resourcelist !! (pick mod length resourcelist)%nat = Some rid →
  ensures (_choose_resource cm pick node resourcelist self) st
    (λ r st', chosen cm node rid r ∧ trace st' = trace st ++ [ERsh node "crm_resource -c"])
    (λ e st', broken cm node rid e ∧ trace st' = trace st ++ [ERsh node "crm_resource -c"]).
Proof.
  intros Hrid. unfold _choose_resource, choice.
  assert (drop (pick mod length resourcelist) resourcelist
          = rid :: drop (S (pick mod length resourcelist)) resourcelist) as ->.
  { by apply drop_S. }
  cbn [first]. apply ensures_bind, ensures_ret, ensures_bind. unfold ensures at 1, rsh.
  unfold bind, emit, ret. unfold chosen, broken, described.
  destruct (rsh_run cm node "crm_resource -c") as [rc lines]. cbn [snd].
  eapply ensures_mono; [apply scan_ensures| |].
  - intros [[rsc|] self'] st' (-> & Ha & H); cbn in *; done.
  - intros e st' (-> & H). done.
Qed.

Lemma choose_resource_outcome_witness :
  ensures
    (_choose_resource Scenarios.two_resources 7 "n1" ["rsc1"; "rsc2"]
       {| _rid := None; _rid_alt := None |})
    Examples.three_up
    (λ r st',
       chosen Scenarios.two_resources "n1" "rsc2" r
       ∧ trace st' = trace Examples.three_up ++ [ERsh "n1" "crm_resource -c"])
    (λ e st',
       broken Scenarios.two_resources "n1" "rsc2" e
       ∧ trace st' = trace Examples.three_up ++ [ERsh "n1" "crm_resource -c"]).
Proof.
  apply (choose_resource_outcome Scenarios.two_resources 7 "n1" ["rsc1"; "rsc2"]).
  reflexivity.
Defined.

(** The generator draws rsc2, whose clone instance is listed as rsc2:0:
    that instance is the resource to fail. *)
Example choose_clone_instance :
  ∃ rsc self' st',
    _choose_resource Scenarios.two_resources 7 "n1" ["rsc1"; "rsc2"]
      {| _rid := None; _rid_alt := None |} Examples.three_up
    = (Ok (Some rsc, self'), st')
    ∧ AuditResource.id rsc = "rsc2"
    ∧ _rid self' = Some "rsc2:0" ∧ _rid_alt self' = Some "rsc2".
Proof. eexists _, _, _. vm_compute. done. Qed.

End RecoverProofs.
